(** * SWHID: canonical serializers, hash oracle and identifier grammar

    A shallow embedding of the Go packages [swhid] and [swhid/objects]
    (content.go, directory.go, revision.go, release.go, snapshot.go and
    swhid.go) together with the properties of their specification, and of
    the pure functions around them (from.go, the header parser and the
    timezone format of git.go, the prefix test of the directory walker and
    the qualifier flag of the command) with further properties of the code.

    Conventions of the embedding:
    - a Go [string] is a Rocq [string] (a sequence of 8-bit characters, compared
      byte-wise), a Go [[]byte] is a [list byte];
    - a Go [int]/[int64] is a [Z]; a length is a [nat];
    - a Go [map[string]string] is a [gmap string string]; the order in which a
      [range] loop visits a map is not fixed by the language, so a
      function that ranges over a map takes the visiting order as an argument;
    - a function that returns [(T, error)] returns a [result];
    - the functions of the Go standard library that the packages call are
      modelled first, each for the arguments the packages pass. *)

From Stdlib Require Import ZArith NArith List Ascii String Bool Lia.
From Stdlib Require Import Strings.Byte DecimalString.
From Stdlib Require Import Sorting.Permutation Sorting.Sorted OrdersEx.
From stdpp Require Import base option list sorting gmap strings fin_maps.

Import ListNotations.
Local Open Scope string_scope.
Local Open Scope list_scope.

(* ===================================================================== *)
(** * Go standard library functions used by the packages *)
(* ===================================================================== *)

(** A value or an error, for Go functions returning [(T, error)]. *)
Inductive result (T E : Type) : Type :=
| Ok (v : T)
| Err (e : E).
Arguments Ok {T E} v.
Arguments Err {T E} e.

(** ** Conversions between [string] and [[]byte] *)

Definition bytes_of (s : string) : list byte := list_byte_of_string s.
Definition string_of (b : list byte) : string := string_of_list_byte b.

Definition Z_of_byte (b : byte) : Z := Z.of_N (Byte.to_N b).

Definition byte_of_Z (z : Z) : byte :=
  match Byte.of_N (Z.to_N (z mod 256)) with
  | Some b => b
  | None => x00
  end.

(** ** [fmt.Sprintf("%d", n)] *)

Definition itoa (z : Z) : string := NilZero.string_of_int (Z.to_int z).

(** ** [crypto/sha1] (FIPS 180-4, section 6.1), on 32-bit words held in [Z] *)

Module SHA1.

Local Open Scope Z_scope.

Definition mask32 : Z := 0xffffffff.

Definition add32 (x y : Z) : Z := (x + y) mod 2 ^ 32.

(** [bits.RotateLeft32] *)
Definition rotl (n x : Z) : Z :=
  Z.lor (Z.shiftl x n mod 2 ^ 32) (Z.shiftr x (32 - n)).

Definition not32 (x : Z) : Z := Z.lxor x mask32.

Definition K0 : Z := 0x5A827999.
Definition K1 : Z := 0x6ED9EBA1.
Definition K2 : Z := 0x8F1BBCDC.
Definition K3 : Z := 0xCA62C1D6.

Definition init : Z * Z * Z * Z * Z :=
  (0x67452301, 0xEFCDAB89, 0x98BADCFE, 0x10325476, 0xC3D2E1F0).

(** [binary.BigEndian.PutUint64] *)
Definition be64 (n : Z) : list Z :=
  map (fun i => Z.shiftr n (8 * i) mod 256) [7; 6; 5; 4; 3; 2; 1; 0].

(** The padding [checkSum] writes after a message of [len] bytes: the byte
    0x80, zeros up to 56 modulo 64, and the length in bits. *)
Definition padding (len : Z) : list Z :=
  let t := if len mod 64 <? 56 then 56 - len mod 64
           else 64 + 56 - len mod 64 in
  (0x80 :: repeat 0 (Z.to_nat (t - 1))) ++ be64 ((len * 8) mod 2 ^ 64).

(** Big-endian 32-bit words of a block. *)
Fixpoint words (p : list Z) : list Z :=
  match p with
  | b0 :: b1 :: b2 :: b3 :: rest =>
      Z.lor (Z.lor (Z.lor (Z.shiftl b0 24) (Z.shiftl b1 16)) (Z.shiftl b2 8)) b3
      :: words rest
  | _ => []
  end.

(** The message schedule, most recent word first. *)
Fixpoint expand (n : nat) (ws : list Z) : list Z :=
  match n with
  | O => ws
  | S n' =>
      let tmp := Z.lxor (Z.lxor (Z.lxor (nth 2 ws 0) (nth 7 ws 0)) (nth 13 ws 0))
                        (nth 15 ws 0) in
      expand n' (rotl 1 tmp :: ws)
  end.

Definition schedule (block : list Z) : list Z :=
  rev (expand 64 (rev (words block))).

Definition f (i b c d : Z) : Z :=
  if i <? 20 then Z.lor (Z.land b c) (Z.land (not32 b) d)
  else if i <? 40 then Z.lxor (Z.lxor b c) d
  else if i <? 60 then Z.lor (Z.land (Z.lor b c) d) (Z.land b c)
  else Z.lxor (Z.lxor b c) d.

Definition K (i : Z) : Z :=
  if i <? 20 then K0 else if i <? 40 then K1
  else if i <? 60 then K2 else K3.

Definition round (st : Z * (Z * Z * Z * Z * Z)) (w : Z) : Z * (Z * Z * Z * Z * Z) :=
  let '(i, (a, b, c, d, e)) := st in
  let t := add32 (add32 (add32 (add32 (rotl 5 a) (f i b c d)) e) w) (K i) in
  (i + 1, (t, a, rotl 30 b, c, d)).

(** One iteration of the outer loop of [blockGeneric]. *)
Definition block (h : Z * Z * Z * Z * Z) (p : list Z) : Z * Z * Z * Z * Z :=
  let '(h0, h1, h2, h3, h4) := h in
  let '(_, (a, b, c, d, e)) := fold_left round (schedule p) (0, h) in
  (add32 h0 a, add32 h1 b, add32 h2 c, add32 h3 d, add32 h4 e).

Fixpoint blocks (n : nat) (h : Z * Z * Z * Z * Z) (p : list Z) : Z * Z * Z * Z * Z :=
  match n with
  | O => h
  | S n' => blocks n' (block h (firstn 64%nat p)) (skipn 64%nat p)
  end.

Definition be32 (x : Z) : list Z :=
  map (fun i => Z.shiftr x (8 * i) mod 256) [3; 2; 1; 0].

(** [h := sha1.New(); h.Write(msg); h.Sum(nil)] *)
Definition Sum (msg : list byte) : list byte :=
  let data := map Z_of_byte msg in
  let padded := data ++ padding (Z.of_nat (length data)) in
  let '(h0, h1, h2, h3, h4) := blocks (length padded / 64)%nat init padded in
  map byte_of_Z (be32 h0 ++ be32 h1 ++ be32 h2 ++ be32 h3 ++ be32 h4).

End SHA1.

(** ** [encoding/hex] *)

Module hex.

Local Open Scope Z_scope.

Definition hextable : string := "0123456789abcdef".

Definition digit (n : Z) : ascii :=
  match String.get (Z.to_nat n) hextable with
  | Some c => c
  | None => "0"%char
  end.

(** [hex.EncodeToString] *)
Fixpoint EncodeToString (src : list byte) : string :=
  match src with
  | [] => ""
  | b :: rest =>
      String (digit (Z.shiftr (Z_of_byte b) 4))
        (String (digit (Z.land (Z_of_byte b) 0x0f)) (EncodeToString rest))
  end.

(** [reverseHexTable]: the value of a hexadecimal digit, either case. *)
Definition fromHexChar (c : ascii) : option Z :=
  let n := Z.of_N (N_of_ascii c) in
  if (48 <=? n) && (n <=? 57) then Some (n - 48)
  else if (97 <=? n) && (n <=? 102) then Some (n - 97 + 10)
  else if (65 <=? n) && (n <=? 70) then Some (n - 65 + 10)
  else None.

Inductive DecodeError : Type :=
| InvalidByteError (c : ascii)
| ErrLength.

(** [hex.DecodeString]: the bytes decoded before the first error, and the
    error if there is one. A bad digit is reported before an odd length. *)
Fixpoint DecodeString (s : string) : list byte * option DecodeError :=
  match s with
  | EmptyString => ([], None)
  | String p EmptyString =>
      match fromHexChar p with
      | None => ([], Some (InvalidByteError p))
      | Some _ => ([], Some ErrLength)
      end
  | String p (String q rest) =>
      match fromHexChar p, fromHexChar q with
      | None, _ => ([], Some (InvalidByteError p))
      | Some _, None => ([], Some (InvalidByteError q))
      | Some a, Some b =>
          let '(bs, err) := DecodeString rest in
          (byte_of_Z (Z.lor (Z.shiftl a 4) b) :: bs, err)
      end
  end.

End hex.

(** ** [sort.Slice]

    [sort.Slice] hands the slice to [pdqsort_func], which sorts a slice of at
    most twelve elements by insertion sort ([insertionSortLessFunc]): element
    [i] is swapped leftwards while it is less than its left neighbour. A longer
    slice goes through pattern-defeating quicksort. That part of the library
    is not modelled; it is a parameter, [pdqsort], and the results that
    quantify over all slices assume of it what the library documents: the
    outcome is a rearrangement of the input in which no element is less than
    an earlier one. The library does not promise stability. *)

Module sort.

Section insertion.

Context {A : Type} (less : A -> A -> bool).

(** The inner loop: [x] moves left past every neighbour it is less than.
    The already sorted prefix is held right-to-left. *)
Fixpoint insertLeft (x : A) (prefix : list A) : list A :=
  match prefix with
  | [] => [x]
  | y :: rest => if less x y then y :: insertLeft x rest else x :: y :: rest
  end.

(** [insertionSortLessFunc] over the whole slice. *)
Definition insertionSort (data : list A) : list A :=
  rev (fold_left (fun prefix x => insertLeft x prefix) data []).

(** [a] may stand before [b]: [b] is not less than [a]. *)
Definition notAfter (a b : A) : Prop := less b a = false.

End insertion.

(** What the library does with a slice of more than twelve elements. *)
Class LongSlices : Type :=
  pdqsort : forall A : Type, (A -> A -> bool) -> list A -> list A.

Definition maxInsertion : nat := 12.

Definition Slice {S : LongSlices} {A : Type} (less : A -> A -> bool) (data : list A)
  : list A :=
  if (length data <=? maxInsertion)%nat then insertionSort less data
  else pdqsort A less data.

(** The documented outcome of sorting, for a comparison of string keys. *)
Definition contract (S : LongSlices) : Prop :=
  forall (A : Type) (less : A -> A -> bool) (key : A -> string),
    (forall a b, less a b = String.ltb (key a) (key b)) ->
    forall data : list A,
      pdqsort A less data ≡ₚ data
      /\ StronglySorted (notAfter less) (pdqsort A less data).

(** Insertion sort at every length: one sorter that meets the contract. *)
Definition insertionOnly : LongSlices :=
  fun A less data => insertionSort less data.

End sort.

(** ** [strings], for the one-byte separators the packages use *)

Definition LF : ascii := "010"%char.

Module strings.

(** [strings.Join] *)
Fixpoint Join (elems : list string) (sep : string) : string :=
  match elems with
  | [] => ""
  | e :: rest =>
      match rest with
      | [] => e
      | _ :: _ => e +:+ sep +:+ Join rest sep
      end
  end.

(** [strings.ReplaceAll(s, old, new)] where [old] is the one byte [old]. *)
Fixpoint ReplaceAll (s : string) (old : ascii) (new : string) : string :=
  match s with
  | EmptyString => ""
  | String c rest =>
      (if Ascii.eqb c old then new else String c "") +:+ ReplaceAll rest old new
  end.

(** The text before the first separator and the fields after it. *)
Fixpoint fields (s : string) (sep : ascii) : string * list string :=
  match s with
  | EmptyString => ("", [])
  | String c rest =>
      let '(first, others) := fields rest sep in
      if Ascii.eqb c sep then ("", first :: others) else (String c first, others)
  end.

(** [strings.Split(s, sep)] where [sep] is the one byte [sep]: one more
    field than there are separators, so never an empty slice. *)
Definition Split (s : string) (sep : ascii) : list string :=
  let '(first, others) := fields s sep in first :: others.

(** [strings.Index(s, substr)] where [substr] is the one byte [c];
    [None] stands for [-1]. *)
Fixpoint Index (s : string) (c : ascii) : option nat :=
  match s with
  | EmptyString => None
  | String d rest => if Ascii.eqb d c then Some O else option_map S (Index rest c)
  end.

(** [strings.HasPrefix] *)
Definition HasPrefix (s pre : string) : bool := String.prefix pre s.

End strings.

(** The slices [s[:i]] and [s[i:]]. *)
Definition slice_to (s : string) (i : nat) : string := String.substring 0 i s.
Definition slice_from (s : string) (i : nat) : string :=
  String.substring i (String.length s - i) s.

(** ** [net/url] *)

Module url.

Definition ishex (c : ascii) : bool :=
  match hex.fromHexChar c with Some _ => true | None => false end.

Definition unhex (c : ascii) : Z :=
  match hex.fromHexChar c with Some v => v | None => 0%Z end.

(** First pass of [unescape]: every percent sign must be followed by two
    hexadecimal digits; otherwise the offending text is the error. *)
Fixpoint check (s : string) : option string :=
  match s with
  | EmptyString => None
  | String c rest =>
      if Ascii.eqb c "%"%char then
        match rest with
        | String a (String b rest') =>
            if ishex a && ishex b then check rest' else Some (slice_to s 3)
        | _ => Some (slice_to s 3)
        end
      else check rest
  end.

(** Second pass of [unescape] in query mode: [%XY] becomes the byte [XY] and
    a plus sign becomes a space. *)
Fixpoint build (s : string) : string :=
  match s with
  | EmptyString => ""
  | String c rest =>
      if Ascii.eqb c "%"%char then
        match rest with
        | String a (String b rest') =>
            String (ascii_of_N (Z.to_N (Z.lor (Z.shiftl (unhex a) 4) (unhex b))))
                   (build rest')
        | _ => String c (build rest)
        end
      else if Ascii.eqb c "+"%char then String " "%char (build rest)
      else String c (build rest)
  end.

(** [url.QueryUnescape] *)
Definition QueryUnescape (s : string) : result string string :=
  match check s with
  | Some e => Err e
  | None => Ok (build s)
  end.

End url.

(** ** [bufio.Scanner] with the default split function [ScanLines], reading
    from a [strings.Reader]

    The scanner yields the text line by line. The end of a line is a newline;
    one carriage return before it is dropped. Text after the last newline is a
    last line when it is not empty. A line must fit the buffer of
    [MaxScanTokenSize] bytes together with its newline: at the first line of
    that many bytes or more the scanner stops, and the error is for the caller
    to read. *)

Definition CR : ascii := "013"%char.

Module bufio.

Definition MaxScanTokenSize : N := 65536.

(** A line the buffer can hold. *)
Definition fits (raw : string) : bool :=
  (N.of_nat (String.length raw) <? MaxScanTokenSize)%N.

(** [dropCR] *)
Fixpoint dropCR (data : string) : string :=
  match data with
  | EmptyString => ""
  | String c rest =>
      match rest with
      | EmptyString => if Ascii.eqb c CR then "" else data
      | String _ _ => String c (dropCR rest)
      end
  end.

(** The tokens for the fields [raws] that the newlines cut the text into. *)
Fixpoint scan (raws : list string) : list string :=
  match raws with
  | [] => []
  | raw :: rest =>
      match rest with
      | [] => if String.eqb raw "" then []
              else if fits raw then [dropCR raw] else []
      | _ :: _ => if fits raw then dropCR raw :: scan rest else []
      end
  end.

(** The successive values of [scanner.Text()] while [scanner.Scan()] holds. *)
Definition Lines (text : string) : list string :=
  scan (strings.Split text LF).

End bufio.

(* ===================================================================== *)
(** * Package [objects] *)
(* ===================================================================== *)

(** The framing shared by the five [Compute...Hash] functions:
    [header := fmt.Sprintf("<kind> %d\x00", len(body))], then SHA-1 over
    header and body, rendered in hexadecimal. *)
Definition hashObject (kind : string) (body : list byte) : string :=
  let header := kind +:+ " " +:+ itoa (Z.of_nat (length body)) +:+ String zero "" in
  hex.EncodeToString (SHA1.Sum (bytes_of header ++ body)).

(** ** content.go *)

Definition ComputeContentHash (data : list byte) : string :=
  hashObject "blob" data.

(** ** directory.go *)

Module directory.

Definition EntryType := Z.

Definition EntryTypeFile : EntryType := 0%Z.
Definition EntryTypeExecutable : EntryType := 1%Z.
Definition EntryTypeDirectory : EntryType := 2%Z.
Definition EntryTypeSymlink : EntryType := 3%Z.
Definition EntryTypeRevision : EntryType := 4%Z.

Record DirectoryEntry : Type := {
  Name : string;
  Type_ : EntryType;
  Target : string;
  Perms : string
}.

Definition DefaultPerms (e : DirectoryEntry) : string :=
  if (Type_ e =? EntryTypeDirectory)%Z then "40000"
  else if (Type_ e =? EntryTypeFile)%Z then "100644"
  else if (Type_ e =? EntryTypeExecutable)%Z then "100755"
  else if (Type_ e =? EntryTypeSymlink)%Z then "120000"
  else if (Type_ e =? EntryTypeRevision)%Z then "160000"
  else "100644".

Definition Permissions (e : DirectoryEntry) : string :=
  if negb (String.eqb (Perms e) "") then Perms e else DefaultPerms e.

Definition SortKey (e : DirectoryEntry) : string :=
  if (Type_ e =? EntryTypeDirectory)%Z then Name e +:+ "/" else Name e.

(** The comparison handed to [sort.Slice]. *)
Definition less (a b : DirectoryEntry) : bool := String.ltb (SortKey a) (SortKey b).

(** The bytes one iteration of the loop of [serializeEntries] appends; the
    error of [hex.DecodeString] is dropped. *)
Definition entryBytes (entry : DirectoryEntry) : list byte :=
  let perms := Permissions entry in
  let hashBytes := fst (hex.DecodeString (Target entry)) in
  bytes_of perms ++ [x20] ++ bytes_of (Name entry) ++ [x00] ++ hashBytes.

Definition serializeEntries {S : sort.LongSlices} (entries : list DirectoryEntry)
  : list byte :=
  let sorted := sort.Slice less entries in
  fold_left (fun result entry => result ++ entryBytes entry) sorted [].

Definition ComputeDirectoryHash {S : sort.LongSlices} (entries : list DirectoryEntry)
  : string :=
  hashObject "tree" (serializeEntries entries).

End directory.

(** ** snapshot.go *)

Module snapshot.

Definition BranchTargetType := string.

Definition BranchTargetContent : BranchTargetType := "content".
Definition BranchTargetDirectory : BranchTargetType := "directory".
Definition BranchTargetRevision : BranchTargetType := "revision".
Definition BranchTargetRelease : BranchTargetType := "release".
Definition BranchTargetSnapshot : BranchTargetType := "snapshot".
Definition BranchTargetAlias : BranchTargetType := "alias".
Definition BranchTargetDangling : BranchTargetType := "dangling".

Record Branch : Type := {
  Name : string;
  TargetType : BranchTargetType;
  Target : string
}.

Definition computeTargetIdentifier (branch : Branch) : list byte :=
  let t := TargetType branch in
  if String.eqb t BranchTargetContent || String.eqb t BranchTargetDirectory
     || String.eqb t BranchTargetRevision || String.eqb t BranchTargetRelease
     || String.eqb t BranchTargetSnapshot
  then fst (hex.DecodeString (Target branch))
  else if String.eqb t BranchTargetAlias then bytes_of (Target branch)
  else if String.eqb t BranchTargetDangling then []
  else [].

Definition serializeBranch (branch : Branch) : list byte :=
  let targetIdentifier := computeTargetIdentifier branch in
  let targetLength := length targetIdentifier in
  bytes_of (TargetType branch) ++ [x20] ++ bytes_of (Name branch) ++ [x00]
  ++ bytes_of (itoa (Z.of_nat targetLength) +:+ ":") ++ targetIdentifier.

(** The comparison handed to [sort.Slice]. *)
Definition less (a b : Branch) : bool := String.ltb (Name a) (Name b).

Definition serializeBranches {S : sort.LongSlices} (branches : list Branch)
  : list byte :=
  let sorted := sort.Slice less branches in
  fold_left (fun result branch => result ++ serializeBranch branch) sorted [].

Definition ComputeSnapshotHash {S : sort.LongSlices} (branches : list Branch)
  : string :=
  hashObject "snapshot" (serializeBranches branches).

End snapshot.

(** ** revision.go *)

Module revision.

Record RevisionMetadata : Type := {
  Directory : string;
  Parents : list string;
  Author : string;
  AuthorTimestamp : Z;
  AuthorTimezone : string;
  Committer : string;
  CommitterTimestamp : Z;
  CommitterTimezone : string;
  Message : string;
  ExtraHeaders : list (string * string)
}.

Definition escapeNewlines (s : string) : string :=
  strings.ReplaceAll s LF (String LF " ").

Definition formatHeaderLine (key value : string) : string :=
  let valueEscaped := escapeNewlines value in
  key +:+ " " +:+ valueEscaped.

(** The slice [lines] at the point where [serializeRevision] joins it. *)
Definition headerLines (meta : RevisionMetadata) : list string :=
  let lines := [] in
  let lines := lines ++ ["tree " +:+ Directory meta] in
  let lines :=
    fold_left (fun lines parent => lines ++ ["parent " +:+ parent]) (Parents meta) lines in
  let authorTz := AuthorTimezone meta in
  let authorTz := if String.eqb authorTz "" then "+0000" else authorTz in
  let authorEscaped := escapeNewlines (Author meta) in
  let lines :=
    lines ++ ["author " +:+ authorEscaped +:+ " " +:+ itoa (AuthorTimestamp meta)
              +:+ " " +:+ authorTz] in
  let committerTz := CommitterTimezone meta in
  let committerTz := if String.eqb committerTz "" then "+0000" else committerTz in
  let committerEscaped := escapeNewlines (Committer meta) in
  let lines :=
    lines ++ ["committer " +:+ committerEscaped +:+ " "
              +:+ itoa (CommitterTimestamp meta) +:+ " " +:+ committerTz] in
  fold_left (fun lines header => lines ++ [formatHeaderLine (fst header) (snd header)])
            (ExtraHeaders meta) lines.

Definition serializeRevision (meta : RevisionMetadata) : list byte :=
  let lines := headerLines meta in
  let result := strings.Join lines (String LF "") +:+ String LF "" in
  let result :=
    if negb (String.eqb (Message meta) "") then result +:+ String LF "" +:+ Message meta
    else result in
  bytes_of result.

Definition ComputeRevisionHash (meta : RevisionMetadata) : string :=
  hashObject "commit" (serializeRevision meta).

End revision.

(** ** release.go *)

Module release.

Definition TargetType := string.

Definition TargetTypeContent : TargetType := "cnt".
Definition TargetTypeDirectory : TargetType := "dir".
Definition TargetTypeRevision : TargetType := "rev".
Definition TargetTypeRelease : TargetType := "rel".
Definition TargetTypeSnapshot : TargetType := "snp".

Record ReleaseTarget : Type := {
  Hash : string;
  Type_ : TargetType
}.

Definition GitType (t : ReleaseTarget) : string :=
  if String.eqb (Type_ t) TargetTypeContent then "blob"
  else if String.eqb (Type_ t) TargetTypeDirectory then "tree"
  else if String.eqb (Type_ t) TargetTypeRevision then "commit"
  else if String.eqb (Type_ t) TargetTypeRelease then "tag"
  else if String.eqb (Type_ t) TargetTypeSnapshot then "snapshot"
  else "commit".

Record ReleaseMetadata : Type := {
  Name : string;
  Target : ReleaseTarget;
  Author : string;
  AuthorTimestamp : Z;
  AuthorTimezone : string;
  Message : string;
  ExtraHeaders : list (string * string)
}.

(** The slice [lines] at the point where [serializeRelease] joins it. *)
Definition headerLines (meta : ReleaseMetadata) : list string :=
  let lines := [] in
  let lines := lines ++ ["object " +:+ Hash (Target meta)] in
  let lines := lines ++ ["type " +:+ GitType (Target meta)] in
  let nameEscaped := revision.escapeNewlines (Name meta) in
  let lines := lines ++ ["tag " +:+ nameEscaped] in
  let lines :=
    if negb (String.eqb (Author meta) "") then
      let tz := AuthorTimezone meta in
      let tz := if String.eqb tz "" then "+0000" else tz in
      let authorEscaped := revision.escapeNewlines (Author meta) in
      lines ++ ["tagger " +:+ authorEscaped +:+ " " +:+ itoa (AuthorTimestamp meta)
                +:+ " " +:+ tz]
    else lines in
  fold_left (fun lines header =>
               lines ++ [revision.formatHeaderLine (fst header) (snd header)])
            (ExtraHeaders meta) lines.

Definition serializeRelease (meta : ReleaseMetadata) : list byte :=
  let lines := headerLines meta in
  let result := strings.Join lines (String LF "") +:+ String LF "" in
  let result :=
    if negb (String.eqb (Message meta) "") then result +:+ String LF "" +:+ Message meta
    else result in
  bytes_of result.

Definition ComputeReleaseHash (meta : ReleaseMetadata) : string :=
  hashObject "tag" (serializeRelease meta).

End release.

(* ===================================================================== *)
(** * Package [swhid] *)
(* ===================================================================== *)

Module swhid.

Definition Scheme : string := "swh".
Definition SchemeVersion : Z := 1.
Definition ObjectIDLen : Z := 40.

Definition ObjectType := string.

Definition ObjectTypeContent : ObjectType := "cnt".
Definition ObjectTypeDirectory : ObjectType := "dir".
Definition ObjectTypeRevision : ObjectType := "rev".
Definition ObjectTypeRelease : ObjectType := "rel".
Definition ObjectTypeSnapshot : ObjectType := "snp".

Definition validObjectTypes : gmap string bool :=
  <[ObjectTypeContent := true]>
    (<[ObjectTypeDirectory := true]>
       (<[ObjectTypeRevision := true]>
          (<[ObjectTypeRelease := true]>
             (<[ObjectTypeSnapshot := true]> ∅)))).

(** [validObjectTypes[t]]: a missing key reads as [false]. *)
Definition isValidObjectType (t : ObjectType) : bool :=
  match validObjectTypes !! t with
  | Some b => b
  | None => false
  end.

(** One character of the class [[0-9a-f]]. *)
Definition lowerHexDigit (c : ascii) : bool :=
  let n := N_of_ascii c in
  ((48 <=? n) && (n <=? 57) || (97 <=? n) && (n <=? 102))%N.

(** [hashRegex.MatchString], for the pattern [^[0-9a-f]{40}$]. *)
Definition hashRegex_MatchString (s : string) : bool :=
  Nat.eqb (String.length s) 40 && forallb lowerHexDigit (list_ascii_of_string s).

Definition canonicalQualifierOrder : list string :=
  ["origin"; "visit"; "anchor"; "path"; "lines"; "bytes"].

(** The sentinel errors of the package. *)
Inductive sentinel : Type :=
| ErrEmptySWHID
| ErrInvalidFormat
| ErrInvalidScheme
| ErrInvalidVersion
| ErrInvalidObjectType
| ErrInvalidObjectHash.

(** An error value: a sentinel, or a sentinel wrapped with a detail by
    [fmt.Errorf("%w: ...", sentinel, ...)]. *)
Inductive error : Type :=
| Plain (e : sentinel)
| Wrap (e : sentinel) (detail : string).

(** The sentinel [errors.Is] finds in an error. *)
Definition kind (err : error) : sentinel :=
  match err with
  | Plain e => e
  | Wrap e _ => e
  end.

(** The fields [Scheme] and [ObjectType] are [IdScheme] and [IdObjectType]
    here: the constant and the type of the same names are in scope. *)
Record Identifier : Type := {
  IdScheme : string;
  Version : Z;
  IdObjectType : ObjectType;
  ObjectHash : string;
  Qualifiers : gmap string string
}.

Definition encodeQualifierValue (value : string) : string :=
  let value := strings.ReplaceAll value "%"%char "%25" in
  let value := strings.ReplaceAll value ";"%char "%3B" in
  value.

Definition decodeQualifierValue (value : string) : string :=
  match url.QueryUnescape value with
  | Err _ => value
  | Ok decoded => decoded
  end.

(** One iteration of the qualifier loop of [Parse]. *)
Definition parseQualifier (qualifiers : gmap string string) (part : string)
  : gmap string string :=
  if String.eqb part "" then qualifiers
  else
    match strings.Index part "="%char with
    | None => qualifiers
    | Some idx =>
        let key := slice_to part idx in
        let value := slice_from part (idx + 1) in
        <[key := decodeQualifierValue value]> qualifiers
    end.

Definition Parse (swhidString : string) : result Identifier error :=
  if String.eqb swhidString "" then Err (Plain ErrEmptySWHID)
  else
    let parts := strings.Split swhidString ";"%char in
    let corePart := hd "" parts in
    let qualifierParts := tl parts in
    let coreParts := strings.Split corePart ":"%char in
    if negb (Nat.eqb (length coreParts) 4) then Err (Plain ErrInvalidFormat)
    else
      let scheme := nth 0 coreParts "" in
      let versionStr := nth 1 coreParts "" in
      let objectType := nth 2 coreParts "" in
      let objectHash := nth 3 coreParts "" in
      if negb (String.eqb scheme Scheme) then Err (Wrap ErrInvalidScheme scheme)
      else if negb (String.eqb versionStr "1") then Err (Wrap ErrInvalidVersion versionStr)
      else if negb (isValidObjectType objectType)
      then Err (Wrap ErrInvalidObjectType objectType)
      else if negb (hashRegex_MatchString objectHash)
      then Err (Wrap ErrInvalidObjectHash
                  ("must be " +:+ itoa ObjectIDLen +:+ " hex digits"))
      else
        let qualifiers := fold_left parseQualifier qualifierParts ∅ in
        Ok {| IdScheme := Scheme;
              Version := SchemeVersion;
              IdObjectType := objectType;
              ObjectHash := objectHash;
              Qualifiers := qualifiers |}.

Definition CoreSWHID (id : Identifier) : string :=
  IdScheme id +:+ ":" +:+ itoa (Version id) +:+ ":" +:+ IdObjectType id
  +:+ ":" +:+ ObjectHash id.

(** [visit] is an order in which [range quals] can yield the entries of the
    map: any arrangement of its entries. *)
Definition rangeOrder (quals : gmap string string) (visit : list (string * string))
  : Prop :=
  visit ≡ₚ map_to_list quals.

Definition isCanonical (key : string) : bool :=
  existsb (String.eqb key) canonicalQualifierOrder.

(** [formatQualifiers], given the order [visit] in which its second loop
    ranges over the map. *)
Definition formatQualifiers (visit : list (string * string))
    (quals : gmap string string) : string :=
  let parts := [] in
  let parts :=
    fold_left (fun parts key =>
                 match quals !! key with
                 | Some value => parts ++ [key +:+ "=" +:+ encodeQualifierValue value]
                 | None => parts
                 end) canonicalQualifierOrder parts in
  let parts :=
    fold_left (fun parts kv =>
                 if negb (isCanonical (fst kv))
                 then parts ++ [fst kv +:+ "=" +:+ encodeQualifierValue (snd kv)]
                 else parts) visit parts in
  strings.Join parts ";".

(** The method [String] of [Identifier]. *)
Definition Identifier_String (visit : list (string * string)) (id : Identifier)
  : string :=
  let core := CoreSWHID id in
  if Nat.eqb (size (Qualifiers id)) 0 then core
  else
    let qualifierStr := formatQualifiers visit (Qualifiers id) in
    core +:+ ";" +:+ qualifierStr.

(** [NewIdentifier]; a nil map of qualifiers is [None]. *)
Definition NewIdentifier (objectType : ObjectType) (objectHash : string)
    (qualifiers : option (gmap string string)) : result Identifier error :=
  if negb (isValidObjectType objectType)
  then Err (Wrap ErrInvalidObjectType objectType)
  else if negb (hashRegex_MatchString objectHash)
  then Err (Wrap ErrInvalidObjectHash
              ("must be " +:+ itoa ObjectIDLen +:+ " hex digits"))
  else
    let qualifiers :=
      match qualifiers with
      | None => ∅
      | Some qualifiers => qualifiers
      end in
    Ok {| IdScheme := Scheme;
          Version := SchemeVersion;
          IdObjectType := objectType;
          ObjectHash := objectHash;
          Qualifiers := qualifiers |}.

(** [other.Qualifiers[k]]: a missing key reads as the empty string. *)
Definition qualifierOr (quals : gmap string string) (k : string) : string :=
  match quals !! k with
  | Some v => v
  | None => ""
  end.

(** The method [Equal]; a nil [other] is [None], and [visit] is the order in
    which the loop ranges over the qualifiers of [id]. *)
Definition Equal (visit : list (string * string)) (id : Identifier)
    (other : option Identifier) : bool :=
  match other with
  | None => false
  | Some other =>
      if negb (String.eqb (CoreSWHID id) (CoreSWHID other)) then false
      else if negb (Nat.eqb (size (Qualifiers id)) (size (Qualifiers other))) then false
      else forallb (fun kv => String.eqb (qualifierOr (Qualifiers other) (fst kv)) (snd kv))
                   visit
  end.

(** The method [WithQualifiers]. *)
Definition WithQualifiers (id : Identifier) (qualifiers : gmap string string)
  : Identifier :=
  {| IdScheme := IdScheme id;
     Version := Version id;
     IdObjectType := IdObjectType id;
     ObjectHash := ObjectHash id;
     Qualifiers := qualifiers |}.

(** The constructors from metadata drop the error of [NewIdentifier]: the
    result is the identifier, or nil, here [None]. *)
Definition orNil (r : result Identifier error) : option Identifier :=
  match r with
  | Ok id => Some id
  | Err _ => None
  end.

Definition FromContent (data : list byte) : option Identifier :=
  let hash := ComputeContentHash data in
  orNil (NewIdentifier ObjectTypeContent hash None).

Definition FromDirectory {S : sort.LongSlices} (entries : list directory.DirectoryEntry)
  : option Identifier :=
  let hash := directory.ComputeDirectoryHash entries in
  orNil (NewIdentifier ObjectTypeDirectory hash None).

Definition FromRevisionMetadata (meta : revision.RevisionMetadata) : option Identifier :=
  let hash := revision.ComputeRevisionHash meta in
  orNil (NewIdentifier ObjectTypeRevision hash None).

Definition FromReleaseMetadata (meta : release.ReleaseMetadata) : option Identifier :=
  let hash := release.ComputeReleaseHash meta in
  orNil (NewIdentifier ObjectTypeRelease hash None).

Definition FromSnapshotBranches {S : sort.LongSlices} (branches : list snapshot.Branch)
  : option Identifier :=
  let hash := snapshot.ComputeSnapshotHash branches in
  orNil (NewIdentifier ObjectTypeSnapshot hash None).

(** [fmt.Sprintf("%02d", n)] *)
Definition pad02 (n : Z) : string :=
  let digits := itoa n in
  if (String.length digits <? 2)%nat then "0" +:+ digits else digits.

(** A Go [int] is 64 bits wide; [-x] wraps around. *)
Definition negInt (x : Z) : Z := ((- x + 2 ^ 63) mod 2 ^ 64 - 2 ^ 63)%Z.

(** [formatTimezone], on the offset in seconds that [t.Zone()] returns. *)
Definition formatTimezone (offset : Z) : string :=
  let sign := if (offset <? 0)%Z then "-" else "+" in
  let offset := if (offset <? 0)%Z then negInt offset else offset in
  let hours := Z.quot offset 3600 in
  let minutes := Z.quot (Z.rem offset 3600) 60 in
  sign +:+ pad02 hours +:+ pad02 minutes.

(** [hasPrefix] *)
Definition hasPrefix (s pre : string) : bool :=
  if (String.length s <? String.length pre)%nat then false
  else String.eqb (slice_to s (String.length pre)) pre.

(** [extraHeaders[len(extraHeaders)-1][1] += suffix] *)
Fixpoint appendToLast (extraHeaders : list (string * string)) (suffix : string)
  : list (string * string) :=
  match extraHeaders with
  | [] => []
  | header :: rest =>
      match rest with
      | [] => [(fst header, snd header +:+ suffix)]
      | _ :: _ => header :: appendToLast rest suffix
      end
  end.

(** One iteration of the loop of [parseExtraHeaders], on the headers found so
    far and the flag [inHeaders]. *)
Definition parseHeaderLine (standardHeaders : list string)
    (state : list (string * string) * bool) (line : string)
  : list (string * string) * bool :=
  let '(extraHeaders, inHeaders) := state in
  if String.eqb line "" then (extraHeaders, false)
  else if negb inHeaders then state
  else if strings.HasPrefix line " " then
    if (0 <? length extraHeaders)%nat
    then (appendToLast extraHeaders (String LF (slice_from line 1)), inHeaders)
    else state
  else
    match strings.Index line " "%char with
    | None => state
    | Some idx =>
        let key := slice_to line idx in
        let value := slice_from line (idx + 1) in
        if existsb (String.eqb key) standardHeaders then state
        else (extraHeaders ++ [(key, value)], inHeaders)
    end.

Definition parseExtraHeaders (rawData : string) (standardHeaders : list string)
  : list (string * string) :=
  fst (fold_left (parseHeaderLine standardHeaders) (bufio.Lines rawData) ([], true)).

(** The standard headers [extractCommitExtraHeaders] and
    [extractTagExtraHeaders] pass. *)
Definition commitStandardHeaders : list string :=
  ["tree"; "parent"; "author"; "committer"].
Definition tagStandardHeaders : list string :=
  ["object"; "type"; "tag"; "tagger"].

End swhid.

(* ===================================================================== *)
(** * Command [swhid] *)
(* ===================================================================== *)

Module main.

(** [strings.SplitN(value, "=", 2)] *)
Definition SplitN2 (value : string) (sep : ascii) : list string :=
  match strings.Index value sep with
  | None => [value]
  | Some idx => [slice_to value idx; slice_from value (idx + 1)]
  end.

(** The method [Set] of [qualifierList]: the flags after the call, or the
    text of the error. *)
Definition Set_ (q : gmap string string) (value : string)
  : result (gmap string string) string :=
  let parts := SplitN2 value "="%char in
  if negb (Nat.eqb (length parts) 2)
  then Err ("invalid qualifier format: " +:+ value +:+ " (expected KEY=VALUE)")
  else Ok (<[nth 0 parts "" := nth 1 parts ""]> q).

(** [applyQualifiers], on the flags [qualifierFlags]. *)
Definition applyQualifiers (qualifierFlags : gmap string string)
    (id : swhid.Identifier) : swhid.Identifier :=
  if Nat.eqb (size qualifierFlags) 0 then id
  else swhid.WithQualifiers id qualifierFlags.

End main.

(* ===================================================================== *)
(** * Vocabulary of the properties *)
(* ===================================================================== *)

(** [meta2 := meta; meta2.AuthorTimezone = a; meta2.CommitterTimezone = c] *)
Definition setTimezones (meta : revision.RevisionMetadata) (a c : string)
  : revision.RevisionMetadata :=
  {| revision.Directory := revision.Directory meta;
     revision.Parents := revision.Parents meta;
     revision.Author := revision.Author meta;
     revision.AuthorTimestamp := revision.AuthorTimestamp meta;
     revision.AuthorTimezone := a;
     revision.Committer := revision.Committer meta;
     revision.CommitterTimestamp := revision.CommitterTimestamp meta;
     revision.CommitterTimezone := c;
     revision.Message := revision.Message meta;
     revision.ExtraHeaders := revision.ExtraHeaders meta |}.

(** Elements of [l] that have the same sort key are serialized to the same
    bytes. It holds in particular when the sort keys are pairwise distinct. *)
Definition keyDeterminesBytes {A : Type} (key : A -> string) (enc : A -> list byte)
    (l : list A) : Prop :=
  forall a b, In a l -> In b l -> key a = key b -> enc a = enc b.

(** The text of an identifier before its first semicolon, the segments
    after it, and the colon-separated fields of the former. *)
Definition corePart (s : string) : string := hd "" (strings.Split s ";"%char).
Definition qualifierParts (s : string) : list string := tl (strings.Split s ";"%char).
Definition coreFields (s : string) : list string := strings.Split (corePart s) ":"%char.

(** The key and the raw value of a segment [key=value], cut at its first
    equals sign as the loop of [Parse] does. *)
Definition segment (part : string) : option (string * string) :=
  match strings.Index part "="%char with
  | Some idx => Some (slice_to part idx, slice_from part (idx + 1))
  | None => None
  end.

(** [r] is a failure whose error is, or wraps, the sentinel [k]. *)
Definition failsWith (r : result swhid.Identifier swhid.error) (k : swhid.sentinel)
  : Prop :=
  exists e, r = Err e /\ swhid.kind e = k.

(** The five object type codes. *)
Definition objectTypeCodes : list string := ["cnt"; "dir"; "rev"; "rel"; "snp"].

(** The lines of a text, and the test for a line that begins with [tagger]. *)
Definition textLines (s : string) : list string := strings.Split s LF.
Definition startsWithTagger (line : string) : bool := strings.HasPrefix line "tagger".

(** A raw qualifier value that uses the percent sign only in the escapes
    [%25] and [%3B], and has neither a semicolon nor a plus sign. *)
Fixpoint escapedOnly (v : string) : bool :=
  match v with
  | EmptyString => true
  | String c rest =>
      if Ascii.eqb c "%"%char then
        match rest with
        | String a (String b rest') =>
            (Ascii.eqb a "2"%char && Ascii.eqb b "5"%char
             || Ascii.eqb a "3"%char && Ascii.eqb b "B"%char)
            && escapedOnly rest'
        | _ => false
        end
      else negb (Ascii.eqb c ";"%char) && negb (Ascii.eqb c "+"%char) && escapedOnly rest
  end.

(** Keys in canonical order: the canonical keys that occur, each once, in
    the order of [canonicalQualifierOrder], then at most one other key. *)
Definition keysCanonical (keys : list string) : bool :=
  let canon :=
    List.filter (fun c => existsb (String.eqb c) keys) swhid.canonicalQualifierOrder in
  let others := List.filter (fun k => negb (swhid.isCanonical k)) keys in
  bool_decide (keys = canon ++ others) && (length others <=? 1)%nat.

(** Every part after the core is a segment [key=value] whose value is
    [escapedOnly], and the keys are [keysCanonical]. *)
Definition canonicalForm (s : string) : bool :=
  forallb (fun part => match segment part with
                       | Some (_, value) => escapedOnly value
                       | None => false
                       end) (qualifierParts s)
  && keysCanonical (omap (fun part => fst <$> segment part) (qualifierParts s)).

(** What [encodeQualifierValue] writes for one character. *)
Definition escapeOf (c : ascii) : string :=
  if Ascii.eqb c "%"%char then "%25"
  else if Ascii.eqb c ";"%char then "%3B"
  else String c "".

(** The identifier [Parse] builds once the four validations have passed. *)
Definition parsed (s ty h : string) : swhid.Identifier :=
  {| swhid.IdScheme := swhid.Scheme;
     swhid.Version := swhid.SchemeVersion;
     swhid.IdObjectType := ty;
     swhid.ObjectHash := h;
     swhid.Qualifiers := fold_left swhid.parseQualifier (qualifierParts s) ∅ |}.

(** The outcome of [Parse] on [s], check by check in the order of the code. *)
Inductive ParseOutcome (s : string) : result swhid.Identifier swhid.error -> Prop :=
| OutcomeEmpty :
    s = "" ->
    ParseOutcome s (Err (swhid.Plain swhid.ErrEmptySWHID))
| OutcomeFormat :
    s <> "" -> length (coreFields s) <> 4 ->
    ParseOutcome s (Err (swhid.Plain swhid.ErrInvalidFormat))
| OutcomeScheme (scheme version ty h : string) :
    s <> "" -> coreFields s = [scheme; version; ty; h] ->
    scheme <> "swh" ->
    ParseOutcome s (Err (swhid.Wrap swhid.ErrInvalidScheme scheme))
| OutcomeVersion (version ty h : string) :
    s <> "" -> coreFields s = ["swh"; version; ty; h] ->
    version <> "1" ->
    ParseOutcome s (Err (swhid.Wrap swhid.ErrInvalidVersion version))
| OutcomeObjectType (ty h : string) :
    s <> "" -> coreFields s = ["swh"; "1"; ty; h] ->
    swhid.isValidObjectType ty = false ->
    ParseOutcome s (Err (swhid.Wrap swhid.ErrInvalidObjectType ty))
| OutcomeObjectHash (ty h : string) :
    s <> "" -> coreFields s = ["swh"; "1"; ty; h] ->
    swhid.isValidObjectType ty = true ->
    swhid.hashRegex_MatchString h = false ->
    ParseOutcome s (Err (swhid.Wrap swhid.ErrInvalidObjectHash "must be 40 hex digits"))
| OutcomeOk (ty h : string) :
    s <> "" -> coreFields s = ["swh"; "1"; ty; h] ->
    swhid.isValidObjectType ty = true ->
    swhid.hashRegex_MatchString h = true ->
    ParseOutcome s (Ok (parsed s ty h)).

(** *** Concrete inputs *)

Definition emptyBlobHash : string := "e69de29bb2d1d6434b8b29ae775ad8c2e48c5391".
Definition helloBlobHash : string := "ce013625030ba8dba906f756967f9e9ca394464a".
Definition emptyTreeHash : string := "4b825dc642cb6eb9a060e54bf8d69288fbee4904".

Definition fileEntry (name target : string) : directory.DirectoryEntry :=
  {| directory.Name := name; directory.Type_ := directory.EntryTypeFile;
     directory.Target := target; directory.Perms := "" |}.

Definition dirEntry (name target : string) : directory.DirectoryEntry :=
  {| directory.Name := name; directory.Type_ := directory.EntryTypeDirectory;
     directory.Target := target; directory.Perms := "" |}.

Definition revisionBranch (name target : string) : snapshot.Branch :=
  {| snapshot.Name := name; snapshot.TargetType := snapshot.BranchTargetRevision;
     snapshot.Target := target |}.

(** A release without tagger whose message and whose extra header both
    begin with the word [tagger]. *)
Definition untaggedRelease : release.ReleaseMetadata :=
  {| release.Name := "v0.1.0";
     release.Target := {| release.Hash := emptyTreeHash;
                          release.Type_ := release.TargetTypeRevision |};
     release.Author := "";
     release.AuthorTimestamp := 0;
     release.AuthorTimezone := "";
     release.Message := "tagger unknown";
     release.ExtraHeaders := [("tagger-id", "42")] |}.

(** The release of the repository's test without tagger, message removed. *)
Definition plainRelease : release.ReleaseMetadata :=
  {| release.Name := "v0.1.0";
     release.Target := {| release.Hash := emptyTreeHash;
                          release.Type_ := release.TargetTypeRevision |};
     release.Author := "";
     release.AuthorTimestamp := 0;
     release.AuthorTimezone := "";
     release.Message := "";
     release.ExtraHeaders := [("encoding", "utf-8")] |}.

Definition exampleHash : string := "94a9ed024d3859793618152ea559a168bbcbb5e2".

(** An identifier with four canonical qualifiers, two escapes and one other
    key. *)
Definition canonicalExample : string :=
  "swh:1:cnt:94a9ed024d3859793618152ea559a168bbcbb5e2;origin=https://example.com/a%3Bb%25;visit=swh:1:snp:c7c108084bc0bf3d81436bf980b46e98bd338453;path=/src/main.go;lines=9-15;custom=1".

(** The key [origin] twice. *)
Definition repeatedKeyExample : string :=
  "swh:1:cnt:94a9ed024d3859793618152ea559a168bbcbb5e2;origin=a;origin=b".

(** Two keys outside the canonical list. *)
Definition otherKeysExample : string :=
  "swh:1:cnt:94a9ed024d3859793618152ea559a168bbcbb5e2;foo=1;bar=2".

(** [helloBlobHash] without its last digit: 39 characters. *)
Definition shortTarget : string := "ce013625030ba8dba906f756967f9e9ca394464".

(** [helloBlobHash] with its letters in upper case. *)
Definition upperTarget : string := "CE013625030BA8DBA906F756967F9E9CA394464A".

(** *** Vocabulary of the further properties *)

(** The identifier without qualifiers for an object type and a digest. *)
Definition coreIdentifier (ty h : string) : swhid.Identifier :=
  {| swhid.IdScheme := swhid.Scheme;
     swhid.Version := swhid.SchemeVersion;
     swhid.IdObjectType := ty;
     swhid.ObjectHash := h;
     swhid.Qualifiers := ∅ |}.

(** The header of the framing: [fmt.Sprintf("<kind> %d\x00", n)]. *)
Definition objectHeader (kind : string) (n : nat) : string :=
  kind +:+ " " +:+ itoa (Z.of_nat n) +:+ String zero "".

(** The branch target types whose target is a digest in hexadecimal. *)
Definition digestTargetTypes : list string :=
  ["content"; "directory"; "revision"; "release"; "snapshot"].

(** [c] does not occur in [s]. *)
Definition without (c : ascii) (s : string) : Prop := strings.Index s c = None.

(** The qualifiers in the order [formatQualifiers] writes them: the canonical
    keys that are bound, in canonical order, then the other keys in the order
    of the visit. *)
Definition writtenQualifiers (visit : list (string * string))
    (quals : gmap string string) : list (string * string) :=
  flat_map (fun key => match quals !! key with
                       | Some value => [(key, value)]
                       | None => []
                       end) swhid.canonicalQualifierOrder
  ++ List.filter (fun kv => negb (swhid.isCanonical (fst kv))) visit.

(** Two identifiers that [Equal] tells apart in one direction only. *)
Definition emptyValues : swhid.Identifier :=
  {| swhid.IdScheme := swhid.Scheme;
     swhid.Version := swhid.SchemeVersion;
     swhid.IdObjectType := "cnt";
     swhid.ObjectHash := exampleHash;
     swhid.Qualifiers := {[ "a" := ""; "b" := "" ]} |}.
Definition otherValues : swhid.Identifier :=
  {| swhid.IdScheme := swhid.Scheme;
     swhid.Version := swhid.SchemeVersion;
     swhid.IdObjectType := "cnt";
     swhid.ObjectHash := exampleHash;
     swhid.Qualifiers := {[ "a" := ""; "c" := "x" ]} |}.

(** An identifier with one qualifier, whose value has a semicolon and a
    percent sign. *)
Definition escapedOrigin : gmap string string := {[ "origin" := "https://example.com/a;b%" ]}.
Definition escapedExample : swhid.Identifier :=
  {| swhid.IdScheme := swhid.Scheme;
     swhid.Version := swhid.SchemeVersion;
     swhid.IdObjectType := "cnt";
     swhid.ObjectHash := exampleHash;
     swhid.Qualifiers := escapedOrigin |}.

(** Two qualifiers, one of them outside the canonical list. *)
Definition twoQualifiers : gmap string string :=
  <[ "custom" := "1" ]> escapedOrigin.
Definition twoQualifiersExample : swhid.Identifier :=
  {| swhid.IdScheme := swhid.Scheme;
     swhid.Version := swhid.SchemeVersion;
     swhid.IdObjectType := "cnt";
     swhid.ObjectHash := exampleHash;
     swhid.Qualifiers := twoQualifiers |}.

(** A number below one hundred in two decimal digits. *)
Definition twoDigits (n : Z) : string :=
  String (ascii_of_nat (48 + Z.to_nat (n / 10)))
    (String (ascii_of_nat (48 + Z.to_nat (n mod 10))) "").

(** The entries are in strictly increasing order of their sort keys. *)
Definition strictlySorted {A : Type} (less : A -> A -> bool) (l : list A) : Prop :=
  StronglySorted (fun a b => less a b = true) l.

(** A text of one line: neither a newline nor a carriage return. *)
Definition plain (s : string) : Prop := without LF s /\ without CR s.

(** Extra headers that can be told apart in the text of an object: every key
    is a non-empty word on one line which is not a standard header, and no
    value has a carriage return. *)
Definition readable (standardHeaders : list string) (headers : list (string * string))
  : Prop :=
  forall key value, In (key, value) headers ->
    key <> "" /\ without " " key /\ plain key /\ ~ In key standardHeaders
    /\ without CR value.

(** A line of a standard header: a standard key, a space and the rest. *)
Definition standardLine (standardHeaders : list string) (line : string) : Prop :=
  exists key rest, line = key +:+ String " "%char rest
                   /\ key <> "" /\ without " " key
                   /\ In key standardHeaders.

(** Every line of the text is one the scanner can hold. *)
Definition linesFit (text : string) : Prop :=
  Forall (fun raw => bufio.fits raw = true) (textLines text).

(** The conditions under which the headers of a revision are single lines
    that the scanner can hold, and its extra headers are [readable]. *)
Definition revisionReadable (meta : revision.RevisionMetadata) : Prop :=
  plain (revision.Directory meta)
  /\ (forall parent, In parent (revision.Parents meta) -> plain parent)
  /\ plain (revision.Author meta) /\ plain (revision.AuthorTimezone meta)
  /\ plain (revision.Committer meta) /\ plain (revision.CommitterTimezone meta)
  /\ readable swhid.commitStandardHeaders (revision.ExtraHeaders meta)
  /\ linesFit (strings.Join (revision.headerLines meta) (String LF "")).

(** The same for a release. *)
Definition releaseReadable (meta : release.ReleaseMetadata) : Prop :=
  plain (release.Hash (release.Target meta))
  /\ plain (release.Name meta)
  /\ plain (release.Author meta) /\ plain (release.AuthorTimezone meta)
  /\ readable swhid.tagStandardHeaders (release.ExtraHeaders meta)
  /\ linesFit (strings.Join (release.headerLines meta) (String LF "")).

(** A signed commit: the signature is an extra header of several lines, one
    of them empty. *)
Definition signedRevision : revision.RevisionMetadata :=
  {| revision.Directory := emptyTreeHash;
     revision.Parents := [exampleHash];
     revision.Author := "A U Thor <author@example.com>";
     revision.AuthorTimestamp := 1700000000;
     revision.AuthorTimezone := "+0100";
     revision.Committer := "C O Mitter <committer@example.com>";
     revision.CommitterTimestamp := 1700000001;
     revision.CommitterTimezone := "";
     revision.Message := "Subject" +:+ String LF (String LF "encoding is not a header here");
     revision.ExtraHeaders :=
       [("encoding", "ISO-8859-1");
        ("gpgsig", "-----BEGIN PGP SIGNATURE-----" +:+ String LF (String LF
                   ("iQEzBAAB" +:+ String LF "-----END PGP SIGNATURE-----")))] |}.

(** A release with a tagger and an extra header of two lines. *)
Definition signedRelease : release.ReleaseMetadata :=
  {| release.Name := "v1.0.0";
     release.Target := {| release.Hash := exampleHash;
                          release.Type_ := release.TargetTypeRevision |};
     release.Author := "A U Thor <author@example.com>";
     release.AuthorTimestamp := 1700000000;
     release.AuthorTimezone := "";
     release.Message := "Release";
     release.ExtraHeaders := [("note", "first" +:+ String LF "second")] |}.

(** An identifier string with an empty part and a part without an equals
    sign. *)
Definition untidyExample : string :=
  "swh:1:cnt:94a9ed024d3859793618152ea559a168bbcbb5e2;;x;origin=a".

(* ===================================================================== *)
(** * Properties *)
(* ===================================================================== *)

#[local] Arguments String.append !_ _ / : simpl nomatch.

(** ** Byte-wise order of strings *)

Lemma compare_as_OT (a b : string) : String.compare a b = String_as_OT.compare a b.
Proof.
  revert b. induction a as [|c a IH]; intros [|d b]; simpl; reflexivity.
Qed.

Lemma ltb_lt (a b : string) : String.ltb a b = true <-> String_as_OT.lt a b.
Proof.
  unfold String.ltb, String_as_OT.lt. rewrite compare_as_OT.
  destruct (String_as_OT.compare a b); split; congruence.
Qed.

Lemma ltb_irrefl (a : string) : String.ltb a a = false.
Proof.
  destruct (String.ltb a a) eqn:E; [|reflexivity].
  apply ltb_lt in E. exfalso. exact (StrictOrder_Irreflexive a E).
Qed.

Lemma ltb_trans (a b c : string) :
  String.ltb a b = true -> String.ltb b c = true -> String.ltb a c = true.
Proof.
  rewrite !ltb_lt. apply (@StrictOrder_Transitive _ _ String_as_OT.lt_strorder).
Qed.

Lemma ltb_asym (a b : string) : String.ltb a b = true -> String.ltb b a = false.
Proof.
  intros H. destruct (String.ltb b a) eqn:E; [|reflexivity].
  pose proof (ltb_trans _ _ _ H E) as F. rewrite ltb_irrefl in F. discriminate.
Qed.

Lemma ltb_connex (a b : string) :
  String.ltb a b = false -> String.ltb b a = false -> a = b.
Proof.
  unfold String.ltb. rewrite (String.compare_antisym b a).
  destruct (String.compare a b) eqn:E; simpl; try discriminate.
  intros _ _. now apply String.compare_eq_iff.
Qed.

Lemma nltb_trans (a b c : string) :
  String.ltb b a = false -> String.ltb c b = false -> String.ltb c a = false.
Proof.
  intros Hab Hbc. destruct (String.ltb c a) eqn:E; [|reflexivity].
  destruct (String.ltb a b) eqn:F.
  - rewrite (ltb_trans _ _ _ E F) in Hbc. discriminate.
  - pose proof (ltb_connex _ _ F Hab). subst b. congruence.
Qed.

(** ** Insertion sort returns a permutation of its input, in order *)

Section InsertionFacts.

Context {A : Type} (less : A -> A -> bool) (key : A -> string).
Hypothesis less_key : forall a b, less a b = String.ltb (key a) (key b).

Lemma insertLeft_Permutation (x : A) (prefix : list A) :
  sort.insertLeft less x prefix ≡ₚ x :: prefix.
Proof.
  induction prefix as [|y rest IH]; simpl; [reflexivity|].
  destruct (less x y); [|reflexivity].
  rewrite IH. apply perm_swap.
Qed.

Lemma fold_insertLeft_Permutation (data prefix : list A) :
  fold_left (fun prefix x => sort.insertLeft less x prefix) data prefix
  ≡ₚ data ++ prefix.
Proof.
  revert prefix. induction data as [|x data IH]; intros prefix; simpl; [reflexivity|].
  rewrite IH, insertLeft_Permutation. symmetry. apply Permutation_middle.
Qed.

Lemma insertionSort_Permutation (data : list A) : sort.insertionSort less data ≡ₚ data.
Proof.
  unfold sort.insertionSort. rewrite <- Permutation_rev.
  rewrite fold_insertLeft_Permutation. now rewrite app_nil_r.
Qed.

Lemma insertLeft_sorted (x : A) (prefix : list A) :
  StronglySorted (flip (sort.notAfter less)) prefix ->
  StronglySorted (flip (sort.notAfter less)) (sort.insertLeft less x prefix).
Proof.
  unfold flip, sort.notAfter.
  induction 1 as [|y rest Hrest IH Hy]; simpl.
  - repeat constructor.
  - destruct (less x y) eqn:E.
    + constructor; [exact IH|].
      apply Forall_forall. intros z Hz.
      rewrite insertLeft_Permutation in Hz.
      apply elem_of_cons in Hz as [->|Hz].
      * rewrite less_key in *. now apply ltb_asym.
      * rewrite Forall_forall in Hy. now apply Hy.
    + constructor; [now constructor|].
      constructor; [exact E|].
      rewrite Forall_forall in *. intros z Hz. specialize (Hy z Hz).
      rewrite less_key in *. eapply nltb_trans; eassumption.
Qed.

Lemma fold_insertLeft_sorted (data prefix : list A) :
  StronglySorted (flip (sort.notAfter less)) prefix ->
  StronglySorted (flip (sort.notAfter less))
    (fold_left (fun prefix x => sort.insertLeft less x prefix) data prefix).
Proof.
  revert prefix. induction data as [|x data IH]; intros prefix H; simpl; [exact H|].
  apply IH. now apply insertLeft_sorted.
Qed.

Lemma StronglySorted_rev (R : A -> A -> Prop) (l : list A) :
  StronglySorted (flip R) l -> StronglySorted R (rev l).
Proof.
  induction 1 as [|x l Hl IH Hx]; simpl; [constructor|].
  apply StronglySorted_app_2; [|exact IH|repeat constructor].
  intros a b Ha Hb. apply list_elem_of_singleton in Hb as ->.
  rewrite Forall_forall in Hx. apply Hx.
  apply list_elem_of_In. apply list_elem_of_In in Ha. now apply in_rev.
Qed.

Lemma insertionSort_sorted (data : list A) :
  StronglySorted (sort.notAfter less) (sort.insertionSort less data).
Proof.
  unfold sort.insertionSort. apply StronglySorted_rev.
  apply fold_insertLeft_sorted. constructor.
Qed.

End InsertionFacts.

Lemma insertionOnly_contract : sort.contract sort.insertionOnly.
Proof.
  intros A less key less_key data. split.
  - apply insertionSort_Permutation.
  - now apply (insertionSort_sorted less key).
Qed.

(** ** [sort.Slice] returns a permutation of its input, in order *)

Section SliceFacts.

Context {S : sort.LongSlices} (HS : sort.contract S).
Context {A : Type} (less : A -> A -> bool) (key : A -> string).
Hypothesis less_key : forall a b, less a b = String.ltb (key a) (key b).

Lemma Slice_Permutation (data : list A) : sort.Slice less data ≡ₚ data.
Proof.
  unfold sort.Slice. destruct (length data <=? sort.maxInsertion)%nat.
  - apply insertionSort_Permutation.
  - now apply (HS A less key less_key).
Qed.

Lemma Slice_sorted (data : list A) :
  StronglySorted (sort.notAfter less) (sort.Slice less data).
Proof.
  unfold sort.Slice. destruct (length data <=? sort.maxInsertion)%nat.
  - now apply (insertionSort_sorted less key).
  - now apply (HS A less key less_key).
Qed.

(** Two arrangements of the same elements are sorted into lists with the same
    image under [enc], as soon as elements with equal keys have equal images. *)
Lemma Slice_image_unique {B : Type} (enc : A -> B) (l1 l2 : list A) :
  l1 ≡ₚ l2 ->
  (forall a b, In a l1 -> In b l1 -> key a = key b -> enc a = enc b) ->
  map enc (sort.Slice less l1) = map enc (sort.Slice less l2).
Proof.
  intros Hperm Hsame.
  set (g := fun a => (key a, enc a)).
  set (R := fun p q : string * B => String.ltb (fst q) (fst p) = false).
  assert (Hsorted : forall l, StronglySorted R (map g (sort.Slice less l))).
  { intros l. apply (StronglySorted_fmap g (sort.notAfter less) R); [|apply Slice_sorted].
    intros a b Hab. unfold R, sort.notAfter in *. simpl. now rewrite <- less_key. }
  assert (E : map g (sort.Slice less l1) = map g (sort.Slice less l2)).
  { apply (StronglySorted_unique_strong R); [|apply Hsorted|apply Hsorted|].
    - intros p q Hp Hq Hpq Hqp.
      apply list_elem_of_fmap in Hp as [a [-> Ha]].
      apply list_elem_of_fmap in Hq as [b [-> Hb]].
      unfold R, g in *; simpl in *.
      pose proof (ltb_connex _ _ Hqp Hpq) as Hk.
      f_equal; [exact Hk|]. apply Hsame; [| |exact Hk].
      + apply list_elem_of_In in Ha. now rewrite Slice_Permutation in Ha.
      + apply list_elem_of_In in Hb. rewrite Slice_Permutation in Hb.
        now rewrite <- Hperm in Hb.
    - apply Permutation_map. now rewrite !Slice_Permutation. }
  apply (f_equal (map snd)) in E. rewrite !map_map in E. exact E.
Qed.

End SliceFacts.

Lemma fold_left_append {A B : Type} (f : A -> list B) (l : list A) (acc : list B) :
  fold_left (fun result x => result ++ f x) l acc = acc ++ concat (map f l).
Proof.
  revert acc. induction l as [|x l IH]; intros acc; simpl.
  - now rewrite app_nil_r.
  - now rewrite IH, app_assoc.
Qed.

(** ** The framing always yields forty hexadecimal characters *)

Lemma EncodeToString_length (src : list byte) :
  String.length (hex.EncodeToString src) = 2 * length src.
Proof. induction src as [|b src IH]; simpl; [reflexivity|]. rewrite IH. lia. Qed.

Lemma Sum_length (msg : list byte) : length (SHA1.Sum msg) = 20.
Proof.
  unfold SHA1.Sum.
  destruct (SHA1.blocks _ _ _) as [[[[h0 h1] h2] h3] h4].
  reflexivity.
Qed.

Lemma hashObject_length (kind : string) (body : list byte) :
  String.length (hashObject kind body) = 40.
Proof. unfold hashObject. now rewrite EncodeToString_length, Sum_length. Qed.

(** [hex.DecodeString] keeps only what it decoded before an error. *)
Lemma DecodeString_truncates (s : string) :
  snd (hex.DecodeString s) <> None ->
  2 * length (fst (hex.DecodeString s)) < String.length s.
Proof.
  assert (H : forall n s, String.length s < n ->
                snd (hex.DecodeString s) <> None ->
                2 * length (fst (hex.DecodeString s)) < String.length s).
  { clear s. induction n as [|n IH]; intros s Hn; [lia|].
    destruct s as [|p [|q rest]]; simpl in *; [congruence| |].
    - destruct (hex.fromHexChar p); simpl; lia.
    - destruct (hex.fromHexChar p); [|simpl; lia].
      destruct (hex.fromHexChar q); [|simpl; lia].
      specialize (IH rest ltac:(lia)).
      destruct (hex.DecodeString rest) as [bs err]. simpl in *.
      intros Herr. specialize (IH Herr). lia. }
  apply (H (S (String.length s))). lia.
Qed.

Lemma byte_digits (b : byte) :
  swhid.lowerHexDigit (hex.digit (Z.shiftr (Z_of_byte b) 4)) = true
  /\ swhid.lowerHexDigit (hex.digit (Z.land (Z_of_byte b) 15)) = true
  /\ hex.fromHexChar (hex.digit (Z.shiftr (Z_of_byte b) 4)) = Some (Z.shiftr (Z_of_byte b) 4)
  /\ hex.fromHexChar (hex.digit (Z.land (Z_of_byte b) 15)) = Some (Z.land (Z_of_byte b) 15)
  /\ byte_of_Z (Z.lor (Z.shiftl (Z.shiftr (Z_of_byte b) 4) 4) (Z.land (Z_of_byte b) 15)) = b.
Proof. destruct b; vm_compute; repeat split. Qed.

Lemma EncodeToString_lowerHex (src : list byte) :
  forallb swhid.lowerHexDigit (list_ascii_of_string (hex.EncodeToString src)) = true.
Proof.
  induction src as [|b src IH]; [reflexivity|].
  destruct (byte_digits b) as (H1 & H2 & _).
  simpl. now rewrite H1, H2, IH.
Qed.

(** Without an error [hex.DecodeString] has decoded every pair of characters. *)
Lemma DecodeString_complete (s : string) :
  snd (hex.DecodeString s) = None ->
  2 * length (fst (hex.DecodeString s)) = String.length s.
Proof.
  assert (H : forall n s, String.length s < n ->
                snd (hex.DecodeString s) = None ->
                2 * length (fst (hex.DecodeString s)) = String.length s).
  { clear s. induction n as [|n IH]; intros s Hn; [lia|].
    destruct s as [|p [|q rest]]; simpl in *; [reflexivity| |].
    - destruct (hex.fromHexChar p); discriminate.
    - destruct (hex.fromHexChar p); [|discriminate].
      destruct (hex.fromHexChar q); [|discriminate].
      specialize (IH rest ltac:(lia)).
      destruct (hex.DecodeString rest) as [bs err]. simpl in *.
      intros Herr. specialize (IH Herr). lia. }
  apply (H (S (String.length s))). lia.
Qed.

(** Twenty bytes render to a valid object hash. *)
Lemma EncodeToString_matches (src : list byte) :
  length src = 20 -> swhid.hashRegex_MatchString (hex.EncodeToString src) = true.
Proof.
  intros Hlen. unfold swhid.hashRegex_MatchString.
  now rewrite EncodeToString_length, Hlen, EncodeToString_lowerHex.
Qed.

(** ** Fixed digests *)

(** C5: on empty inputs the encoders return the well-known digests: the empty
    content, the empty directory and the empty snapshot. *)
Theorem C5_empty_digests (S : sort.LongSlices) :
  ComputeContentHash [] = "e69de29bb2d1d6434b8b29ae775ad8c2e48c5391"
  /\ directory.ComputeDirectoryHash [] = "4b825dc642cb6eb9a060e54bf8d69288fbee4904"
  /\ snapshot.ComputeSnapshotHash [] = "1a8893e6a86f444e8be8e7bda6cb34fb1735a00e".
Proof. repeat split; vm_compute; reflexivity. Qed.

(** C4: the directory whose single entry is the file [hello.txt] targeting
    the content digest of the bytes "hello\n" has digest
    aaa96ced2d9a1c8e72c56b253a0e2fe78393feb7; that target is the content digest
    of those six bytes. *)
Theorem C4_hello_directory (S : sort.LongSlices) :
  ComputeContentHash (bytes_of ("hello" +:+ String LF "")) = helloBlobHash
  /\ directory.ComputeDirectoryHash
       [ {| directory.Name := "hello.txt";
            directory.Type_ := directory.EntryTypeFile;
            directory.Target := "ce013625030ba8dba906f756967f9e9ca394464a";
            directory.Perms := "" |} ]
     = "aaa96ced2d9a1c8e72c56b253a0e2fe78393feb7".
Proof. split; vm_compute; reflexivity. Qed.

Example content_hello_world :
  ComputeContentHash (bytes_of "Hello, World!") = "b45ef6fec89518d314f546fd6c3025367b721684".
Proof. vm_compute. reflexivity. Qed.

Example content_newline :
  ComputeContentHash (bytes_of (String LF "")) = "8b137891791fe96927ad78e64b0aad7bded08bdc".
Proof. vm_compute. reflexivity. Qed.

(** ** Revisions: the default timezone *)

Lemma serializeRevision_default_timezone (m : revision.RevisionMetadata) :
  revision.serializeRevision (setTimezones m "" "")
  = revision.serializeRevision (setTimezones m "+0000" "+0000").
Proof. reflexivity. Qed.

(** C7: a revision whose two timezones are left empty has the same digest as
    the same revision with both timezones set to "+0000": the default is put in
    place while the header lines are built. *)
Theorem C7_default_timezone (m : revision.RevisionMetadata) :
  revision.ComputeRevisionHash (setTimezones m "" "")
  = revision.ComputeRevisionHash (setTimezones m "+0000" "+0000").
Proof.
  unfold revision.ComputeRevisionHash.
  now rewrite serializeRevision_default_timezone.
Qed.

(** ** Directories and snapshots: the order of the input *)

Lemma serializeEntries_concat (S : sort.LongSlices)
    (entries : list directory.DirectoryEntry) :
  directory.serializeEntries entries
  = concat (map directory.entryBytes (sort.Slice directory.less entries)).
Proof. unfold directory.serializeEntries. now rewrite fold_left_append. Qed.

Lemma serializeBranches_concat (S : sort.LongSlices)
    (branches : list snapshot.Branch) :
  snapshot.serializeBranches branches
  = concat (map snapshot.serializeBranch (sort.Slice snapshot.less branches)).
Proof. unfold snapshot.serializeBranches. now rewrite fold_left_append. Qed.

(** C2, as the code has it: a rearrangement of the entries (of the branches)
    leaves the digest unchanged provided entries with the same sort key
    (branches with the same name) are serialized to the same bytes, as when
    the keys are pairwise distinct. For slices of more than twelve elements
    this rests on the documented outcome of the library's sort. *)
Theorem C2_order_invariant (S : sort.LongSlices) :
  sort.contract S ->
  (forall entries entries' : list directory.DirectoryEntry,
      entries ≡ₚ entries' ->
      keyDeterminesBytes directory.SortKey directory.entryBytes entries ->
      directory.ComputeDirectoryHash entries = directory.ComputeDirectoryHash entries')
  /\ (forall branches branches' : list snapshot.Branch,
      branches ≡ₚ branches' ->
      keyDeterminesBytes snapshot.Name snapshot.serializeBranch branches ->
      snapshot.ComputeSnapshotHash branches = snapshot.ComputeSnapshotHash branches').
Proof.
  intros HS. split.
  - intros entries entries' Hperm Hkey.
    unfold directory.ComputeDirectoryHash. rewrite !serializeEntries_concat.
    now rewrite (Slice_image_unique HS directory.less directory.SortKey
                   (fun a b => eq_refl) directory.entryBytes _ _ Hperm Hkey).
  - intros branches branches' Hperm Hkey.
    unfold snapshot.ComputeSnapshotHash. rewrite !serializeBranches_concat.
    now rewrite (Slice_image_unique HS snapshot.less snapshot.Name
                   (fun a b => eq_refl) snapshot.serializeBranch _ _ Hperm Hkey).
Qed.

(** The entries of the repository's sorting test, in its two orders, and two
    branches in both orders. *)
Lemma C2_order_invariant_witness :
  directory.ComputeDirectoryHash (S := sort.insertionOnly)
    [fileEntry "z" emptyBlobHash; fileEntry "a" emptyBlobHash; dirEntry "m" emptyTreeHash]
  = directory.ComputeDirectoryHash (S := sort.insertionOnly)
    [dirEntry "m" emptyTreeHash; fileEntry "a" emptyBlobHash; fileEntry "z" emptyBlobHash]
  /\ snapshot.ComputeSnapshotHash (S := sort.insertionOnly)
       [revisionBranch "refs/heads/main" emptyTreeHash;
        revisionBranch "refs/heads/dev" emptyTreeHash]
     = snapshot.ComputeSnapshotHash (S := sort.insertionOnly)
       [revisionBranch "refs/heads/dev" emptyTreeHash;
        revisionBranch "refs/heads/main" emptyTreeHash].
Proof.
  split.
  - apply (proj1 (C2_order_invariant sort.insertionOnly insertionOnly_contract)).
    + etransitivity; [apply perm_swap|]. etransitivity; [apply perm_skip, perm_swap|].
      apply perm_swap.
    + intros a b [<-|[<-|[<-|[]]]] [<-|[<-|[<-|[]]]] Hk;
        first [reflexivity | discriminate Hk].
  - apply (proj2 (C2_order_invariant sort.insertionOnly insertionOnly_contract)).
    + apply perm_swap.
    + intros a b [<-|[<-|[]]] [<-|[<-|[]]] Hk;
        first [reflexivity | discriminate Hk].
Defined.

(** C2, as stated, fails: two entries with the same name and different
    targets (two branches with the same name) stay in their input order, so
    the two arrangements have different digests. The slices have two
    elements: the sorter for long slices plays no part. *)
Lemma C2_counterexample :
  ([fileEntry "a" emptyBlobHash; fileEntry "a" helloBlobHash]
     ≡ₚ [fileEntry "a" helloBlobHash; fileEntry "a" emptyBlobHash]
   /\ directory.ComputeDirectoryHash (S := sort.insertionOnly)
        [fileEntry "a" emptyBlobHash; fileEntry "a" helloBlobHash]
      <> directory.ComputeDirectoryHash (S := sort.insertionOnly)
        [fileEntry "a" helloBlobHash; fileEntry "a" emptyBlobHash])
  /\ ([revisionBranch "refs/heads/main" emptyBlobHash;
       revisionBranch "refs/heads/main" helloBlobHash]
        ≡ₚ [revisionBranch "refs/heads/main" helloBlobHash;
            revisionBranch "refs/heads/main" emptyBlobHash]
      /\ snapshot.ComputeSnapshotHash (S := sort.insertionOnly)
           [revisionBranch "refs/heads/main" emptyBlobHash;
            revisionBranch "refs/heads/main" helloBlobHash]
         <> snapshot.ComputeSnapshotHash (S := sort.insertionOnly)
           [revisionBranch "refs/heads/main" helloBlobHash;
            revisionBranch "refs/heads/main" emptyBlobHash]).
Proof.
  repeat split; first [apply perm_swap | vm_compute; discriminate].
Qed.

Example directory_same_name_digests (S : sort.LongSlices) :
  directory.ComputeDirectoryHash
    [fileEntry "a" emptyBlobHash; fileEntry "a" helloBlobHash]
  = "532388e0f0b9459520c6e7f95810532c9e8fe14f"
  /\ directory.ComputeDirectoryHash
       [fileEntry "a" helloBlobHash; fileEntry "a" emptyBlobHash]
     = "83ddb7a01eee1f54dbf3239c1eff6555ee97870b".
Proof. split; vm_compute; reflexivity. Qed.

(** ** Directories: a target that is not a valid object hash *)

(** C9, as the code has it: the directory encoding has no failure and no
    error for a target. For every entry list it returns a forty-character
    digest of the concatenated entry encodings. An entry whose target is not a
    valid object hash contributes, after its permissions, a space, its name
    and a NUL, the bytes [hex.DecodeString] returns for the target, whose
    error is dropped: when decoding reports an error, only the bytes decoded
    before it, fewer than one per pair of characters; when it reports none,
    one byte per pair of characters. In neither case are these twenty bytes
    that render back to the target. *)
Theorem C9_directory_never_fails (S : sort.LongSlices)
    (entries : list directory.DirectoryEntry) :
  String.length (directory.ComputeDirectoryHash entries) = 40
  /\ directory.serializeEntries entries
     = concat (map directory.entryBytes (sort.Slice directory.less entries))
  /\ (forall e, In e entries ->
        swhid.hashRegex_MatchString (directory.Target e) = false ->
        directory.entryBytes e
        = bytes_of (directory.Permissions e) ++ [x20] ++ bytes_of (directory.Name e)
          ++ [x00] ++ fst (hex.DecodeString (directory.Target e))
        /\ (snd (hex.DecodeString (directory.Target e)) <> None ->
            2 * length (fst (hex.DecodeString (directory.Target e)))
            < String.length (directory.Target e))
        /\ (snd (hex.DecodeString (directory.Target e)) = None ->
            2 * length (fst (hex.DecodeString (directory.Target e)))
            = String.length (directory.Target e))
        /\ ~ (length (fst (hex.DecodeString (directory.Target e))) = 20
              /\ hex.EncodeToString (fst (hex.DecodeString (directory.Target e)))
                 = directory.Target e)).
Proof.
  split; [apply hashObject_length|].
  split; [apply serializeEntries_concat|].
  intros e _ Hinvalid. split; [reflexivity|].
  split; [apply DecodeString_truncates|].
  split; [apply DecodeString_complete|].
  intros [Hlen Henc]. apply EncodeToString_matches in Hlen.
  rewrite Henc in Hlen. congruence.
Qed.

Lemma C9_directory_never_fails_witness :
  directory.entryBytes (fileEntry "hello.txt" upperTarget)
  = bytes_of (directory.Permissions (fileEntry "hello.txt" upperTarget)) ++ [x20]
    ++ bytes_of (directory.Name (fileEntry "hello.txt" upperTarget))
    ++ [x00] ++ fst (hex.DecodeString (directory.Target (fileEntry "hello.txt" upperTarget)))
  /\ (snd (hex.DecodeString (directory.Target (fileEntry "hello.txt" upperTarget))) <> None ->
      2 * length (fst (hex.DecodeString (directory.Target (fileEntry "hello.txt" upperTarget))))
      < String.length (directory.Target (fileEntry "hello.txt" upperTarget)))
  /\ (snd (hex.DecodeString (directory.Target (fileEntry "hello.txt" upperTarget))) = None ->
      2 * length (fst (hex.DecodeString (directory.Target (fileEntry "hello.txt" upperTarget))))
      = String.length (directory.Target (fileEntry "hello.txt" upperTarget)))
  /\ ~ (length (fst (hex.DecodeString (directory.Target (fileEntry "hello.txt" upperTarget))))
        = 20
        /\ hex.EncodeToString
             (fst (hex.DecodeString (directory.Target (fileEntry "hello.txt" upperTarget))))
           = directory.Target (fileEntry "hello.txt" upperTarget)).
Proof.
  apply (proj2 (proj2 (C9_directory_never_fails sort.insertionOnly
                         [fileEntry "hello.txt" upperTarget]))).
  - simpl. left. reflexivity.
  - vm_compute. reflexivity.
Defined.

(** C9, as stated, fails: an entry whose target has 39 hexadecimal characters
    makes [hex.DecodeString] report an error, which is dropped; the entry is
    serialized with 19 target bytes and a digest is returned. *)
Lemma C9_counterexample :
  String.length shortTarget = 39
  /\ snd (hex.DecodeString shortTarget) = Some hex.ErrLength
  /\ length (directory.serializeEntries (S := sort.insertionOnly)
               [fileEntry "hello.txt" shortTarget]) = 17 + 19
  /\ directory.ComputeDirectoryHash (S := sort.insertionOnly)
       [fileEntry "hello.txt" shortTarget]
     = "7e158dba97a2cabeeafc9f553ab27a47881a8952".
Proof. repeat split; vm_compute; reflexivity. Qed.

Example directory_target_not_hex (S : sort.LongSlices) :
  string_of (directory.serializeEntries [fileEntry "hello.txt" "not a hash"])
  = "100644 hello.txt" +:+ String zero ""
  /\ directory.ComputeDirectoryHash [fileEntry "hello.txt" "not a hash"]
     = "1c869e28e4690e32314510ce8bf727102ccfd395".
Proof. split; vm_compute; reflexivity. Qed.

(** Targets that are not valid object hashes and still decode without error:
    four characters, none, forty with upper-case digits, forty-two. The entry
    gets 2, 0, 20 and 21 target bytes, and the upper-case target is rendered
    back in lower case. *)
Example directory_target_decodes :
  map (fun target => (swhid.hashRegex_MatchString target,
                      snd (hex.DecodeString target),
                      length (fst (hex.DecodeString target))))
      ["abcd"; ""; upperTarget; helloBlobHash +:+ "00"]
  = [(false, None, 2); (false, None, 0); (false, None, 20); (false, None, 21)]
  /\ hex.EncodeToString (fst (hex.DecodeString upperTarget)) = helloBlobHash.
Proof. split; vm_compute; reflexivity. Qed.

(** ** Qualifier values: escaping and unescaping *)

Lemma append_assoc (a b c : string) : (a +:+ b) +:+ c = a +:+ (b +:+ c).
Proof. induction a as [|x a IH]; simpl; [reflexivity|]. now rewrite IH. Qed.

Lemma append_nil_r (a : string) : a +:+ "" = a.
Proof. induction a as [|x a IH]; simpl; [reflexivity|]. now rewrite IH. Qed.

Lemma ReplaceAll_app (a b : string) (old : ascii) (new : string) :
  strings.ReplaceAll (a +:+ b) old new
  = strings.ReplaceAll a old new +:+ strings.ReplaceAll b old new.
Proof.
  induction a as [|x a IH]; simpl; [reflexivity|].
  now rewrite IH, append_assoc.
Qed.

Lemma encodeQualifierValue_cons (c : ascii) (v : string) :
  swhid.encodeQualifierValue (String c v) = escapeOf c +:+ swhid.encodeQualifierValue v.
Proof.
  unfold swhid.encodeQualifierValue, escapeOf. simpl.
  rewrite ReplaceAll_app.
  destruct (Ascii.eqb_spec c "%"%char) as [->|Hp]; [reflexivity|].
  simpl. destruct (Ascii.eqb c ";"%char); reflexivity.
Qed.

(** Unescaping undoes escaping on every value without a plus sign. *)
Lemma decode_encode_without_plus (v : string) :
  forallb (fun c => negb (Ascii.eqb c "+"%char)) (list_ascii_of_string v) = true ->
  swhid.decodeQualifierValue (swhid.encodeQualifierValue v) = v.
Proof.
  unfold swhid.decodeQualifierValue, url.QueryUnescape.
  assert (H : forallb (fun c => negb (Ascii.eqb c "+"%char)) (list_ascii_of_string v) = true ->
              url.check (swhid.encodeQualifierValue v) = None
              /\ url.build (swhid.encodeQualifierValue v) = v).
  { induction v as [|c v IH]; [split; reflexivity|].
    simpl. intros [Hc Hv]%andb_prop. destruct (IH Hv) as [IH1 IH2].
    rewrite encodeQualifierValue_cons. unfold escapeOf.
    destruct (Ascii.eqb_spec c "%"%char) as [->|Hp].
    { simpl. now rewrite IH1, IH2. }
    destruct (Ascii.eqb_spec c ";"%char) as [->|Hs].
    { simpl. now rewrite IH1, IH2. }
    simpl.
    destruct (Ascii.eqb_spec c "%"%char) as [|_]; [contradiction|].
    apply negb_true_iff in Hc. rewrite Hc, IH1, IH2. now split. }
  intros Hv. destruct (H Hv) as [-> ->]. reflexivity.
Qed.

(** C3 at the value "a+b": escaping leaves the plus sign as it is and
    [url.QueryUnescape] turns it into a space, so the value is not restored. *)
Theorem C3_plus_not_restored :
  swhid.encodeQualifierValue "a+b" = "a+b"
  /\ swhid.decodeQualifierValue (swhid.encodeQualifierValue "a+b") = "a b"
  /\ swhid.decodeQualifierValue (swhid.encodeQualifierValue "a+b") <> "a+b".
Proof. split; [|split]; vm_compute; [reflexivity | reflexivity | discriminate]. Qed.

(** ** [Parse]: the decision tree *)

Lemma isValidObjectType_codes (t : string) :
  swhid.isValidObjectType t = true <-> In t objectTypeCodes.
Proof.
  unfold swhid.isValidObjectType, swhid.validObjectTypes, objectTypeCodes.
  rewrite !lookup_insert, lookup_empty.
  unfold swhid.ObjectTypeContent, swhid.ObjectTypeDirectory, swhid.ObjectTypeRevision,
    swhid.ObjectTypeRelease, swhid.ObjectTypeSnapshot.
  simpl. repeat case_decide; subst; split; intros Hin; try reflexivity;
    try discriminate; intuition congruence.
Qed.

Lemma Parse_outcome (s : string) : ParseOutcome s (swhid.Parse s).
Proof.
  unfold swhid.Parse.
  destruct (String.eqb_spec s "") as [Hs|Hs]; [now constructor|].
  fold (corePart s). fold (qualifierParts s). fold (coreFields s).
  destruct (Nat.eqb_spec (length (coreFields s)) 4) as [Hlen|Hlen]; simpl;
    [|now constructor].
  destruct (coreFields s) as [|scheme [|version [|ty [|h [|extra rest]]]]] eqn:Hf;
    try discriminate Hlen.
  simpl.
  destruct (String.eqb_spec scheme swhid.Scheme) as [->|Hscheme]; simpl;
    [|now apply (OutcomeScheme s scheme version ty h)].
  destruct (String.eqb_spec version "1") as [->|Hversion]; simpl;
    [|now apply (OutcomeVersion s version ty h)].
  destruct (swhid.isValidObjectType ty) eqn:Hty; simpl;
    [|now apply (OutcomeObjectType s ty h)].
  destruct (swhid.hashRegex_MatchString h) eqn:Hh; simpl.
  - now apply (OutcomeOk s ty h).
  - now apply (OutcomeObjectHash s ty h).
Qed.

Lemma failsWith_Err (e : swhid.error) (k : swhid.sentinel) :
  failsWith (Err e) k <-> swhid.kind e = k.
Proof.
  unfold failsWith. split.
  - now intros [e' [[= <-] Hk]].
  - intros Hk. now exists e.
Qed.

Lemma failsWith_Ok (id : swhid.Identifier) (k : swhid.sentinel) :
  ~ failsWith (Ok id) k.
Proof. now intros [e [[=] _]]. Qed.

(** Settles the equivalences of one outcome of [Parse]. *)
Ltac outcome_kinds :=
  repeat split; intros;
  repeat match goal with
         | H : _ /\ _ |- _ => destruct H
         | H : exists _, _ |- _ => destruct H
         | H : failsWith (Err _) _ |- _ => apply failsWith_Err in H; simpl in H
         | H : failsWith (Ok _) _ |- _ => apply failsWith_Ok in H
         | H : coreFields ?s = _, H' : coreFields ?s = _ |- _ =>
             rewrite H in H'; injection H' as <- <- <- <-
         | H : coreFields ?s = _, H' : length (coreFields ?s) <> _ |- _ =>
             rewrite H in H'; simpl in H'
         | H : context [In _ objectTypeCodes] |- _ =>
             rewrite <- isValidObjectType_codes in H
         | |- context [In _ objectTypeCodes] => rewrite <- isValidObjectType_codes
         | |- failsWith (Err _) _ => apply failsWith_Err; simpl
         | |- exists _, Ok _ = Ok _ => eexists; reflexivity
         end;
  subst; try congruence; try discriminate; try contradiction; try lia.

(** C8: [Parse] fails with the empty-input error exactly on the empty string;
    on any other string it fails with the format error exactly when the text
    before the first semicolon does not split at colons into four fields;
    and when there are four fields it fails with the scheme, version, object
    type or hash error at the first of these checks that does not pass, in that
    order, each with its own sentinel, and succeeds exactly when all four pass. *)
Theorem C8_parse_failures (s : string) :
  (failsWith (swhid.Parse s) swhid.ErrEmptySWHID <-> s = "")
  /\ (failsWith (swhid.Parse s) swhid.ErrInvalidFormat
      <-> s <> "" /\ length (coreFields s) <> 4)
  /\ (forall scheme version ty h,
        s <> "" ->
        coreFields s = [scheme; version; ty; h] ->
        (failsWith (swhid.Parse s) swhid.ErrInvalidScheme <-> scheme <> "swh")
        /\ (failsWith (swhid.Parse s) swhid.ErrInvalidVersion
            <-> scheme = "swh" /\ version <> "1")
        /\ (failsWith (swhid.Parse s) swhid.ErrInvalidObjectType
            <-> scheme = "swh" /\ version = "1" /\ ~ In ty objectTypeCodes)
        /\ (failsWith (swhid.Parse s) swhid.ErrInvalidObjectHash
            <-> scheme = "swh" /\ version = "1" /\ In ty objectTypeCodes
                /\ swhid.hashRegex_MatchString h = false)
        /\ ((exists id, swhid.Parse s = Ok id)
            <-> scheme = "swh" /\ version = "1" /\ In ty objectTypeCodes
                /\ swhid.hashRegex_MatchString h = true)).
Proof.
  destruct (Parse_outcome s); outcome_kinds.
Qed.

Lemma C8_parse_failures_witness :
  exists id, swhid.Parse "swh:1:cnt:94a9ed024d3859793618152ea559a168bbcbb5e2" = Ok id.
Proof.
  apply (proj2 (proj2 (C8_parse_failures "swh:1:cnt:94a9ed024d3859793618152ea559a168bbcbb5e2"))
           "swh" "1" "cnt" "94a9ed024d3859793618152ea559a168bbcbb5e2").
  - discriminate.
  - reflexivity.
  - repeat split; try reflexivity. simpl. tauto.
Defined.

Example parse_failure_kinds :
  swhid.Parse "" = Err (swhid.Plain swhid.ErrEmptySWHID)
  /\ swhid.Parse "swh:1:cnt" = Err (swhid.Plain swhid.ErrInvalidFormat)
  /\ swhid.Parse "swx:1:cnt:94a9ed024d3859793618152ea559a168bbcbb5e2"
     = Err (swhid.Wrap swhid.ErrInvalidScheme "swx")
  /\ swhid.Parse "swh:01:cnt:94a9ed024d3859793618152ea559a168bbcbb5e2"
     = Err (swhid.Wrap swhid.ErrInvalidVersion "01")
  /\ swhid.Parse "swh:1:foo:94a9ed024d3859793618152ea559a168bbcbb5e2"
     = Err (swhid.Wrap swhid.ErrInvalidObjectType "foo")
  /\ swhid.Parse "swh:1:cnt:94a9ed024d3859793618152ea559a168bbcbb5ez"
     = Err (swhid.Wrap swhid.ErrInvalidObjectHash "must be 40 hex digits").
Proof. repeat split; vm_compute; reflexivity. Qed.

(** ** [Parse]: qualifier segments *)

Lemma fields_first_idem (s : string) (sep : ascii) :
  strings.fields (fst (strings.fields s sep)) sep = (fst (strings.fields s sep), []).
Proof.
  induction s as [|c s IH]; simpl; [reflexivity|].
  destruct (strings.fields s sep) as [first others] eqn:E. simpl in *.
  destruct (Ascii.eqb c sep) eqn:Hc; simpl; [reflexivity|].
  now rewrite IH, Hc.
Qed.

Lemma corePart_fst (s : string) : corePart s = fst (strings.fields s ";"%char).
Proof.
  unfold corePart, strings.Split.
  now destruct (strings.fields s ";"%char).
Qed.

Lemma corePart_idem (s : string) : corePart (corePart s) = corePart s.
Proof. rewrite !corePart_fst. now rewrite fields_first_idem. Qed.

Lemma coreFields_corePart (s : string) : coreFields (corePart s) = coreFields s.
Proof. unfold coreFields. now rewrite corePart_idem. Qed.

Lemma corePart_nonempty (s : string) : corePart s <> "" -> s <> "".
Proof. intros H ->. now apply H. Qed.

(** [Parse] accepts a string whose core part it accepts; the two results
    differ only in the qualifiers. *)
Lemma Parse_core (s : string) (core : swhid.Identifier) :
  swhid.Parse (corePart s) = Ok core ->
  swhid.Parse s = Ok (parsed s (swhid.IdObjectType core) (swhid.ObjectHash core)).
Proof.
  intros Hcore.
  pose proof (Parse_outcome (corePart s)) as Hout. rewrite Hcore in Hout.
  inversion Hout as [| | | | | |ty h Hne Hf Hty Hh Heq]; subst core. simpl.
  rewrite coreFields_corePart in Hf. apply corePart_nonempty in Hne.
  destruct (Parse_outcome s) as [| Hs Hlen | | | | |];
    try contradiction; try congruence.
  rewrite Hf in Hlen. now contradiction Hlen.
Qed.

Lemma parseQualifier_segment (m : gmap string string) (part : string) :
  swhid.parseQualifier m part
  = match segment part with
    | Some (key, value) => <[key := swhid.decodeQualifierValue value]> m
    | None => m
    end.
Proof.
  unfold swhid.parseQualifier, segment.
  destruct (String.eqb_spec part "") as [->|_]; [reflexivity|].
  now destruct (strings.Index part "="%char).
Qed.

(** Segments with other keys leave the binding of [key] as it is. *)
Lemma fold_parseQualifier_other (key : string) (parts : list string)
    (m : gmap string string) :
  (forall later, In later parts -> fst <$> segment later <> Some key) ->
  fold_left swhid.parseQualifier parts m !! key = m !! key.
Proof.
  revert m. induction parts as [|part parts IH]; intros m Hother; [reflexivity|].
  simpl. rewrite IH by (intros later Hin; apply Hother; now right).
  rewrite parseQualifier_segment.
  pose proof (Hother part (or_introl eq_refl)) as Hpart.
  destruct (segment part) as [[k v]|]; [|reflexivity].
  apply lookup_insert_ne. intros ->. now apply Hpart.
Qed.

(** The last segment that carries [key] decides its binding. *)
Lemma fold_parseQualifier_last (before after : list string) (part key value : string)
    (m : gmap string string) :
  segment part = Some (key, value) ->
  (forall later, In later after -> fst <$> segment later <> Some key) ->
  fold_left swhid.parseQualifier (before ++ part :: after) m !! key
  = Some (swhid.decodeQualifierValue value).
Proof.
  intros Hseg Hlast. rewrite fold_left_app. simpl.
  rewrite fold_parseQualifier_other by exact Hlast.
  rewrite parseQualifier_segment, Hseg. apply lookup_insert_eq.
Qed.

(** C10, as the code has it: when the core part of the input is accepted,
    [Parse] accepts the input whatever its qualifier segments are, repeated
    keys included, and binds each key to the decoded value of the last
    segment that carries it. *)
Theorem C10_last_segment_wins (s : string) (core : swhid.Identifier) :
  swhid.Parse (corePart s) = Ok core ->
  exists id,
    swhid.Parse s = Ok id
    /\ forall before part after key value,
         qualifierParts s = before ++ part :: after ->
         segment part = Some (key, value) ->
         (forall later, In later after -> fst <$> segment later <> Some key) ->
         swhid.Qualifiers id !! key = Some (swhid.decodeQualifierValue value).
Proof.
  intros Hcore. eexists. split; [exact (Parse_core s core Hcore)|].
  intros before part after key value Hparts Hseg Hlast. simpl.
  rewrite Hparts. now apply fold_parseQualifier_last.
Qed.

Lemma C10_last_segment_wins_witness :
  exists id,
    swhid.Parse "swh:1:cnt:94a9ed024d3859793618152ea559a168bbcbb5e2;origin=a;path=/x;origin=b"
    = Ok id
    /\ swhid.Qualifiers id !! "origin" = Some "b".
Proof.
  destruct (C10_last_segment_wins
              "swh:1:cnt:94a9ed024d3859793618152ea559a168bbcbb5e2;origin=a;path=/x;origin=b"
              (parsed "" "cnt" "94a9ed024d3859793618152ea559a168bbcbb5e2") eq_refl)
    as [id [Hparse Hlast]].
  exists id. split; [exact Hparse|].
  apply (Hlast ["origin=a"; "path=/x"] "origin=b" [] "origin" "b").
  - reflexivity.
  - reflexivity.
  - intros later [].
Defined.

(** C10, as stated, fails: the key [origin] appears in two segments, and
    [Parse] rejects the input because its version field is not "1". *)
Lemma C10_counterexample :
  qualifierParts "swh:2:cnt:94a9ed024d3859793618152ea559a168bbcbb5e2;origin=a;origin=b"
  = ["origin=a"; "origin=b"]
  /\ segment "origin=a" = Some ("origin", "a")
  /\ segment "origin=b" = Some ("origin", "b")
  /\ swhid.Parse "swh:2:cnt:94a9ed024d3859793618152ea559a168bbcbb5e2;origin=a;origin=b"
     = Err (swhid.Wrap swhid.ErrInvalidVersion "2").
Proof. repeat split; vm_compute; reflexivity. Qed.

(** ** Lines of a serialized object *)

Lemma Split_cons (c : ascii) (s : string) (sep : ascii) :
  strings.Split (String c s) sep
  = if Ascii.eqb c sep then "" :: strings.Split s sep
    else String c (hd "" (strings.Split s sep)) :: tl (strings.Split s sep).
Proof.
  unfold strings.Split. simpl.
  destruct (strings.fields s sep) as [first others].
  now destruct (Ascii.eqb c sep).
Qed.

Lemma Split_hd_tl (s : string) (sep : ascii) :
  strings.Split s sep = hd "" (strings.Split s sep) :: tl (strings.Split s sep).
Proof. unfold strings.Split. now destruct (strings.fields s sep). Qed.

(** Cutting at a separator: the fields of both sides, side by side. *)
Lemma Split_app_sep (a b : string) (sep : ascii) :
  strings.Split (a +:+ String sep b) sep = strings.Split a sep ++ strings.Split b sep.
Proof.
  induction a as [|c a IH]; simpl.
  - now rewrite Split_cons, Ascii.eqb_refl.
  - rewrite !Split_cons, IH.
    destruct (Ascii.eqb c sep); [reflexivity|].
    rewrite (Split_hd_tl a sep) at 1 2. reflexivity.
Qed.

(** A text without separator in front of another text joins its first field. *)
Lemma Split_app_no_sep (p x : string) (sep : ascii) :
  strings.Index p sep = None ->
  strings.Split (p +:+ x) sep
  = (p +:+ hd "" (strings.Split x sep)) :: tl (strings.Split x sep).
Proof.
  induction p as [|c p IH]; simpl; intros Hp.
  - apply Split_hd_tl.
  - destruct (Ascii.eqb c sep) eqn:Hc; [discriminate|].
    destruct (strings.Index p sep); [discriminate|].
    rewrite Split_cons, Hc, IH by reflexivity. reflexivity.
Qed.

Lemma Split_no_sep (p : string) (sep : ascii) :
  strings.Index p sep = None -> strings.Split p sep = [p].
Proof.
  intros Hp. rewrite <- (append_nil_r p) at 1.
  rewrite Split_app_no_sep by exact Hp. simpl. now rewrite append_nil_r.
Qed.

Lemma Split_Join (e : string) (rest : list string) (sep : ascii) :
  strings.Split (strings.Join (e :: rest) (String sep "")) sep
  = concat (map (fun x => strings.Split x sep) (e :: rest)).
Proof.
  revert e. induction rest as [|e' rest IH]; intros e.
  - simpl. now rewrite app_nil_r.
  - change (strings.Join (e :: e' :: rest) (String sep ""))
      with (e +:+ String sep (strings.Join (e' :: rest) (String sep ""))).
    rewrite Split_app_sep, IH. reflexivity.
Qed.

(** After [escapeNewlines] every line but the first begins with a space. *)
Lemma escapeNewlines_continuation (v line : string) :
  In line (tl (textLines (revision.escapeNewlines v))) ->
  exists rest, line = String " "%char rest.
Proof.
  unfold textLines, revision.escapeNewlines.
  induction v as [|c v IH]; simpl; [intros []|].
  destruct (Ascii.eqb_spec c LF) as [->|Hc].
  - simpl. rewrite Split_cons, Ascii.eqb_refl. simpl.
    rewrite Split_cons. change (Ascii.eqb " " LF) with false. simpl.
    intros [<-|Hin]; [eauto|now apply IH].
  - simpl. rewrite Split_cons.
    destruct (Ascii.eqb_spec c LF) as [|_]; [contradiction|]. simpl. exact IH.
Qed.

Lemma prefix_append_false (p k x : string) (c : ascii) :
  strings.Index p c = None ->
  String.prefix p k = false ->
  String.prefix p (k +:+ String c x) = false.
Proof.
  revert k. induction p as [|a p IH]; intros k Hc Hk;
    [destruct k; discriminate Hk|].
  simpl in Hc. destruct (Ascii.eqb_spec a c) as [|Hac]; [discriminate|].
  destruct (strings.Index p c) eqn:Hp; [discriminate|].
  destruct k as [|b k]; simpl in *.
  - destruct (ascii_dec a c); [contradiction|reflexivity].
  - destruct (ascii_dec a b); [|reflexivity]. now apply IH.
Qed.

Lemma fold_left_snoc {A B : Type} (f : A -> B) (l : list A) (acc : list B) :
  fold_left (fun lines x => lines ++ [f x]) l acc = acc ++ map f l.
Proof.
  revert acc. induction l as [|x l IH]; intros acc; simpl.
  - now rewrite app_nil_r.
  - rewrite IH, <- app_assoc. reflexivity.
Qed.

(** ** Releases: the tagger line and the message *)

Lemma release_headerLines_untagged (m : release.ReleaseMetadata) :
  release.Author m = "" ->
  release.headerLines m
  = ("object " +:+ release.Hash (release.Target m))
    :: ("type " +:+ release.GitType (release.Target m))
    :: ("tag " +:+ revision.escapeNewlines (release.Name m))
    :: map (fun header => revision.formatHeaderLine (fst header) (snd header))
           (release.ExtraHeaders m).
Proof.
  intros Hauthor. unfold release.headerLines. rewrite Hauthor. simpl.
  now rewrite fold_left_snoc.
Qed.

Lemma release_text (m : release.ReleaseMetadata) :
  string_of (release.serializeRelease m)
  = strings.Join (release.headerLines m) (String LF "")
    +:+ String LF (if String.eqb (release.Message m) "" then ""
                   else String LF (release.Message m)).
Proof.
  unfold release.serializeRelease, string_of, bytes_of.
  rewrite string_of_list_byte_of_string.
  destruct (String.eqb (release.Message m) ""); simpl.
  - reflexivity.
  - now rewrite append_assoc.
Qed.

Lemma GitType_lines (t : release.ReleaseTarget) (line : string) :
  In line (textLines ("type " +:+ release.GitType t)) -> startsWithTagger line = false.
Proof.
  unfold release.GitType.
  repeat match goal with
         | |- context [if ?b then _ else _] => destruct b
         end;
    simpl; intros [<-|[]]; reflexivity.
Qed.

(** C6, as the code has it. With an empty author the header lines are the
    object, type and tag lines followed by the extra headers: no tagger line
    is produced. No line of the serialization then begins with [tagger]
    provided none is brought in by the other fields: the target hash has no
    newline, no extra header key has a newline or begins with [tagger], and no
    line of the message begins with [tagger]. With an empty message the
    serialization is the header lines, each followed by a newline, and
    nothing more. *)
Theorem C6_release_tagger_and_message (m : release.ReleaseMetadata) :
  (release.Author m = "" ->
   release.headerLines m
   = ("object " +:+ release.Hash (release.Target m))
     :: ("type " +:+ release.GitType (release.Target m))
     :: ("tag " +:+ revision.escapeNewlines (release.Name m))
     :: map (fun header => revision.formatHeaderLine (fst header) (snd header))
            (release.ExtraHeaders m))
  /\ (release.Author m = "" ->
      strings.Index (release.Hash (release.Target m)) LF = None ->
      (forall key value, In (key, value) (release.ExtraHeaders m) ->
         strings.Index key LF = None /\ startsWithTagger key = false) ->
      (forall line, In line (textLines (release.Message m)) ->
         startsWithTagger line = false) ->
      forall line, In line (textLines (string_of (release.serializeRelease m))) ->
        startsWithTagger line = false)
  /\ (release.Message m = "" ->
      string_of (release.serializeRelease m)
      = strings.Join (release.headerLines m) (String LF "") +:+ String LF "").
Proof.
  split; [apply release_headerLines_untagged|]. split.
  - intros Hauthor Hhash Hextra Hmsg line.
    rewrite release_text, release_headerLines_untagged by exact Hauthor.
    unfold textLines in *. rewrite Split_app_sep.
    rewrite Split_Join, in_app_iff. intros [Hin|Hin].
    + apply in_concat in Hin as [ls [Hls Hin]].
      apply in_map_iff in Hls as [h [<- Hh]].
      destruct Hh as [<-|[<-|[<-|Hh]]].
      * rewrite Split_app_no_sep in Hin by reflexivity.
        rewrite (Split_no_sep _ _ Hhash) in Hin. simpl in Hin.
        destruct Hin as [<-|[]]. reflexivity.
      * now apply (GitType_lines (release.Target m)).
      * rewrite Split_app_no_sep in Hin by reflexivity.
        destruct Hin as [<-|Hin]; [reflexivity|].
        apply escapeNewlines_continuation in Hin as [rest ->]. reflexivity.
      * apply in_map_iff in Hh as [[key value] [<- Hkv]].
        destruct (Hextra key value Hkv) as [Hkey Htag].
        unfold revision.formatHeaderLine in Hin. simpl in Hin.
        rewrite Split_app_no_sep in Hin by exact Hkey.
        rewrite Split_cons in Hin. change (Ascii.eqb " " LF) with false in Hin.
        cbn [hd tl] in Hin.
        destruct Hin as [<-|Hin].
        -- apply (prefix_append_false "tagger" key _ " "%char); [reflexivity|exact Htag].
        -- apply escapeNewlines_continuation in Hin as [rest ->]. reflexivity.
    + destruct (String.eqb (release.Message m) "").
      * destruct Hin as [<-|[]]. reflexivity.
      * rewrite Split_cons, Ascii.eqb_refl in Hin.
        destruct Hin as [<-|Hin]; [reflexivity|]. now apply Hmsg.
  - intros Hmsg. rewrite release_text, Hmsg. reflexivity.
Qed.

Lemma C6_release_tagger_and_message_witness :
  (forall line, In line (textLines (string_of (release.serializeRelease plainRelease))) ->
     startsWithTagger line = false)
  /\ string_of (release.serializeRelease plainRelease)
     = strings.Join (release.headerLines plainRelease) (String LF "") +:+ String LF "".
Proof.
  split.
  - apply (proj1 (proj2 (C6_release_tagger_and_message plainRelease))).
    + reflexivity.
    + reflexivity.
    + intros key value [Hkv|[]]. injection Hkv as <- <-. split; reflexivity.
    + intros line [<-|[]]. reflexivity.
  - apply (proj2 (proj2 (C6_release_tagger_and_message plainRelease))). reflexivity.
Defined.

(** C6, as stated, fails: a release with an empty author whose extra header
    key and whose message begin with the word [tagger] is serialized with two
    lines that begin with [tagger]. *)
Lemma C6_counterexample :
  release.Author untaggedRelease = ""
  /\ In "tagger-id 42" (textLines (string_of (release.serializeRelease untaggedRelease)))
  /\ startsWithTagger "tagger-id 42" = true
  /\ In "tagger unknown" (textLines (string_of (release.serializeRelease untaggedRelease)))
  /\ startsWithTagger "tagger unknown" = true.
Proof. repeat split; vm_compute; tauto. Qed.

(** ** The round trip of identifiers *)

Lemma Join_cons (e e' : string) (rest : list string) (sep : string) :
  strings.Join (e :: e' :: rest) sep = e +:+ sep +:+ strings.Join (e' :: rest) sep.
Proof. reflexivity. Qed.

Lemma Join_cons_char (c : ascii) (e : string) (rest : list string) (sep : string) :
  strings.Join (String c e :: rest) sep = String c (strings.Join (e :: rest) sep).
Proof. destruct rest; reflexivity. Qed.

(** Joining the fields of a text with the separator gives the text back. *)
Lemma Join_Split (s : string) (sep : ascii) :
  strings.Join (strings.Split s sep) (String sep "") = s.
Proof.
  induction s as [|c s IH]; [reflexivity|].
  rewrite Split_cons. destruct (Ascii.eqb_spec c sep) as [->|Hc].
  - rewrite (Split_hd_tl s sep) in *. rewrite Join_cons, IH. reflexivity.
  - rewrite Join_cons_char, <- Split_hd_tl, IH. reflexivity.
Qed.

Lemma substring_all (s : string) : String.substring 0 (String.length s) s = s.
Proof. induction s as [|c s IH]; simpl; [reflexivity|]. now rewrite IH. Qed.

(** A segment is its key, an equals sign and its value. *)
Lemma segment_render (part key value : string) :
  segment part = Some (key, value) -> part = key +:+ String "="%char value.
Proof.
  unfold segment. revert key value.
  induction part as [|d part IH]; intros key value; simpl; [discriminate|].
  destruct (Ascii.eqb_spec d "="%char) as [->|Hd].
  - intros [= <- <-]. unfold slice_to, slice_from. simpl.
    rewrite Nat.sub_0_r, substring_all. reflexivity.
  - destruct (strings.Index part "="%char) as [idx|]; [|discriminate].
    simpl. intros [= <- <-].
    rewrite (IH _ _ eq_refl) at 1. reflexivity.
Qed.

(** On an [escapedOnly] value unescaping succeeds and escaping undoes it. *)
Lemma escapedOnly_unescape (v : string) :
  escapedOnly v = true ->
  url.check v = None /\ swhid.encodeQualifierValue (url.build v) = v.
Proof.
  assert (H : forall n v, String.length v < n -> escapedOnly v = true ->
                url.check v = None /\ swhid.encodeQualifierValue (url.build v) = v).
  { clear v. induction n as [|n IH]; intros v Hn; [lia|].
    destruct v as [|c rest]; [split; reflexivity|].
    simpl escapedOnly. simpl url.check. simpl url.build.
    destruct (Ascii.eqb_spec c "%"%char) as [->|Hp].
    - destruct rest as [|a [|b rest']]; try discriminate.
      intros [Hab Hrest]%andb_prop.
      destruct (IH rest' ltac:(simpl in Hn; lia) Hrest) as [IH1 IH2].
      apply orb_prop in Hab as [[Ha Hb]%andb_prop|[Ha Hb]%andb_prop];
        apply Ascii.eqb_eq in Ha, Hb; subst a b; simpl;
        rewrite IH1; (split; [reflexivity|]);
        rewrite encodeQualifierValue_cons, IH2; reflexivity.
    - intros [[Hs Hplus]%andb_prop Hrest]%andb_prop.
      destruct (IH rest ltac:(simpl in Hn; lia) Hrest) as [IH1 IH2].
      split; [exact IH1|].
      apply negb_true_iff in Hs, Hplus. rewrite Hplus.
      rewrite encodeQualifierValue_cons, IH2. unfold escapeOf.
      destruct (Ascii.eqb_spec c "%"%char) as [|_]; [contradiction|].
      now rewrite Hs. }
  apply (H (S (String.length v))). lia.
Qed.

Lemma encode_decode_escapedOnly (v : string) :
  escapedOnly v = true ->
  swhid.encodeQualifierValue (swhid.decodeQualifierValue v) = v.
Proof.
  intros Hv. destruct (escapedOnly_unescape v Hv) as [Hcheck Hbuild].
  unfold swhid.decodeQualifierValue, url.QueryUnescape. now rewrite Hcheck.
Qed.

(** [formatQualifiers] as a list of rendered entries. *)
Lemma formatQualifiers_parts (visit : list (string * string))
    (quals : gmap string string) :
  swhid.formatQualifiers visit quals
  = strings.Join
      (flat_map (fun key => match quals !! key with
                            | Some value =>
                                [key +:+ "=" +:+ swhid.encodeQualifierValue value]
                            | None => []
                            end) swhid.canonicalQualifierOrder
       ++ map (fun kv => fst kv +:+ "=" +:+ swhid.encodeQualifierValue (snd kv))
              (List.filter (fun kv => negb (swhid.isCanonical (fst kv))) visit))
      ";".
Proof.
  unfold swhid.formatQualifiers. f_equal.
  assert (H1 : forall (l : list string) acc,
             fold_left (fun parts key =>
                          match quals !! key with
                          | Some value =>
                              parts ++ [key +:+ "=" +:+ swhid.encodeQualifierValue value]
                          | None => parts
                          end) l acc
             = acc ++ flat_map (fun key => match quals !! key with
                                           | Some value =>
                                               [key +:+ "=" +:+ swhid.encodeQualifierValue value]
                                           | None => []
                                           end) l).
  { induction l as [|key l IH]; intros acc; simpl; [now rewrite app_nil_r|].
    rewrite IH. destruct (quals !! key); [now rewrite <- app_assoc|reflexivity]. }
  assert (H2 : forall (l : list (string * string)) acc,
             fold_left (fun parts kv =>
                          if negb (swhid.isCanonical (fst kv))
                          then parts ++ [fst kv +:+ "=" +:+ swhid.encodeQualifierValue (snd kv)]
                          else parts) l acc
             = acc ++ map (fun kv => fst kv +:+ "=" +:+ swhid.encodeQualifierValue (snd kv))
                          (List.filter (fun kv => negb (swhid.isCanonical (fst kv))) l)).
  { induction l as [|kv l IH]; intros acc; simpl; [now rewrite app_nil_r|].
    rewrite IH. destruct (negb (swhid.isCanonical (fst kv)));
      [now rewrite <- app_assoc|reflexivity]. }
  rewrite H2, H1. reflexivity.
Qed.

(** The first loop of [formatQualifiers] renders the canonical keys that are
    bound, in canonical order. *)
Lemma canonical_loop (quals : gmap string string) (present : string -> bool)
    (order : list string) (kvs : list (string * string)) :
  map fst kvs = List.filter present order ->
  (forall k v, In (k, v) kvs ->
     exists v', quals !! k = Some v' /\ swhid.encodeQualifierValue v' = v) ->
  (forall c, In c order -> present c = false -> quals !! c = None) ->
  flat_map (fun key => match quals !! key with
                       | Some value => [key +:+ "=" +:+ swhid.encodeQualifierValue value]
                       | None => []
                       end) order
  = map (fun kv => fst kv +:+ "=" +:+ snd kv) kvs.
Proof.
  revert kvs. induction order as [|c order IH]; intros kvs Hkeys Hin Hout; simpl in *.
  - now destruct kvs.
  - destruct (present c) eqn:Hc.
    + destruct kvs as [|[k v] kvs]; [discriminate|].
      simpl in Hkeys. injection Hkeys as -> Hkeys.
      destruct (Hin c v (or_introl eq_refl)) as [v' [-> <-]]. simpl. f_equal.
      apply IH; [exact Hkeys| |].
      * intros k w Hkw. apply Hin. now right.
      * intros c' Hc'. apply Hout. now right.
    + rewrite (Hout c (or_introl eq_refl) Hc). simpl.
      apply IH; [exact Hkeys|exact Hin|].
      intros c' Hc'. apply Hout. now right.
Qed.

Lemma filter_nil {A : Type} (P : A -> bool) (l : list A) :
  (forall x, In x l -> P x = false) -> List.filter P l = [].
Proof.
  induction l as [|x l IH]; intros H; simpl; [reflexivity|].
  rewrite (H x (or_introl eq_refl)). apply IH. intros; apply H; now right.
Qed.

Lemma NoDup_all_equal {A : Type} (a : A) (l : list A) :
  List.NoDup l -> (forall x, In x l -> x = a) -> In a l -> l = [a].
Proof.
  intros Hnd Hall Hin. destruct l as [|x [|y l]]; [destruct Hin| |].
  - now rewrite (Hall x (or_introl eq_refl)).
  - exfalso. apply List.NoDup_cons_iff in Hnd as [Hx _]. apply Hx.
    rewrite (Hall x), (Hall y); [now left|right; now left|now left].
Qed.

Lemma isCanonical_In (k : string) :
  swhid.isCanonical k = true <-> In k swhid.canonicalQualifierOrder.
Proof.
  unfold swhid.isCanonical. rewrite existsb_exists. split.
  - intros [c [Hc ->%String.eqb_eq]]. exact Hc.
  - intros H. exists k. split; [exact H|apply String.eqb_refl].
Qed.

Lemma existsb_eqb_In (c : string) (keys : list string) :
  existsb (String.eqb c) keys = true <-> In c keys.
Proof.
  rewrite existsb_exists. split.
  - intros [k [Hk ->%String.eqb_eq]]. exact Hk.
  - intros H. exists c. split; [exact H|apply String.eqb_refl].
Qed.

(** The second loop of [formatQualifiers] renders the one key that is not
    canonical, if there is one, in whatever order the map is visited. *)
Lemma other_loop (quals : gmap string string) (visit kvs : list (string * string))
    (canon : list string) :
  swhid.rangeOrder quals visit ->
  (forall c, In c canon -> swhid.isCanonical c = true) ->
  (forall k v, In (k, v) kvs -> swhid.isCanonical k = false) ->
  length kvs <= 1 ->
  (forall k v, In (k, v) kvs ->
     exists v', quals !! k = Some v' /\ swhid.encodeQualifierValue v' = v) ->
  (forall k, ~ In k (canon ++ map fst kvs) -> quals !! k = None) ->
  map (fun kv => fst kv +:+ "=" +:+ swhid.encodeQualifierValue (snd kv))
      (List.filter (fun kv => negb (swhid.isCanonical (fst kv))) visit)
  = map (fun kv => fst kv +:+ "=" +:+ snd kv) kvs.
Proof.
  unfold swhid.rangeOrder. intros Hvisit Hcanon Hother Hlen Hin Hout.
  assert (Hbound : forall k w, In (k, w) visit -> quals !! k = Some w).
  { intros k w Hkw. apply elem_of_map_to_list. rewrite <- Hvisit.
    now apply list_elem_of_In. }
  assert (Hkeys : forall k w, In (k, w) visit -> swhid.isCanonical k = false ->
                    In k (map fst kvs)).
  { intros k w Hkw Hk. destruct (in_dec string_dec k (canon ++ map fst kvs)) as [Hi|Hni].
    - apply in_app_iff in Hi as [Hi|Hi]; [|exact Hi].
      rewrite (Hcanon k Hi) in Hk. discriminate.
    - pose proof (Hbound k w Hkw) as Hb. rewrite (Hout k Hni) in Hb. discriminate Hb. }
  destruct kvs as [|[o v] [|kv kvs]]; [| |simpl in Hlen; lia].
  - rewrite filter_nil; [reflexivity|].
    intros [k w] Hkw. simpl. apply negb_false_iff.
    destruct (swhid.isCanonical k) eqn:Hk; [reflexivity|].
    contradiction (Hkeys k w Hkw Hk).
  - destruct (Hin o v (or_introl eq_refl)) as [v' [Ho Hv]].
    rewrite (NoDup_all_equal (o, v')
               (List.filter (fun kv => negb (swhid.isCanonical (fst kv))) visit)).
    + simpl. now rewrite Hv.
    + apply List.NoDup_filter. apply NoDup_ListNoDup.
      rewrite Hvisit. apply NoDup_map_to_list.
    + intros [k w] [Hkw Hk]%filter_In. simpl in Hk. apply negb_true_iff in Hk.
      destruct (Hkeys k w Hkw Hk) as [<-|[]]. simpl.
      pose proof (Hbound _ _ Hkw) as Hw. simpl in Hw. congruence.
    + apply filter_In. split.
      * apply list_elem_of_In. rewrite Hvisit. now apply elem_of_map_to_list.
      * simpl. now rewrite (Hother o v (or_introl eq_refl)).
Qed.

Lemma canonicalQualifierOrder_NoDup : List.NoDup swhid.canonicalQualifierOrder.
Proof.
  apply NoDup_ListNoDup. apply (bool_decide_unpack _). vm_compute. reflexivity.
Qed.

Lemma keysCanonical_shape (keys : list string) :
  keysCanonical keys = true ->
  exists others,
    keys = List.filter (fun c => existsb (String.eqb c) keys) swhid.canonicalQualifierOrder
           ++ others
    /\ (forall o, In o others -> swhid.isCanonical o = false)
    /\ length others <= 1
    /\ List.NoDup keys.
Proof.
  unfold keysCanonical. intros [Hkeys Hlen]%andb_prop.
  apply bool_decide_eq_true in Hkeys. apply Nat.leb_le in Hlen.
  set (canon := List.filter (fun c => existsb (String.eqb c) keys)
                            swhid.canonicalQualifierOrder) in *.
  set (others := List.filter (fun k => negb (swhid.isCanonical k)) keys) in *.
  assert (Hothers : forall o, In o others -> swhid.isCanonical o = false).
  { intros o [_ Ho]%filter_In. now apply negb_true_iff. }
  exists others. repeat split; try assumption.
  rewrite Hkeys. apply List.NoDup_app.
  - apply List.NoDup_filter, canonicalQualifierOrder_NoDup.
  - destruct others as [|o [|o' others']]; [constructor|repeat constructor; intros []|].
    simpl in Hlen. lia.
  - intros c [Hc _]%filter_In Ho. apply isCanonical_In in Hc.
    rewrite (Hothers c Ho) in Hc. discriminate.
Qed.

Lemma omap_segment_keys (parts : list string) :
  omap (fun part => fst <$> segment part) parts = map fst (omap segment parts).
Proof.
  induction parts as [|part parts IH]; [reflexivity|].
  csimpl. destruct (segment part) as [[k v]|]; csimpl; now rewrite IH.
Qed.

Lemma omap_segment_render (parts : list string) :
  forallb (fun part => match segment part with
                       | Some (_, value) => escapedOnly value
                       | None => false
                       end) parts = true ->
  map (fun kv => fst kv +:+ "=" +:+ snd kv) (omap segment parts) = parts
  /\ forall k v, In (k, v) (omap segment parts) -> escapedOnly v = true.
Proof.
  induction parts as [|part parts IH]; csimpl;
    [intros _; split; [reflexivity|intros ? ? []]|].
  intros [Hpart Hparts]%andb_prop. destruct (IH Hparts) as [IH1 IH2].
  destruct (segment part) as [[k v]|] eqn:Hseg; [|discriminate].
  csimpl. split.
  - f_equal; [symmetry; now apply segment_render|exact IH1].
  - intros k' v' [[= <- <-]|Hin]; [exact Hpart|now apply (IH2 k')].
Qed.

Lemma In_omap_segment (parts : list string) (part key value : string) :
  In part parts -> segment part = Some (key, value) ->
  In (key, value) (omap segment parts).
Proof.
  intros Hin Hseg. apply list_elem_of_In, list_elem_of_omap.
  exists part. split; [now apply list_elem_of_In|exact Hseg].
Qed.

(** With pairwise distinct keys every segment decides the binding of its key,
    and no other key is bound. *)
Lemma fold_parseQualifier_lookup (parts : list string) (m : gmap string string)
    (key value : string) :
  List.NoDup (map fst (omap segment parts)) ->
  In (key, value) (omap segment parts) ->
  fold_left swhid.parseQualifier parts m !! key = Some (swhid.decodeQualifierValue value).
Proof.
  revert m. induction parts as [|part parts IH]; intros m Hnd Hin; [destruct Hin|].
  csimpl in *. rewrite parseQualifier_segment.
  destruct (segment part) as [[k v]|] eqn:Hseg; [|now apply IH].
  csimpl in *. apply List.NoDup_cons_iff in Hnd as [Hk Hnd].
  destruct Hin as [[= -> ->]|Hin]; [|now apply IH].
  rewrite fold_parseQualifier_other; [apply lookup_insert_eq|].
  intros later Hlater Hkey. apply Hk.
  destruct (segment later) as [[k' v']|] eqn:Hseg'; [|discriminate].
  simpl in Hkey. injection Hkey as ->.
  apply in_map_iff. exists (key, v'). split; [reflexivity|].
  now apply (In_omap_segment parts later).
Qed.

Lemma fold_parseQualifier_unbound (parts : list string) (key : string) :
  ~ In key (map fst (omap segment parts)) ->
  fold_left swhid.parseQualifier parts (∅ : gmap string string) !! key = None.
Proof.
  intros Hkey. rewrite fold_parseQualifier_other; [apply lookup_empty|].
  intros later Hlater Hseg. apply Hkey.
  destruct (segment later) as [[k v]|] eqn:Hseg'; [|discriminate].
  simpl in Hseg. injection Hseg as ->.
  apply in_map_iff. exists (key, v). split; [reflexivity|].
  now apply (In_omap_segment parts later).
Qed.

Lemma Split_core_parts (s : string) :
  strings.Split s ";"%char = corePart s :: qualifierParts s.
Proof. apply Split_hd_tl. Qed.

Lemma CoreSWHID_parsed (s ty h : string) :
  coreFields s = ["swh"; "1"; ty; h] ->
  swhid.CoreSWHID (parsed s ty h) = corePart s.
Proof.
  intros Hf. rewrite <- (Join_Split (corePart s) ":"%char).
  fold (coreFields s). rewrite Hf. reflexivity.
Qed.

(** [formatQualifiers] writes the segments of a canonical input back. *)
Lemma formatQualifiers_canonical (parts : list string) (visit : list (string * string)) :
  forallb (fun part => match segment part with
                       | Some (_, value) => escapedOnly value
                       | None => false
                       end) parts = true ->
  keysCanonical (omap (fun part => fst <$> segment part) parts) = true ->
  swhid.rangeOrder (fold_left swhid.parseQualifier parts ∅) visit ->
  swhid.formatQualifiers visit (fold_left swhid.parseQualifier parts ∅)
  = strings.Join parts ";".
Proof.
  intros Hsegs Hkeys Hvisit.
  destruct (omap_segment_render parts Hsegs) as [Hrender Hescaped].
  rewrite omap_segment_keys in Hkeys.
  destruct (keysCanonical_shape _ Hkeys) as [others [Hshape [Hothers [Hlen Hnd]]]].
  set (kvs := omap segment parts) in *.
  set (quals := fold_left swhid.parseQualifier parts ∅) in *.
  set (canon := List.filter (fun c => existsb (String.eqb c) (map fst kvs))
                            swhid.canonicalQualifierOrder) in *.
  assert (Hbound : forall k v, In (k, v) kvs ->
            exists v', quals !! k = Some v' /\ swhid.encodeQualifierValue v' = v).
  { intros k v Hkv. exists (swhid.decodeQualifierValue v). split.
    - now apply fold_parseQualifier_lookup.
    - apply encode_decode_escapedOnly. now apply (Hescaped k). }
  assert (Hunbound : forall k, ~ In k (map fst kvs) -> quals !! k = None).
  { intros k Hk. now apply fold_parseQualifier_unbound. }
  pose proof (firstn_skipn (length canon) kvs) as Hcut.
  assert (HkC : map fst (firstn (length canon) kvs) = canon).
  { rewrite <- firstn_map, Hshape. now rewrite firstn_app, Nat.sub_diag, firstn_all,
      firstn_O, app_nil_r. }
  assert (HkO : map fst (skipn (length canon) kvs) = others).
  { rewrite <- skipn_map, Hshape. now rewrite skipn_app, Nat.sub_diag, skipn_all. }
  rewrite formatQualifiers_parts.
  rewrite (canonical_loop quals (fun c => existsb (String.eqb c) (map fst kvs))
             swhid.canonicalQualifierOrder (firstn (length canon) kvs)).
  - rewrite (other_loop quals visit (skipn (length canon) kvs) canon Hvisit).
    + rewrite <- map_app, Hcut. now rewrite Hrender.
    + intros c [Hc _]%filter_In. now apply isCanonical_In.
    + intros k v Hkv. apply Hothers. rewrite <- HkO.
      apply in_map_iff. now exists (k, v).
    + rewrite <- (length_map fst), HkO. exact Hlen.
    + intros k v Hkv. apply Hbound. rewrite <- Hcut. apply in_app_iff. now right.
    + intros k Hk. apply Hunbound. now rewrite Hshape, <- HkO.
  - exact HkC.
  - intros k v Hkv. apply Hbound. rewrite <- Hcut. apply in_app_iff. now left.
  - intros c _ Hc. apply Hunbound. intros Hin.
    apply existsb_eqb_In in Hin. congruence.
Qed.

(** C1, as the code has it: an accepted identifier string is written back
    unchanged when every part after the core is a segment [key=value], the
    keys are the canonical ones that occur, each once and in canonical order,
    followed by at most one other key, and every value uses the percent sign
    only in [%25] and [%3B] and has no plus sign. This holds in whatever order
    the map of qualifiers is visited. *)
Theorem C1_round_trip (s : string) (id : swhid.Identifier)
    (visit : list (string * string)) :
  swhid.Parse s = Ok id ->
  canonicalForm s = true ->
  swhid.rangeOrder (swhid.Qualifiers id) visit ->
  swhid.Identifier_String visit id = s.
Proof.
  intros Hparse [Hsegs Hkeys]%andb_prop Hvisit.
  pose proof (Parse_outcome s) as Hout. rewrite Hparse in Hout.
  inversion Hout as [| | | | | |ty h Hne Hf Hty Hh Heq]; subst id.
  unfold swhid.Identifier_String. rewrite (CoreSWHID_parsed s ty h Hf).
  simpl swhid.Qualifiers in *.
  transitivity (strings.Join (corePart s :: qualifierParts s) ";");
    [|rewrite <- Split_core_parts; apply Join_Split].
  destruct (qualifierParts s) as [|part parts] eqn:Hparts.
  - reflexivity.
  - rewrite (formatQualifiers_canonical (part :: parts) visit Hsegs Hkeys Hvisit).
    destruct (Nat.eqb_spec (size (fold_left swhid.parseQualifier (part :: parts) ∅)) 0)
      as [Hsize|_]; [|reflexivity].
    exfalso. apply map_size_empty_iff in Hsize.
    simpl in Hsegs. apply andb_prop in Hsegs as [Hpart _].
    destruct (segment part) as [[k v]|] eqn:Hseg; [|discriminate].
    rewrite omap_segment_keys in Hkeys.
    destruct (keysCanonical_shape _ Hkeys) as [_ [_ [_ [_ Hnd]]]].
    pose proof (fold_parseQualifier_lookup (part :: parts) ∅ k v Hnd) as Hk.
    rewrite Hsize, lookup_empty in Hk. discriminate Hk.
    apply (In_omap_segment _ part); [now left|exact Hseg].
Qed.

Lemma C1_round_trip_witness :
  swhid.Identifier_String
    (map_to_list (swhid.Qualifiers (parsed canonicalExample "cnt" exampleHash)))
    (parsed canonicalExample "cnt" exampleHash)
  = canonicalExample.
Proof.
  apply C1_round_trip.
  - vm_compute. reflexivity.
  - vm_compute. reflexivity.
  - unfold swhid.rangeOrder. reflexivity.
Defined.

(** C1, as stated, fails. When a key is repeated only its last segment is
    written back, in whatever order the map is visited; and two keys outside
    the canonical list are written in the order the map is visited, which may
    be the reverse of the input. *)
Lemma C1_counterexample :
  (exists id,
      swhid.Parse repeatedKeyExample = Ok id
      /\ forall visit, swhid.rangeOrder (swhid.Qualifiers id) visit ->
           swhid.Identifier_String visit id
           = "swh:1:cnt:94a9ed024d3859793618152ea559a168bbcbb5e2;origin=b"
           /\ swhid.Identifier_String visit id <> repeatedKeyExample)
  /\ (exists id visit,
         swhid.Parse otherKeysExample = Ok id
         /\ swhid.rangeOrder (swhid.Qualifiers id) visit
         /\ swhid.Identifier_String visit id
            = "swh:1:cnt:94a9ed024d3859793618152ea559a168bbcbb5e2;bar=2;foo=1"
         /\ swhid.Identifier_String visit id <> otherKeysExample).
Proof.
  split.
  - exists (parsed repeatedKeyExample "cnt" exampleHash).
    split; [vm_compute; reflexivity|].
    intros visit Hvisit. unfold swhid.rangeOrder in Hvisit.
    assert (Hlist : map_to_list (swhid.Qualifiers (parsed repeatedKeyExample "cnt" exampleHash))
                    = [("origin", "b")]) by (vm_compute; reflexivity).
    rewrite Hlist in Hvisit. symmetry in Hvisit.
    apply Permutation_singleton_l in Hvisit. subst visit.
    split; vm_compute; [reflexivity|discriminate].
  - exists (parsed otherKeysExample "cnt" exampleHash), [("bar", "2"); ("foo", "1")].
    split; [vm_compute; reflexivity|]. split.
    + unfold swhid.rangeOrder.
      assert (Hlist : map_to_list (swhid.Qualifiers (parsed otherKeysExample "cnt" exampleHash))
                      ≡ₚ [("bar", "2"); ("foo", "1")]).
      { vm_compute. first [reflexivity | apply perm_swap]. }
      now rewrite Hlist.
    + split; vm_compute; [reflexivity|discriminate].
Qed.

(* ===================================================================== *)
(** * Further properties of the code *)
(* ===================================================================== *)

(** ** Digests are valid object hashes and valid targets *)

Lemma DecodeString_EncodeToString (src : list byte) :
  hex.DecodeString (hex.EncodeToString src) = (src, None).
Proof.
  induction src as [|b src IH]; [reflexivity|].
  destruct (byte_digits b) as (_ & _ & H3 & H4 & H5).
  cbn [hex.EncodeToString hex.DecodeString]. now rewrite H3, H4, IH, H5.
Qed.

Lemma hashObject_matches (kind : string) (body : list byte) :
  swhid.hashRegex_MatchString (hashObject kind body) = true.
Proof.
  unfold swhid.hashRegex_MatchString.
  rewrite hashObject_length. unfold hashObject. now rewrite EncodeToString_lowerHex.
Qed.

Lemma NewIdentifier_digest (ty kind : string) (body : list byte) :
  swhid.isValidObjectType ty = true ->
  swhid.NewIdentifier ty (hashObject kind body) None
  = Ok (coreIdentifier ty (hashObject kind body)).
Proof.
  intros Hty. unfold swhid.NewIdentifier.
  now rewrite Hty, hashObject_matches.
Qed.

(** X1: the five constructors from data never return nil. The digest the
    package computes is always forty lowercase hexadecimal digits, so the
    validation of [NewIdentifier], whose error they drop, cannot fail: the
    result is the identifier of the object type with that digest and an empty
    map of qualifiers. *)
Theorem from_metadata_never_nil (S : sort.LongSlices) :
  (forall data,
      swhid.FromContent data
      = Some (coreIdentifier "cnt" (ComputeContentHash data)))
  /\ (forall entries,
      swhid.FromDirectory entries
      = Some (coreIdentifier "dir" (directory.ComputeDirectoryHash entries)))
  /\ (forall meta,
      swhid.FromRevisionMetadata meta
      = Some (coreIdentifier "rev" (revision.ComputeRevisionHash meta)))
  /\ (forall meta,
      swhid.FromReleaseMetadata meta
      = Some (coreIdentifier "rel" (release.ComputeReleaseHash meta)))
  /\ (forall branches,
      swhid.FromSnapshotBranches branches
      = Some (coreIdentifier "snp" (snapshot.ComputeSnapshotHash branches))).
Proof.
  repeat split; intros;
    unfold swhid.FromContent, swhid.FromDirectory, swhid.FromRevisionMetadata,
      swhid.FromReleaseMetadata, swhid.FromSnapshotBranches,
      ComputeContentHash, directory.ComputeDirectoryHash,
      revision.ComputeRevisionHash, release.ComputeReleaseHash,
      snapshot.ComputeSnapshotHash;
    cbv zeta; now rewrite NewIdentifier_digest.
Qed.

Lemma Z_range_check (P : Z -> bool) (n : nat) :
  forallb (fun k => P (Z.of_nat k)) (seq 0 n) = true ->
  forall z, (0 <= z < Z.of_nat n)%Z -> P z = true.
Proof.
  intros Hall z Hz. rewrite forallb_forall in Hall.
  rewrite <- (Z2Nat.id z) by lia. apply Hall, in_seq. lia.
Qed.

Lemma lowerHex_value (c : ascii) :
  swhid.lowerHexDigit c = true ->
  exists n, hex.fromHexChar c = Some n /\ (0 <= n < 16)%Z /\ hex.digit n = c.
Proof.
  destruct c as [[] [] [] [] [] [] [] []]; intros Hc; try discriminate Hc;
    eexists; vm_compute; repeat split; discriminate.
Qed.

Lemma nibbles_byte (a b : Z) :
  (0 <= a < 16)%Z -> (0 <= b < 16)%Z ->
  Z.shiftr (Z_of_byte (byte_of_Z (Z.lor (Z.shiftl a 4) b))) 4 = a
  /\ Z.land (Z_of_byte (byte_of_Z (Z.lor (Z.shiftl a 4) b))) 15 = b.
Proof.
  intros Ha Hb.
  pose (P := fun a b : Z =>
    Z.eqb (Z.shiftr (Z_of_byte (byte_of_Z (Z.lor (Z.shiftl a 4) b))) 4) a
    && Z.eqb (Z.land (Z_of_byte (byte_of_Z (Z.lor (Z.shiftl a 4) b))) 15) b).
  assert (H : P a b = true).
  { apply (Z_range_check (fun b => P a b) 16); [|exact Hb].
    apply (Z_range_check (fun a => forallb (fun k => P a (Z.of_nat k)) (seq 0 16)) 16);
      [vm_compute; reflexivity|exact Ha]. }
  apply andb_prop in H as [H1 H2]. now apply Z.eqb_eq in H1, H2.
Qed.

Lemma lowerHex_pair (p q : ascii) :
  swhid.lowerHexDigit p = true -> swhid.lowerHexDigit q = true ->
  exists a b, hex.fromHexChar p = Some a /\ hex.fromHexChar q = Some b
    /\ hex.digit (Z.shiftr (Z_of_byte (byte_of_Z (Z.lor (Z.shiftl a 4) b))) 4) = p
    /\ hex.digit (Z.land (Z_of_byte (byte_of_Z (Z.lor (Z.shiftl a 4) b))) 15) = q.
Proof.
  intros (a & Ha & Hra & Hda)%lowerHex_value (b & Hb & Hrb & Hdb)%lowerHex_value.
  exists a, b. destruct (nibbles_byte a b Hra Hrb) as [-> ->]. now repeat split.
Qed.

Lemma DecodeString_lowerHex (n : nat) (s : string) :
  String.length s = 2 * n ->
  forallb swhid.lowerHexDigit (list_ascii_of_string s) = true ->
  exists bs, hex.DecodeString s = (bs, None) /\ length bs = n
             /\ hex.EncodeToString bs = s.
Proof.
  revert s. induction n as [|n IH]; intros s Hlen Hhex.
  - destruct s; [|discriminate]. now exists [].
  - destruct s as [|p [|q s]]; try (simpl in Hlen; lia).
    simpl in Hhex. apply andb_prop in Hhex as [Hp [Hq Hs]%andb_prop].
    destruct (IH s) as (bs & Hd & Hl & He); [simpl in Hlen; lia|exact Hs|].
    destruct (lowerHex_pair p q Hp Hq) as (a & b & Ha & Hb & Hp' & Hq').
    exists (byte_of_Z (Z.lor (Z.shiftl a 4) b) :: bs).
    cbn [hex.DecodeString hex.EncodeToString]. rewrite Ha, Hb, Hd, Hp', Hq', He, <- Hl.
    repeat split.
Qed.

Lemma DecodeString_object_hash (h : string) :
  swhid.hashRegex_MatchString h = true ->
  exists bs, hex.DecodeString h = (bs, None) /\ length bs = 20
             /\ hex.EncodeToString bs = h.
Proof.
  intros [Hlen Hhex]%andb_prop. apply Nat.eqb_eq in Hlen.
  now apply DecodeString_lowerHex.
Qed.

Lemma bytes_of_length (s : string) : length (bytes_of s) = String.length s.
Proof.
  unfold bytes_of, list_byte_of_string. rewrite length_map.
  induction s as [|c s IH]; simpl; [reflexivity|]. now rewrite IH.
Qed.

(** X2: a directory entry whose target is a valid object hash is written in
    full. The target decodes without error to twenty bytes that render back
    to the target, and the entry takes its permissions, a space, its name, a
    NUL and these twenty bytes. *)
Theorem directory_entry_valid_target (e : directory.DirectoryEntry) :
  swhid.hashRegex_MatchString (directory.Target e) = true ->
  exists hashBytes,
    hex.DecodeString (directory.Target e) = (hashBytes, None)
    /\ length hashBytes = 20
    /\ hex.EncodeToString hashBytes = directory.Target e
    /\ directory.entryBytes e
       = bytes_of (directory.Permissions e) ++ [x20] ++ bytes_of (directory.Name e)
         ++ [x00] ++ hashBytes
    /\ length (directory.entryBytes e)
       = String.length (directory.Permissions e) + String.length (directory.Name e) + 22.
Proof.
  intros Hh. destruct (DecodeString_object_hash _ Hh) as (bs & Hd & Hl & He).
  exists bs. unfold directory.entryBytes. rewrite Hd. cbn [fst].
  repeat split; try assumption.
  rewrite !length_app, !bytes_of_length, Hl. simpl. lia.
Qed.

Lemma directory_entry_valid_target_witness :
  exists hashBytes,
    hex.DecodeString helloBlobHash = (hashBytes, None)
    /\ length hashBytes = 20
    /\ hex.EncodeToString hashBytes = helloBlobHash
    /\ directory.entryBytes (fileEntry "hello.txt" helloBlobHash)
       = bytes_of "100644" ++ [x20] ++ bytes_of "hello.txt" ++ [x00] ++ hashBytes
    /\ length (directory.entryBytes (fileEntry "hello.txt" helloBlobHash)) = 6 + 9 + 22.
Proof.
  apply (directory_entry_valid_target (fileEntry "hello.txt" helloBlobHash)).
  vm_compute. reflexivity.
Defined.

(** X3: an entry that points at an object hashed by this package carries the
    SHA-1 of that object: decoding the digest gives back the twenty bytes of
    the sum over header and body, so a directory is a hash over the hashes of
    its children. *)
Theorem directory_entry_carries_sum (e : directory.DirectoryEntry)
    (kind : string) (body : list byte) :
  directory.Target e = hashObject kind body ->
  directory.entryBytes e
  = bytes_of (directory.Permissions e) ++ [x20] ++ bytes_of (directory.Name e) ++ [x00]
    ++ SHA1.Sum (bytes_of (objectHeader kind (length body)) ++ body).
Proof.
  intros Ht. unfold directory.entryBytes. rewrite Ht. unfold hashObject.
  now rewrite DecodeString_EncodeToString.
Qed.

Lemma directory_entry_carries_sum_witness :
  directory.entryBytes (fileEntry "hello.txt" (ComputeContentHash (bytes_of "hello")))
  = bytes_of "100644" ++ [x20] ++ bytes_of "hello.txt" ++ [x00]
    ++ SHA1.Sum (bytes_of (objectHeader "blob" 5) ++ bytes_of "hello").
Proof.
  apply (directory_entry_carries_sum
           (fileEntry "hello.txt" (ComputeContentHash (bytes_of "hello")))
           "blob" (bytes_of "hello")).
  reflexivity.
Defined.

Lemma computeTargetIdentifier_digest (b : snapshot.Branch) :
  In (snapshot.TargetType b) digestTargetTypes ->
  snapshot.computeTargetIdentifier b = fst (hex.DecodeString (snapshot.Target b)).
Proof.
  destruct b as [name ty target]. simpl.
  intros [<-|[<-|[<-|[<-|[<-|[]]]]]]; reflexivity.
Qed.

(** X4: what a branch of a snapshot contributes after its target type, a
    space, its name and a NUL. A target of one of the five digest types that
    is a valid object hash gives "20:" and its twenty bytes; an alias gives
    the length of the target name in bytes, a colon and the name; a dangling
    branch, or a branch of any other type, gives "0:" and nothing more. *)
Theorem snapshot_branch_target (b : snapshot.Branch) :
  (In (snapshot.TargetType b) digestTargetTypes ->
   swhid.hashRegex_MatchString (snapshot.Target b) = true ->
   exists hashBytes,
     hex.DecodeString (snapshot.Target b) = (hashBytes, None)
     /\ length hashBytes = 20
     /\ snapshot.serializeBranch b
        = bytes_of (snapshot.TargetType b) ++ [x20] ++ bytes_of (snapshot.Name b)
          ++ [x00] ++ bytes_of "20:" ++ hashBytes)
  /\ (snapshot.TargetType b = "alias" ->
      snapshot.serializeBranch b
      = bytes_of "alias" ++ [x20] ++ bytes_of (snapshot.Name b) ++ [x00]
        ++ bytes_of (itoa (Z.of_nat (String.length (snapshot.Target b))) +:+ ":")
        ++ bytes_of (snapshot.Target b))
  /\ (~ In (snapshot.TargetType b) digestTargetTypes ->
      snapshot.TargetType b <> "alias" ->
      snapshot.serializeBranch b
      = bytes_of (snapshot.TargetType b) ++ [x20] ++ bytes_of (snapshot.Name b)
        ++ [x00] ++ bytes_of "0:").
Proof.
  split; [|split].
  - intros Hty Hh. destruct (DecodeString_object_hash _ Hh) as (bs & Hd & Hl & _).
    exists bs. split; [exact Hd|]. split; [exact Hl|].
    unfold snapshot.serializeBranch.
    rewrite (computeTargetIdentifier_digest b Hty), Hd. cbn [fst]. now rewrite Hl.
  - unfold snapshot.serializeBranch, snapshot.computeTargetIdentifier.
    intros ->. cbn. rewrite bytes_of_length. reflexivity.
  - unfold snapshot.serializeBranch, snapshot.computeTargetIdentifier.
    intros Hty Halias. simpl in Hty.
    destruct (String.eqb_spec (snapshot.TargetType b) snapshot.BranchTargetContent) as [E|_];
      [exfalso; apply Hty; rewrite E; simpl; tauto|].
    destruct (String.eqb_spec (snapshot.TargetType b) snapshot.BranchTargetDirectory) as [E|_];
      [exfalso; apply Hty; rewrite E; simpl; tauto|].
    destruct (String.eqb_spec (snapshot.TargetType b) snapshot.BranchTargetRevision) as [E|_];
      [exfalso; apply Hty; rewrite E; simpl; tauto|].
    destruct (String.eqb_spec (snapshot.TargetType b) snapshot.BranchTargetRelease) as [E|_];
      [exfalso; apply Hty; rewrite E; simpl; tauto|].
    destruct (String.eqb_spec (snapshot.TargetType b) snapshot.BranchTargetSnapshot) as [E|_];
      [exfalso; apply Hty; rewrite E; simpl; tauto|].
    destruct (String.eqb_spec (snapshot.TargetType b) snapshot.BranchTargetAlias) as [E|_];
      [contradiction|].
    cbn [orb]. destruct (String.eqb _ snapshot.BranchTargetDangling); rewrite app_nil_r; reflexivity.
Qed.

Lemma snapshot_branch_target_witness :
  exists hashBytes,
    hex.DecodeString exampleHash = (hashBytes, None)
    /\ length hashBytes = 20
    /\ snapshot.serializeBranch (revisionBranch "refs/heads/main" exampleHash)
       = bytes_of "revision" ++ [x20] ++ bytes_of "refs/heads/main"
         ++ [x00] ++ bytes_of "20:" ++ hashBytes.
Proof.
  apply (proj1 (snapshot_branch_target (revisionBranch "refs/heads/main" exampleHash))).
  - simpl. tauto.
  - vm_compute. reflexivity.
Defined.

(** ** [NewIdentifier], [Parse] and [String] *)

Lemma Parse_Ok_intro (s ty h : string) :
  s <> "" -> coreFields s = ["swh"; "1"; ty; h] ->
  swhid.isValidObjectType ty = true ->
  swhid.hashRegex_MatchString h = true ->
  swhid.Parse s = Ok (parsed s ty h).
Proof.
  intros Hne Hf Hty Hh.
  pose proof (Parse_outcome s) as Hout.
  inversion Hout as [E|E1 E2|? ? ? ? E1 E2 E3|? ? ? E1 E2 E3|? ? E1 E2 E3
                     |? ? E1 E2 E3 E4|? ? E1 E2 E3 E4];
    try contradiction; rewrite Hf in *; simpl in *; try congruence.
Qed.

Lemma Parse_Ok_inv (s : string) (id : swhid.Identifier) :
  swhid.Parse s = Ok id ->
  s <> "" /\ coreFields s = ["swh"; "1"; swhid.IdObjectType id; swhid.ObjectHash id]
  /\ swhid.isValidObjectType (swhid.IdObjectType id) = true
  /\ swhid.hashRegex_MatchString (swhid.ObjectHash id) = true
  /\ id = parsed s (swhid.IdObjectType id) (swhid.ObjectHash id).
Proof.
  intros Hparse. pose proof (Parse_outcome s) as Hout. rewrite Hparse in Hout.
  inversion Hout as [| | | | | |ty h Hne Hf Hty Hh Heq]. subst id. simpl.
  now repeat split.
Qed.

(** X5: every identifier [Parse] returns passes the validation of
    [NewIdentifier]: its scheme is "swh", its version 1, and building an
    identifier from its object type, its hash and its qualifiers gives the
    same identifier back. *)
Theorem Parse_meets_NewIdentifier (s : string) (id : swhid.Identifier) :
  swhid.Parse s = Ok id ->
  swhid.IdScheme id = "swh" /\ swhid.Version id = 1%Z
  /\ swhid.NewIdentifier (swhid.IdObjectType id) (swhid.ObjectHash id)
       (Some (swhid.Qualifiers id)) = Ok id.
Proof.
  intros (_ & _ & Hty & Hh & Hid)%Parse_Ok_inv.
  destruct id as [scheme version ty h quals]. simpl in *.
  unfold parsed in Hid. injection Hid as -> -> _.
  unfold swhid.NewIdentifier. rewrite Hty, Hh. now repeat split.
Qed.

Lemma Parse_meets_NewIdentifier_witness :
  swhid.IdScheme (parsed canonicalExample "cnt" exampleHash) = "swh"
  /\ swhid.Version (parsed canonicalExample "cnt" exampleHash) = 1%Z
  /\ swhid.NewIdentifier "cnt" exampleHash
       (Some (swhid.Qualifiers (parsed canonicalExample "cnt" exampleHash)))
     = Ok (parsed canonicalExample "cnt" exampleHash).
Proof.
  apply (Parse_meets_NewIdentifier canonicalExample).
  vm_compute. reflexivity.
Defined.

Lemma Index_append_None (a b : string) (c : ascii) :
  strings.Index a c = None -> strings.Index b c = None ->
  strings.Index (a +:+ b) c = None.
Proof.
  intros Ha Hb. induction a as [|x a IH]; simpl in *; [exact Hb|].
  destruct (Ascii.eqb x c); [discriminate|].
  destruct (strings.Index a c); [discriminate|]. now rewrite IH.
Qed.

Lemma Index_cons_None (x : ascii) (s : string) (c : ascii) :
  strings.Index (String x s) c = None <-> x <> c /\ strings.Index s c = None.
Proof.
  simpl. destruct (Ascii.eqb_spec x c) as [->|Hx].
  - split; [discriminate|]. now intros [[] _].
  - destruct (strings.Index s c); simpl; split; try discriminate; try tauto.
    now intros [_ ?].
Qed.

Lemma lowerHex_without (h : string) (c : ascii) :
  forallb swhid.lowerHexDigit (list_ascii_of_string h) = true ->
  swhid.lowerHexDigit c = false ->
  strings.Index h c = None.
Proof.
  intros Hh Hc. induction h as [|x h IH]; [reflexivity|].
  simpl in Hh. apply andb_prop in Hh as [Hx Hh].
  apply Index_cons_None. split; [|now apply IH]. intros ->. congruence.
Qed.

Lemma objectType_without (ty : string) (c : ascii) :
  swhid.isValidObjectType ty = true ->
  c = ":"%char \/ c = ";"%char ->
  strings.Index ty c = None.
Proof.
  intros Hty%isValidObjectType_codes Hc. simpl in Hty.
  destruct Hty as [<-|[<-|[<-|[<-|[<-|[]]]]]]; destruct Hc as [->| ->]; reflexivity.
Qed.

(** The text of a core: no semicolon, and four fields. *)
Lemma core_text_fields (ty h : string) :
  strings.Index ty ":" = None -> strings.Index ty ";" = None ->
  strings.Index h ":" = None -> strings.Index h ";" = None ->
  strings.Index ("swh:1:" +:+ ty +:+ ":" +:+ h) ";" = None
  /\ strings.Split ("swh:1:" +:+ ty +:+ ":" +:+ h) ":" = ["swh"; "1"; ty; h].
Proof.
  intros Hty1 Hty2 Hh1 Hh2.
  change ("swh:1:" +:+ ty +:+ ":" +:+ h)
    with ("swh" +:+ String ":" ("1" +:+ String ":" (ty +:+ String ":" h))).
  split.
  - repeat (apply Index_append_None || (apply Index_cons_None; split; [discriminate|]));
      auto.
  - rewrite !Split_app_sep, (Split_no_sep ty), (Split_no_sep h) by assumption.
    reflexivity.
Qed.

Lemma CoreSWHID_fields (ty h : string) (quals : gmap string string) :
  swhid.isValidObjectType ty = true ->
  swhid.hashRegex_MatchString h = true ->
  let core := swhid.CoreSWHID
                {| swhid.IdScheme := swhid.Scheme; swhid.Version := swhid.SchemeVersion;
                   swhid.IdObjectType := ty; swhid.ObjectHash := h;
                   swhid.Qualifiers := quals |} in
  strings.Index core ";" = None
  /\ strings.Split core ":" = ["swh"; "1"; ty; h]
  /\ exists rest, core = String "s" rest.
Proof.
  intros Hty [_ Hh]%andb_prop core.
  destruct (core_text_fields ty h) as [H1 H2];
    [apply objectType_without; auto | apply objectType_without; auto
     | now apply lowerHex_without | now apply lowerHex_without | ].
  split; [exact H1|]. split; [exact H2|]. eexists. reflexivity.
Qed.

(** X6: the core of a parsed identifier is the text before the first
    semicolon, and parsing that core alone gives the same identifier with its
    qualifiers dropped. *)
Theorem Parse_core_part (s : string) (id : swhid.Identifier) :
  swhid.Parse s = Ok id ->
  swhid.CoreSWHID id = corePart s
  /\ swhid.Parse (swhid.CoreSWHID id) = Ok (swhid.WithQualifiers id ∅).
Proof.
  intros (Hne & Hf & Hty & Hh & Hid)%Parse_Ok_inv.
  destruct id as [scheme version ty h quals]. simpl in *.
  unfold parsed in Hid. injection Hid as -> -> _.
  assert (Hcore : swhid.CoreSWHID (parsed s ty h) = corePart s)
    by now apply CoreSWHID_parsed.
  unfold parsed in Hcore.
  split; [exact Hcore|]. unfold swhid.CoreSWHID in *. simpl in *. rewrite Hcore.
  rewrite (Parse_Ok_intro (corePart s) ty h);
    [| |now rewrite coreFields_corePart|exact Hty|exact Hh].
  - unfold parsed, swhid.WithQualifiers, qualifierParts, strings.Split.
    rewrite corePart_fst, fields_first_idem. reflexivity.
  - intros He. unfold coreFields in Hf. rewrite He in Hf. discriminate Hf.
Qed.

Lemma Parse_core_part_witness :
  swhid.CoreSWHID (parsed canonicalExample "cnt" exampleHash) = corePart canonicalExample
  /\ swhid.Parse (swhid.CoreSWHID (parsed canonicalExample "cnt" exampleHash))
     = Ok (swhid.WithQualifiers (parsed canonicalExample "cnt" exampleHash) ∅).
Proof.
  apply (Parse_core_part canonicalExample).
  vm_compute. reflexivity.
Defined.

Lemma fold_parseQualifier_mono (parts : list string) (m : gmap string string)
    (key : string) :
  is_Some (m !! key) -> is_Some (fold_left swhid.parseQualifier parts m !! key).
Proof.
  revert m. induction parts as [|part parts IH]; intros m Hm; [exact Hm|].
  simpl. apply IH. rewrite parseQualifier_segment.
  destruct (segment part) as [[k v]|]; [|exact Hm].
  destruct (decide (k = key)) as [->|Hk].
  - rewrite lookup_insert_eq. eauto.
  - now rewrite lookup_insert_ne.
Qed.

Lemma fold_parseQualifier_bound (parts : list string) (m : gmap string string)
    (part key value : string) :
  In part parts -> segment part = Some (key, value) ->
  is_Some (fold_left swhid.parseQualifier parts m !! key).
Proof.
  revert m. induction parts as [|p parts IH]; intros m Hin Hseg; [destruct Hin|].
  destruct Hin as [<-|Hin]; simpl.
  - apply fold_parseQualifier_mono. rewrite parseQualifier_segment, Hseg.
    rewrite lookup_insert_eq. eauto.
  - now apply IH.
Qed.

Lemma fold_parseQualifier_origin (parts : list string) (m : gmap string string)
    (key v : string) :
  fold_left swhid.parseQualifier parts m !! key = Some v ->
  m !! key = Some v
  \/ exists part value, In part parts /\ segment part = Some (key, value)
                        /\ v = swhid.decodeQualifierValue value.
Proof.
  revert m. induction parts as [|p parts IH]; intros m Hv; [now left|].
  simpl in Hv. apply IH in Hv as [Hv|(part & value & Hin & Hseg & ->)].
  - rewrite parseQualifier_segment in Hv.
    destruct (segment p) as [[k value]|] eqn:Hseg; [|now left].
    destruct (decide (k = key)) as [->|Hk].
    + rewrite lookup_insert_eq in Hv. injection Hv as <-.
      right. exists p, value. simpl. auto.
    + rewrite lookup_insert_ne in Hv by exact Hk. now left.
  - right. exists part, value. simpl. auto.
Qed.

(** X7: the qualifiers of a parsed identifier are those of the segments
    [key=value] after the core. A key is bound exactly when some segment
    carries it, and its value is the unescaped value of such a segment;
    empty parts and parts without an equals sign bind nothing. *)
Theorem Parse_qualifier_keys (s : string) (id : swhid.Identifier) (key : string) :
  swhid.Parse s = Ok id ->
  (is_Some (swhid.Qualifiers id !! key)
   <-> exists part value, In part (qualifierParts s) /\ segment part = Some (key, value))
  /\ (forall v, swhid.Qualifiers id !! key = Some v ->
        exists part value, In part (qualifierParts s) /\ segment part = Some (key, value)
                           /\ v = swhid.decodeQualifierValue value).
Proof.
  intros (_ & _ & _ & _ & Hid)%Parse_Ok_inv. rewrite Hid. simpl.
  assert (Hv : forall v,
             fold_left swhid.parseQualifier (qualifierParts s) ∅ !! key = Some v ->
             exists part value, In part (qualifierParts s)
                                /\ segment part = Some (key, value)
                                /\ v = swhid.decodeQualifierValue value).
  { intros v [Hv|Hv]%fold_parseQualifier_origin; [|exact Hv].
    rewrite lookup_empty in Hv. discriminate Hv. }
  split; [split|exact Hv].
  - intros [v (part & value & Hin & Hseg & _)%Hv]. eauto.
  - intros (part & value & Hin & Hseg). now apply (fold_parseQualifier_bound _ _ part key value).
Qed.

Lemma Parse_qualifier_keys_witness :
  (is_Some (swhid.Qualifiers (parsed canonicalExample "cnt" exampleHash) !! "path")
   <-> exists part value, In part (qualifierParts canonicalExample)
                          /\ segment part = Some ("path", value))
  /\ (forall v, swhid.Qualifiers (parsed canonicalExample "cnt" exampleHash) !! "path" = Some v ->
        exists part value, In part (qualifierParts canonicalExample)
                           /\ segment part = Some ("path", value)
                           /\ v = swhid.decodeQualifierValue value).
Proof.
  apply (Parse_qualifier_keys canonicalExample).
  vm_compute. reflexivity.
Defined.

(** ** [String] followed by [Parse] *)

Lemma encodeQualifierValue_without_semicolon (v : string) :
  strings.Index (swhid.encodeQualifierValue v) ";" = None.
Proof.
  induction v as [|c v IH]; [reflexivity|].
  rewrite encodeQualifierValue_cons. apply Index_append_None; [|exact IH].
  unfold escapeOf. destruct (Ascii.eqb_spec c "%"%char) as [->|Hp]; [reflexivity|].
  destruct (Ascii.eqb_spec c ";"%char) as [->|Hs]; [reflexivity|].
  apply Index_cons_None. now split.
Qed.

Lemma without_forallb (v : string) (c : ascii) :
  strings.Index v c = None ->
  forallb (fun x => negb (Ascii.eqb x c)) (list_ascii_of_string v) = true.
Proof.
  induction v as [|x v IH]; [reflexivity|].
  intros [Hx Hv]%Index_cons_None. simpl. rewrite (IH Hv), andb_true_r.
  now apply negb_true_iff, Ascii.eqb_neq.
Qed.

(** Cutting [key ++ sep ++ value] at the first separator gives the key and
    the value back when the key has no separator. *)
Lemma cut_at_first (key value : string) (sep : ascii) :
  strings.Index key sep = None ->
  strings.Index (key +:+ String sep value) sep = Some (String.length key)
  /\ slice_to (key +:+ String sep value) (String.length key) = key
  /\ slice_from (key +:+ String sep value) (String.length key + 1) = value.
Proof.
  intros Hkey. split; [|split].
  - induction key as [|x key IH]; simpl; [now rewrite Ascii.eqb_refl|].
    apply Index_cons_None in Hkey as [Hx Hkey].
    destruct (Ascii.eqb_spec x sep) as [|_]; [contradiction|].
    now rewrite (IH Hkey).
  - unfold slice_to. clear. induction key as [|x key IH]; simpl.
    + reflexivity.
    + now rewrite IH.
  - unfold slice_from. clear. induction key as [|x key IH]; simpl.
    + rewrite Nat.sub_0_r. apply substring_all.
    + exact IH.
Qed.

Lemma segment_append (key value : string) :
  strings.Index key "=" = None ->
  segment (key +:+ String "=" value) = Some (key, value).
Proof.
  intros Hkey. unfold segment.
  destruct (cut_at_first key value "=" Hkey) as (-> & -> & ->). reflexivity.
Qed.

Lemma formatQualifiers_written (visit : list (string * string))
    (quals : gmap string string) :
  swhid.formatQualifiers visit quals
  = strings.Join
      (map (fun kv => fst kv +:+ "=" +:+ swhid.encodeQualifierValue (snd kv))
           (writtenQualifiers visit quals)) ";".
Proof.
  rewrite formatQualifiers_parts. unfold writtenQualifiers.
  rewrite map_app. f_equal. f_equal.
  induction swhid.canonicalQualifierOrder as [|key keys IH]; [reflexivity|].
  cbn [flat_map]. rewrite map_app, IH. now destruct (quals !! key).
Qed.

Lemma rangeOrder_In (quals : gmap string string) (visit : list (string * string))
    (k v : string) :
  swhid.rangeOrder quals visit -> (In (k, v) visit <-> quals !! k = Some v).
Proof.
  intros Hvisit. rewrite <- list_elem_of_In, Hvisit. apply elem_of_map_to_list.
Qed.

Lemma writtenQualifiers_In (quals : gmap string string)
    (visit : list (string * string)) (k v : string) :
  swhid.rangeOrder quals visit ->
  (In (k, v) (writtenQualifiers visit quals) <-> quals !! k = Some v).
Proof.
  intros Hvisit. unfold writtenQualifiers. rewrite in_app_iff, in_flat_map, filter_In.
  rewrite (rangeOrder_In quals visit k v Hvisit). split.
  - intros [(key & _ & Hin)|[Hq _]]; [|exact Hq].
    destruct (quals !! key) as [value|] eqn:Hkey; [|destruct Hin].
    destruct Hin as [[= <- <-]|[]]. exact Hkey.
  - intros Hq. destruct (swhid.isCanonical k) eqn:Hc.
    + left. exists k. split; [now apply isCanonical_In|]. rewrite Hq. now left.
    + right. simpl. rewrite Hc. now split.
Qed.

Lemma NoDup_fst_filter {A B : Type} (P : A * B -> bool) (l : list (A * B)) :
  List.NoDup (map fst l) -> List.NoDup (map fst (List.filter P l)).
Proof.
  induction l as [|x l IH]; simpl; [auto|].
  intros [Hx Hl]%List.NoDup_cons_iff. destruct (P x); simpl; [|auto].
  apply List.NoDup_cons; [|auto].
  intros Hin. apply Hx. apply in_map_iff in Hin as (y & Hy & Hin).
  apply filter_In in Hin as [Hin _]. apply in_map_iff. eauto.
Qed.

Lemma writtenQualifiers_NoDup (quals : gmap string string)
    (visit : list (string * string)) :
  swhid.rangeOrder quals visit ->
  List.NoDup (map fst (writtenQualifiers visit quals)).
Proof.
  intros Hvisit. unfold writtenQualifiers. rewrite map_app.
  apply List.NoDup_app.
  - pose proof canonicalQualifierOrder_NoDup as Hnd.
    induction swhid.canonicalQualifierOrder as [|key keys IH]; simpl; [constructor|].
    apply List.NoDup_cons_iff in Hnd as [Hkey Hnd]. rewrite map_app.
    destruct (quals !! key); simpl; [|auto].
    apply List.NoDup_cons; [|auto].
    intros Hin. apply Hkey. apply in_map_iff in Hin as ([k v] & <- & Hin).
    apply in_flat_map in Hin as (key' & Hkey' & Hin).
    destruct (quals !! key'); [|destruct Hin].
    destruct Hin as [[= <- <-]|[]]. exact Hkey'.
  - apply NoDup_fst_filter. apply NoDup_ListNoDup.
    unfold swhid.rangeOrder in Hvisit. rewrite Hvisit.
    apply NoDup_fst_map_to_list.
  - intros k Hin1 Hin2.
    apply in_map_iff in Hin1 as ([k1 v1] & <- & Hin1).
    apply in_map_iff in Hin2 as ([k2 v2] & Hk & Hin2). simpl in Hk. subst k2.
    apply in_flat_map in Hin1 as (key & Hkey & Hin1).
    destruct (quals !! key); [|destruct Hin1].
    destruct Hin1 as [[= <- <-]|[]].
    apply filter_In in Hin2 as [_ Hc]. simpl in Hc.
    apply isCanonical_In in Hkey. rewrite Hkey in Hc. discriminate Hc.
Qed.

Lemma omap_segment_written (kvs : list (string * string)) :
  (forall k v, In (k, v) kvs -> strings.Index k "=" = None) ->
  omap segment
    (map (fun kv => fst kv +:+ "=" +:+ swhid.encodeQualifierValue (snd kv)) kvs)
  = map (fun kv => (fst kv, swhid.encodeQualifierValue (snd kv))) kvs.
Proof.
  induction kvs as [|[k v] kvs IH]; intros Hkeys; [reflexivity|].
  csimpl. change (k +:+ "=" +:+ swhid.encodeQualifierValue v)
    with (k +:+ String "=" (swhid.encodeQualifierValue v)).
  rewrite segment_append by (apply (Hkeys k v); now left). csimpl.
  f_equal. apply IH. intros k' v' Hin. apply (Hkeys k' v'). now right.
Qed.

Lemma Split_Join_plain (parts : list string) (sep : ascii) :
  (forall part, In part parts -> strings.Index part sep = None) ->
  parts <> [] ->
  strings.Split (strings.Join parts (String sep "")) sep = parts.
Proof.
  intros Hparts Hne. destruct parts as [|e rest]; [contradiction|].
  rewrite Split_Join. clear Hne.
  induction (e :: rest) as [|p ps IH]; [reflexivity|].
  simpl. rewrite (Split_no_sep p) by (apply Hparts; now left).
  simpl. f_equal. apply IH. intros part Hin. apply Hparts. now right.
Qed.

(** What [Parse] reads back from the qualifiers [String] has written. *)
Lemma parse_written_qualifiers (quals : gmap string string)
    (visit : list (string * string)) :
  (forall k v, quals !! k = Some v ->
     strings.Index k ";" = None /\ strings.Index k "=" = None
     /\ strings.Index v "+" = None) ->
  swhid.rangeOrder quals visit ->
  fold_left swhid.parseQualifier
    (strings.Split (swhid.formatQualifiers visit quals) ";") ∅ = quals.
Proof.
  intros Hq Hvisit. rewrite formatQualifiers_written.
  set (kvs := writtenQualifiers visit quals).
  set (parts := map (fun kv => fst kv +:+ "=" +:+ swhid.encodeQualifierValue (snd kv)) kvs).
  assert (Hin : forall k v, In (k, v) kvs <-> quals !! k = Some v)
    by (intros k v; now apply writtenQualifiers_In).
  assert (Hfold : fold_left swhid.parseQualifier (strings.Split (strings.Join parts ";") ";") ∅
                  = fold_left swhid.parseQualifier parts ∅).
  { destruct parts as [|p ps] eqn:Hparts; [reflexivity|].
    rewrite <- Hparts. rewrite Split_Join_plain; [reflexivity| |rewrite Hparts; discriminate].
    intros part ([k v] & <- & Hkv)%in_map_iff. simpl.
    apply Hin, Hq in Hkv as (Hk & _ & _).
    apply Index_append_None; [exact Hk|].
    apply Index_cons_None. split; [discriminate|].
    apply encodeQualifierValue_without_semicolon. }
  rewrite Hfold.
  assert (Hseg : omap segment parts
                 = map (fun kv => (fst kv, swhid.encodeQualifierValue (snd kv))) kvs).
  { apply omap_segment_written. intros k v Hkv. now apply Hin, Hq in Hkv as (_ & Hk & _). }
  assert (Hkeys : map fst (omap segment parts) = map fst kvs).
  { rewrite Hseg, map_map. reflexivity. }
  apply map_eq. intros k. destruct (quals !! k) as [v|] eqn:Hk.
  - rewrite (fold_parseQualifier_lookup parts ∅ k (swhid.encodeQualifierValue v)).
    + rewrite decode_encode_without_plus; [reflexivity|].
      apply without_forallb. now apply Hq in Hk as (_ & _ & Hv).
    + rewrite Hkeys. now apply writtenQualifiers_NoDup.
    + rewrite Hseg. apply in_map_iff. exists (k, v). split; [reflexivity|].
      now apply Hin.
  - apply fold_parseQualifier_unbound. rewrite Hkeys.
    intros ([k' v] & Hk' & Hkv)%in_map_iff. simpl in Hk'. subst k'.
    apply Hin in Hkv. congruence.
Qed.

(** What [String] writes for a validated identifier is read back by
    [Parse]. *)
Lemma written_identifier_parses (ty h : string) (quals : gmap string string)
    (visit : list (string * string)) :
  swhid.isValidObjectType ty = true ->
  swhid.hashRegex_MatchString h = true ->
  (forall k v, quals !! k = Some v ->
     strings.Index k ";" = None /\ strings.Index k "=" = None
     /\ strings.Index v "+" = None) ->
  swhid.rangeOrder quals visit ->
  swhid.Parse
    (swhid.Identifier_String visit
       {| swhid.IdScheme := swhid.Scheme; swhid.Version := swhid.SchemeVersion;
          swhid.IdObjectType := ty; swhid.ObjectHash := h;
          swhid.Qualifiers := quals |})
  = Ok {| swhid.IdScheme := swhid.Scheme; swhid.Version := swhid.SchemeVersion;
          swhid.IdObjectType := ty; swhid.ObjectHash := h;
          swhid.Qualifiers := quals |}.
Proof.
  intros Hty Hh Hq Hvisit.
  destruct (CoreSWHID_fields ty h quals Hty Hh) as (Hsemi & Hfields & rest & Hs).
  unfold swhid.Identifier_String. cbn [swhid.Qualifiers].
  set (id := {| swhid.IdScheme := swhid.Scheme; swhid.Version := swhid.SchemeVersion;
                swhid.IdObjectType := ty; swhid.ObjectHash := h;
                swhid.Qualifiers := quals |}) in *.
  destruct (Nat.eqb_spec (size quals) 0) as [Hsize|_].
  - apply map_size_empty_iff in Hsize.
    rewrite (Parse_Ok_intro (swhid.CoreSWHID id) ty h); try assumption.
    + unfold parsed, qualifierParts. rewrite (Split_no_sep _ _ Hsemi).
      subst id. rewrite Hsize. reflexivity.
    + rewrite Hs. discriminate.
    + unfold coreFields, corePart. now rewrite (Split_no_sep _ _ Hsemi).
  - cbv zeta.
    assert (Hsplit : strings.Split
                       (swhid.CoreSWHID id +:+ ";" +:+ swhid.formatQualifiers visit quals) ";"
                     = swhid.CoreSWHID id
                       :: strings.Split (swhid.formatQualifiers visit quals) ";").
    { change (swhid.CoreSWHID id +:+ ";" +:+ swhid.formatQualifiers visit quals)
        with (swhid.CoreSWHID id +:+ String ";" (swhid.formatQualifiers visit quals)).
      now rewrite Split_app_sep, (Split_no_sep _ _ Hsemi). }
    rewrite (Parse_Ok_intro _ ty h); try assumption.
    + unfold parsed, qualifierParts. rewrite Hsplit. cbn [tail].
      rewrite parse_written_qualifiers; [reflexivity|exact Hq|exact Hvisit].
    + rewrite Hs. discriminate.
    + unfold coreFields, corePart. rewrite Hsplit. exact Hfields.
Qed.

(** X8: an identifier that [NewIdentifier] accepts is read back by [Parse]
    from what [String] writes, in whatever order the map of qualifiers is
    visited, provided no key has a semicolon or an equals sign and no value
    has a plus sign. Semicolons and percent signs in values are escaped and
    restored. *)
Theorem String_then_Parse (ty h : string) (quals : gmap string string)
    (id : swhid.Identifier) (visit : list (string * string)) :
  swhid.NewIdentifier ty h (Some quals) = Ok id ->
  (forall k v, quals !! k = Some v ->
     without ";" k /\ without "=" k /\ without "+" v) ->
  swhid.rangeOrder quals visit ->
  swhid.Parse (swhid.Identifier_String visit id) = Ok id.
Proof.
  unfold swhid.NewIdentifier, without.
  destruct (swhid.isValidObjectType ty) eqn:Hty; [|discriminate].
  destruct (swhid.hashRegex_MatchString h) eqn:Hh; [|discriminate].
  simpl. intros [= <-] Hq Hvisit. now apply written_identifier_parses.
Qed.

Lemma escapedOrigin_lookup (k v : string) :
  escapedOrigin !! k = Some v -> k = "origin" /\ v = "https://example.com/a;b%".
Proof. unfold escapedOrigin. now intros [<- <-]%lookup_singleton_Some. Qed.

Lemma escapedOrigin_range :
  swhid.rangeOrder escapedOrigin [("origin", "https://example.com/a;b%")].
Proof. unfold swhid.rangeOrder, escapedOrigin. now rewrite map_to_list_singleton. Qed.

Lemma String_then_Parse_witness :
  swhid.Parse
    (swhid.Identifier_String [("origin", "https://example.com/a;b%")] escapedExample)
  = Ok escapedExample.
Proof.
  apply (String_then_Parse "cnt" exampleHash escapedOrigin).
  - vm_compute. reflexivity.
  - intros k v [-> ->]%escapedOrigin_lookup. repeat split.
  - exact escapedOrigin_range.
Defined.

(** ** [String]: the order of the visit *)

Lemma Permutation_short {A : Type} (l l' : list A) :
  l ≡ₚ l' -> length l <= 1 -> l = l'.
Proof.
  intros Hperm Hlen. destruct l as [|a [|b l]]; [| |simpl in Hlen; lia].
  - symmetry. now apply Permutation_nil.
  - symmetry. now apply Permutation_length_1_inv.
Qed.

(** X9: when at most one key outside the canonical list is bound, [String]
    writes the same text in whatever order the map of qualifiers is visited:
    only the keys outside the canonical list are written in the order of the
    visit. *)
Theorem String_order_free (id : swhid.Identifier) (visit visit' : list (string * string)) :
  (forall k k', is_Some (swhid.Qualifiers id !! k) -> is_Some (swhid.Qualifiers id !! k') ->
     swhid.isCanonical k = false -> swhid.isCanonical k' = false -> k = k') ->
  swhid.rangeOrder (swhid.Qualifiers id) visit ->
  swhid.rangeOrder (swhid.Qualifiers id) visit' ->
  swhid.Identifier_String visit id = swhid.Identifier_String visit' id.
Proof.
  intros Hone Hvisit Hvisit'. unfold swhid.Identifier_String.
  destruct (size (swhid.Qualifiers id) =? 0)%nat; [reflexivity|]. cbv zeta.
  rewrite !formatQualifiers_written. unfold writtenQualifiers.
  set (other := fun kv : string * string => negb (swhid.isCanonical (fst kv))).
  assert (Hsame : List.filter other visit = List.filter other visit'); [|now rewrite Hsame].
  apply Permutation_short.
  - assert (Hperm : visit ≡ₚ visit').
    { unfold swhid.rangeOrder in *. now rewrite Hvisit, Hvisit'. }
    clear -Hperm. induction Hperm as [|x l l' _ IH|x y l|l l' l'' _ IH1 _ IH2]; simpl.
    + reflexivity.
    + destruct (other x); [now constructor|exact IH].
    + destruct (other x), (other y); try reflexivity. apply perm_swap.
    + now transitivity (List.filter other l').
  - pose proof (writtenQualifiers_NoDup _ _ Hvisit) as Hnd.
    unfold writtenQualifiers in Hnd. rewrite map_app in Hnd.
    apply List.NoDup_app_remove_l in Hnd. fold other in Hnd.
    assert (Hall : forall kv kv', In kv (List.filter other visit) ->
                                  In kv' (List.filter other visit) -> fst kv = fst kv').
    { intros [k v] [k' v'] [Hin Hc]%filter_In [Hin' Hc']%filter_In.
      unfold other in Hc, Hc'. simpl in *. apply negb_true_iff in Hc, Hc'.
      apply (rangeOrder_In _ _ _ _ Hvisit) in Hin, Hin'.
      apply Hone; eauto. }
    destruct (List.filter other visit) as [|kv [|kv' l]]; simpl; [lia|lia|].
    exfalso. simpl in Hnd. apply List.NoDup_cons_iff in Hnd as [Hnd _].
    apply Hnd. left. symmetry. apply Hall; simpl; auto.
Qed.

Lemma twoQualifiers_range :
  swhid.rangeOrder twoQualifiers
    [("custom", "1"); ("origin", "https://example.com/a;b%")].
Proof.
  unfold swhid.rangeOrder, twoQualifiers.
  rewrite map_to_list_insert by reflexivity.
  now rewrite escapedOrigin_range.
Qed.

Lemma String_order_free_witness :
  swhid.Identifier_String
    [("custom", "1"); ("origin", "https://example.com/a;b%")] twoQualifiersExample
  = swhid.Identifier_String
      [("origin", "https://example.com/a;b%"); ("custom", "1")] twoQualifiersExample.
Proof.
  apply (String_order_free twoQualifiersExample).
  - intros k k' [v Hk] [v' Hk'] Hc Hc'. simpl in Hk, Hk'. unfold twoQualifiers in Hk, Hk'.
    apply lookup_insert_Some in Hk as [[<- _]|[_ [-> _]%escapedOrigin_lookup]];
      [|discriminate Hc].
    apply lookup_insert_Some in Hk' as [[<- _]|[_ [-> _]%escapedOrigin_lookup]];
      [reflexivity|discriminate Hc'].
  - exact twoQualifiers_range.
  - unfold swhid.rangeOrder. rewrite <- twoQualifiers_range. apply perm_swap.
Defined.

(** ** [Equal] *)

Lemma qualifierOr_Some (quals : gmap string string) (k v : string) :
  v <> "" -> swhid.qualifierOr quals k = v -> quals !! k = Some v.
Proof.
  unfold swhid.qualifierOr. destruct (quals !! k); intros Hv <-; [reflexivity|].
  contradiction.
Qed.

(** X10: [Equal] accepts an identifier with the same core and the same map of
    qualifiers, in whatever order the loop visits the map and whatever the
    values are; in particular every identifier equals itself. *)
Theorem Equal_same (id other : swhid.Identifier) (visit : list (string * string)) :
  swhid.CoreSWHID id = swhid.CoreSWHID other ->
  swhid.Qualifiers id = swhid.Qualifiers other ->
  swhid.rangeOrder (swhid.Qualifiers id) visit ->
  swhid.Equal visit id (Some other) = true.
Proof.
  intros Hcore Hquals Hvisit.
  unfold swhid.Equal. rewrite <- Hcore, <- Hquals.
  rewrite String.eqb_refl, Nat.eqb_refl. simpl.
  apply forallb_forall. intros [k v] Hin.
  apply (rangeOrder_In _ _ _ _ Hvisit) in Hin. simpl.
  unfold swhid.qualifierOr. rewrite Hin. apply String.eqb_refl.
Qed.

Lemma Equal_same_witness :
  swhid.Equal [("custom", "1"); ("origin", "https://example.com/a;b%")]
    twoQualifiersExample (Some twoQualifiersExample) = true.
Proof.
  apply (Equal_same twoQualifiersExample twoQualifiersExample).
  - reflexivity.
  - reflexivity.
  - exact twoQualifiers_range.
Defined.

(** X11: when no qualifier of the receiver has the empty string as its
    value, [Equal] holds only for an identifier with the same core and the
    same map of qualifiers. *)
Theorem Equal_true_inv (id other : swhid.Identifier) (visit : list (string * string)) :
  (forall k, swhid.Qualifiers id !! k <> Some "") ->
  swhid.rangeOrder (swhid.Qualifiers id) visit ->
  swhid.Equal visit id (Some other) = true ->
  swhid.CoreSWHID id = swhid.CoreSWHID other
  /\ swhid.Qualifiers id = swhid.Qualifiers other.
Proof.
  intros Hne Hvisit. unfold swhid.Equal.
  destruct (String.eqb_spec (swhid.CoreSWHID id) (swhid.CoreSWHID other)) as [Hcore|];
    [|discriminate].
  destruct (Nat.eqb_spec (size (swhid.Qualifiers id)) (size (swhid.Qualifiers other)))
    as [Hsize|]; [|discriminate].
  simpl. intros Hall. split; [exact Hcore|].
  apply map_subseteq_size_eq; [|lia].
  apply map_subseteq_spec. intros k v Hk.
  rewrite forallb_forall in Hall.
  apply (rangeOrder_In _ _ _ _ Hvisit) in Hk as Hin.
  apply Hall in Hin. simpl in Hin. apply String.eqb_eq in Hin.
  apply qualifierOr_Some; [|exact Hin]. intros ->. now apply (Hne k).
Qed.

Lemma Equal_true_inv_witness :
  swhid.CoreSWHID escapedExample = swhid.CoreSWHID escapedExample
  /\ swhid.Qualifiers escapedExample = swhid.Qualifiers escapedExample.
Proof.
  apply (Equal_true_inv escapedExample escapedExample
           [("origin", "https://example.com/a;b%")]).
  - intros k [_ [=]]%escapedOrigin_lookup.
  - exact escapedOrigin_range.
  - vm_compute. reflexivity.
Defined.

(** With empty values [Equal] compares a missing key like a bound one: it
    holds from [emptyValues] to [otherValues], whose maps differ, and fails
    in the other direction. *)
Example Equal_empty_values :
  swhid.Equal [("a", ""); ("b", "")] emptyValues (Some otherValues) = true
  /\ swhid.Equal [("a", ""); ("c", "x")] otherValues (Some emptyValues) = false
  /\ swhid.Qualifiers emptyValues <> swhid.Qualifiers otherValues.
Proof.
  split; [|split]; [vm_compute; reflexivity..|].
  intros Heq. assert (H : swhid.Qualifiers emptyValues !! "c" = Some "x").
  { rewrite Heq. vm_compute. reflexivity. }
  vm_compute in H. discriminate H.
Qed.

(** ** [Parse] and [NewIdentifier] side by side *)

(** X12: on a core text [swh:1:<type>:<hash>] whose type and hash have
    neither a colon nor a semicolon, [Parse] does what [NewIdentifier] does
    on the type and the hash: the same identifier without qualifiers, or the
    same error, the object type being checked before the hash. *)
Theorem Parse_as_NewIdentifier (ty h : string) :
  without ":" ty -> without ";" ty -> without ":" h -> without ";" h ->
  swhid.Parse ("swh:1:" +:+ ty +:+ ":" +:+ h) = swhid.NewIdentifier ty h None.
Proof.
  unfold without. intros Hty1 Hty2 Hh1 Hh2.
  destruct (core_text_fields ty h Hty1 Hty2 Hh1 Hh2) as [Hsemi Hfields].
  unfold swhid.Parse, swhid.NewIdentifier. cbv zeta.
  rewrite (Split_no_sep _ _ Hsemi). cbn [hd tail]. rewrite Hfields.
  cbn [length nth Nat.eqb negb String.eqb Ascii.eqb Bool.eqb swhid.Scheme fold_left].
  cbn [String.append String.eqb].
  destruct (swhid.isValidObjectType ty); [|reflexivity].
  destruct (swhid.hashRegex_MatchString h); reflexivity.
Qed.

Lemma Parse_as_NewIdentifier_witness :
  swhid.Parse ("swh:1:" +:+ "cnt" +:+ ":" +:+ exampleHash)
  = swhid.NewIdentifier "cnt" exampleHash None.
Proof.
  apply (Parse_as_NewIdentifier "cnt" exampleHash); reflexivity.
Defined.

(** ** [Parse], [String] and [Parse] again *)

Lemma Split_parts_without_sep (s : string) (sep : ascii) :
  Forall (fun part => strings.Index part sep = None) (strings.Split s sep).
Proof.
  induction s as [|c s IH]; [now repeat constructor|].
  rewrite Split_cons. rewrite (Split_hd_tl s sep) in IH.
  apply Forall_cons_iff in IH as [Hhd Htl].
  destruct (Ascii.eqb_spec c sep) as [->|Hc].
  - constructor; [reflexivity|]. rewrite (Split_hd_tl s sep). now constructor.
  - constructor; [|exact Htl]. apply Index_cons_None. now split.
Qed.

Lemma Index_append_None_l (a b : string) (c : ascii) :
  strings.Index (a +:+ b) c = None -> strings.Index a c = None.
Proof.
  induction a as [|x a IH]; [reflexivity|]. cbn [String.append].
  intros [Hx Ha]%Index_cons_None. apply Index_cons_None. auto.
Qed.

Lemma segment_key_without (part key value : string) :
  segment part = Some (key, value) -> strings.Index key "=" = None.
Proof.
  unfold segment. revert key value. induction part as [|c part IH]; intros key value;
    [discriminate|].
  cbn [strings.Index]. destruct (Ascii.eqb_spec c "="%char) as [->|Hc].
  - intros [= <- _]. reflexivity.
  - destruct (strings.Index part "=") as [idx|] eqn:Hidx; [|discriminate].
    cbn [option_map]. intros [= <- _].
    unfold slice_to. cbn [substring]. apply Index_cons_None. split; [exact Hc|].
    now apply (IH _ (slice_from part (idx + 1))).
Qed.

(** X13: what [String] writes for a parsed identifier parses to the same
    identifier, provided no value of a qualifier has a plus sign: the keys
    [Parse] binds never have a semicolon or an equals sign. So [String] after
    [Parse] gives a normal form of the identifier string. *)
Theorem Parse_String_Parse (s : string) (id : swhid.Identifier)
    (visit : list (string * string)) :
  swhid.Parse s = Ok id ->
  (forall k v, swhid.Qualifiers id !! k = Some v -> without "+" v) ->
  swhid.rangeOrder (swhid.Qualifiers id) visit ->
  swhid.Parse (swhid.Identifier_String visit id) = Ok id.
Proof.
  intros (_ & _ & Hty & Hh & Hid)%Parse_Ok_inv Hplus Hvisit.
  destruct id as [scheme version ty h quals]. simpl in *.
  unfold parsed in Hid. injection Hid as -> -> Hquals.
  apply written_identifier_parses; try assumption.
  intros k v Hk. split; [|split]; [| |now apply (Hplus k v)].
  - rewrite Hquals in Hk.
    apply fold_parseQualifier_origin in Hk as [Hk|(part & value & Hin & Hseg & _)];
      [rewrite lookup_empty in Hk; discriminate|].
    pose proof (Split_parts_without_sep s ";") as Hparts.
    rewrite Split_core_parts in Hparts. apply Forall_cons_iff in Hparts as [_ Hparts].
    rewrite Forall_forall in Hparts. apply list_elem_of_In, Hparts in Hin.
    rewrite (segment_render _ _ _ Hseg) in Hin. now apply Index_append_None_l in Hin.
  - rewrite Hquals in Hk.
    apply fold_parseQualifier_origin in Hk as [Hk|(part & value & Hin & Hseg & _)];
      [rewrite lookup_empty in Hk; discriminate|].
    now apply (segment_key_without part k value).
Qed.

Lemma Parse_String_Parse_witness :
  swhid.Parse
    (swhid.Identifier_String [("origin", "a")] (parsed untidyExample "cnt" exampleHash))
  = Ok (parsed untidyExample "cnt" exampleHash).
Proof.
  apply (Parse_String_Parse untidyExample).
  - vm_compute. reflexivity.
  - intros k v Hk. vm_compute in Hk.
    change (({[ "origin" := "a" ]} : gmap string string) !! k = Some v) in Hk.
    apply lookup_singleton_Some in Hk as [_ <-]. reflexivity.
  - unfold swhid.rangeOrder.
    change (swhid.Qualifiers (parsed untidyExample "cnt" exampleHash))
      with ({[ "origin" := "a" ]} : gmap string string).
    now rewrite map_to_list_singleton.
Defined.

(** ** Input that is already sorted *)

Section SortedInput.

Context {S : sort.LongSlices} (HS : sort.contract S).
Context {A : Type} (less : A -> A -> bool) (key : A -> string).
Hypothesis less_key : forall a b, less a b = String.ltb (key a) (key b).

Lemma strictlySorted_key_inj (l : list A) (a b : A) :
  strictlySorted less l -> In a l -> In b l -> key a = key b -> a = b.
Proof.
  intros Hs. induction Hs as [|x l Hs IH Hx]; intros Ha Hb Hk; [destruct Ha|].
  rewrite Forall_forall in Hx.
  destruct Ha as [<-|Ha], Hb as [<-|Hb]; auto.
  - apply list_elem_of_In, Hx in Hb. rewrite less_key, Hk, ltb_irrefl in Hb. discriminate.
  - apply list_elem_of_In, Hx in Ha. rewrite less_key, Hk, ltb_irrefl in Ha. discriminate.
Qed.

Lemma strictlySorted_notAfter (l : list A) :
  strictlySorted less l -> StronglySorted (sort.notAfter less) l.
Proof.
  intros Hs. induction Hs as [|x l Hs IH Hx]; constructor; [exact IH|].
  eapply Forall_impl; [exact Hx|]. intros b Hb. unfold sort.notAfter.
  simpl in Hb. rewrite less_key in Hb |- *. now apply ltb_asym.
Qed.

Lemma Slice_strictlySorted (l : list A) :
  strictlySorted less l -> sort.Slice less l = l.
Proof.
  intros Hs.
  apply (StronglySorted_unique_strong (sort.notAfter less)).
  - intros a b Ha Hb Hab Hba. unfold sort.notAfter in *. rewrite less_key in Hab, Hba.
    apply (strictlySorted_key_inj l); [exact Hs| |now apply list_elem_of_In|].
    + apply list_elem_of_In in Ha.
      now rewrite (Slice_Permutation HS less key less_key) in Ha.
    + now apply ltb_connex.
  - now apply (Slice_sorted HS less key).
  - now apply strictlySorted_notAfter.
  - now apply (Slice_Permutation HS less key).
Qed.

End SortedInput.

(** X14: entries given in strictly increasing order of their sort keys, and
    branches given in strictly increasing order of their names, are written
    in the order given: sorting changes nothing, so the body hashed is the
    concatenation of the encodings of the elements as they come. *)
Theorem sorted_input_kept (S : sort.LongSlices) :
  sort.contract S ->
  (forall entries : list directory.DirectoryEntry,
      strictlySorted directory.less entries ->
      directory.serializeEntries entries = concat (map directory.entryBytes entries))
  /\ (forall branches : list snapshot.Branch,
      strictlySorted snapshot.less branches ->
      snapshot.serializeBranches branches
      = concat (map snapshot.serializeBranch branches)).
Proof.
  intros HS. split.
  - intros entries Hs. rewrite serializeEntries_concat.
    now rewrite (Slice_strictlySorted HS directory.less directory.SortKey
                   (fun a b => eq_refl) entries Hs).
  - intros branches Hs. rewrite serializeBranches_concat.
    now rewrite (Slice_strictlySorted HS snapshot.less snapshot.Name
                   (fun a b => eq_refl) branches Hs).
Qed.

Lemma sorted_input_kept_witness :
  directory.serializeEntries (S := sort.insertionOnly)
    [fileEntry "a.txt" helloBlobHash; dirEntry "a" emptyTreeHash]
  = concat (map directory.entryBytes
              [fileEntry "a.txt" helloBlobHash; dirEntry "a" emptyTreeHash]).
Proof.
  apply (proj1 (sorted_input_kept sort.insertionOnly insertionOnly_contract)).
  repeat constructor.
Defined.

(** ** [formatTimezone] *)

Lemma pad02_twoDigits (n : Z) :
  (0 <= n < 100)%Z -> swhid.pad02 n = twoDigits n.
Proof.
  intros Hn. apply String.eqb_eq.
  apply (Z_range_check (fun n => String.eqb (swhid.pad02 n) (twoDigits n)) 100);
    [vm_compute; reflexivity|lia].
Qed.

(** X15: for an offset of less than one hundred hours either way,
    [formatTimezone] writes the sign, then the whole hours and the remaining
    whole minutes of the absolute offset in two digits each: five characters.
    Seconds are dropped; an offset of zero gets the plus sign. *)
Theorem formatTimezone_digits (offset : Z) :
  (-360000 < offset < 360000)%Z ->
  swhid.formatTimezone offset
  = (if (offset <? 0)%Z then "-" else "+")
    +:+ twoDigits (Z.abs offset / 3600) +:+ twoDigits (Z.abs offset mod 3600 / 60)
  /\ String.length (swhid.formatTimezone offset) = 5.
Proof.
  intros Hoff.
  assert (Habs : (if (offset <? 0)%Z then swhid.negInt offset else offset) = Z.abs offset).
  { unfold swhid.negInt. destruct (Z.ltb_spec offset 0).
    - rewrite Z.mod_small by lia. lia.
    - lia. }
  assert (Heq : swhid.formatTimezone offset
                = (if (offset <? 0)%Z then "-" else "+")
                  +:+ twoDigits (Z.abs offset / 3600)
                  +:+ twoDigits (Z.abs offset mod 3600 / 60)).
  { unfold swhid.formatTimezone. cbv zeta. rewrite Habs.
    rewrite Z.rem_mod_nonneg by lia.
    rewrite !Z.quot_div_nonneg by (try lia; apply Z.mod_pos_bound; lia).
    rewrite !pad02_twoDigits; [reflexivity| |].
    - pose proof (Z.mod_pos_bound (Z.abs offset) 3600 ltac:(lia)).
      split; [apply Z.div_pos; lia|]. apply Z.div_lt_upper_bound; lia.
    - split; [apply Z.div_pos; lia|]. apply Z.div_lt_upper_bound; lia. }
  split; [exact Heq|]. rewrite Heq. now destruct (offset <? 0)%Z.
Qed.

Lemma formatTimezone_digits_witness :
  swhid.formatTimezone (-19800)%Z = "-" +:+ twoDigits 5 +:+ twoDigits 30
  /\ String.length (swhid.formatTimezone (-19800)%Z) = 5.
Proof.
  apply (formatTimezone_digits (-19800)%Z). lia.
Defined.

(** ** [hasPrefix] *)

(** X16: the helper [hasPrefix] of the directory walker agrees with
    [strings.HasPrefix]: it holds exactly when the string is the prefix
    followed by some rest, and a string shorter than the prefix is never
    sliced. *)
Theorem hasPrefix_spec (s pre : string) :
  swhid.hasPrefix s pre = strings.HasPrefix s pre
  /\ (swhid.hasPrefix s pre = true <-> exists rest, s = pre +:+ rest).
Proof.
  assert (H1 : swhid.hasPrefix s pre = strings.HasPrefix s pre).
  { unfold swhid.hasPrefix, strings.HasPrefix, slice_to.
    revert s. induction pre as [|c pre IH]; intros s.
    - destruct s; reflexivity.
    - destruct s as [|d s]; [reflexivity|].
      specialize (IH s). simpl String.length. simpl String.prefix.
      change (S (String.length s) <? S (String.length pre))%nat
        with (String.length s <? String.length pre)%nat.
      destruct (String.length s <? String.length pre)%nat.
      + destruct (ascii_dec c d); [now rewrite <- IH|reflexivity].
      + simpl. destruct (ascii_dec c d) as [->|Hcd].
        * now rewrite Ascii.eqb_refl, IH.
        * apply Ascii.eqb_neq in Hcd. rewrite Ascii.eqb_sym in Hcd. now rewrite Hcd. }
  split; [exact H1|]. rewrite H1. unfold strings.HasPrefix. clear H1.
  revert s. induction pre as [|c pre IH]; intros s.
  - split; [intros _; now exists s|intros _; now destruct s].
  - destruct s as [|d s]; simpl.
    + split; [discriminate|]. intros [rest Hrest]. discriminate Hrest.
    + destruct (ascii_dec c d) as [->|Hcd].
      * rewrite IH. split; intros [rest Hrest]; exists rest;
          [now rewrite Hrest|now injection Hrest].
      * split; [discriminate|]. intros [rest [= Hd _]]. congruence.
Qed.

(** ** The flag [-q] of the command *)

Lemma SplitN2_segment (value : string) :
  main.SplitN2 value "="
  = match segment value with
    | Some (k, v) => [k; v]
    | None => [value]
    end.
Proof. unfold main.SplitN2, segment. now destruct (strings.Index value "="). Qed.

(** X17: the flag [-q] splits its argument at the first equals sign. An
    argument [key=value] whose key has no equals sign binds the key to the
    value, which may itself contain equals signs, and replaces an earlier
    binding of the key; an argument without an equals sign is rejected and
    the flags are left as they were. *)
Theorem Set_splits_at_first_equals (q : gmap string string) :
  (forall key value, without "=" key ->
     main.Set_ q (key +:+ "=" +:+ value) = Ok (<[key := value]> q))
  /\ (forall arg, without "=" arg -> exists msg, main.Set_ q arg = Err msg).
Proof.
  unfold without, main.Set_. split.
  - intros key value Hkey. rewrite SplitN2_segment.
    change (key +:+ "=" +:+ value) with (key +:+ String "=" value).
    now rewrite segment_append.
  - intros arg Harg. rewrite SplitN2_segment. unfold segment. rewrite Harg.
    eexists. reflexivity.
Qed.

Lemma Set_splits_at_first_equals_witness :
  main.Set_ escapedOrigin ("lines" +:+ "=" +:+ "9-15=x")
  = Ok (<["lines" := "9-15=x"]> escapedOrigin).
Proof.
  apply (proj1 (Set_splits_at_first_equals escapedOrigin)). reflexivity.
Defined.

(** ** [parseExtraHeaders] on the text of a revision or a release *)

Lemma dropCR_without (s : string) : strings.Index s CR = None -> bufio.dropCR s = s.
Proof.
  induction s as [|c s IH]; [reflexivity|].
  intros [Hc Hs]%Index_cons_None. simpl. destruct s as [|d s].
  - destruct (Ascii.eqb_spec c CR); [contradiction|reflexivity].
  - now rewrite (IH Hs).
Qed.

Lemma scan_app (A B : list string) :
  Forall (fun raw => bufio.fits raw = true) A -> B <> [] ->
  bufio.scan (A ++ B) = map bufio.dropCR A ++ bufio.scan B.
Proof.
  intros HA HB. induction HA as [|raw A Hraw HA IH]; [reflexivity|].
  cbn [app map bufio.scan]. rewrite Hraw, IH.
  destruct (A ++ B) eqn:E; [|reflexivity].
  apply app_eq_nil in E as [_ ->]. contradiction.
Qed.

Lemma Split_without (s : string) (sep c : ascii) :
  strings.Index s c = None ->
  Forall (fun part => strings.Index part c = None) (strings.Split s sep).
Proof.
  induction s as [|x s IH]; [intros _; now repeat constructor|].
  intros [Hx Hs]%Index_cons_None. specialize (IH Hs).
  rewrite Split_cons. rewrite (Split_hd_tl s sep) in IH.
  apply Forall_cons_iff in IH as [Hhd Htl].
  destruct (Ascii.eqb x sep).
  - constructor; [reflexivity|]. rewrite (Split_hd_tl s sep). now constructor.
  - constructor; [|exact Htl]. apply Index_cons_None. now split.
Qed.

Lemma ReplaceAll_without (s : string) (old : ascii) (new : string) :
  strings.Index s old = None -> strings.ReplaceAll s old new = s.
Proof.
  induction s as [|c s IH]; [reflexivity|].
  intros [Hc Hs]%Index_cons_None. simpl.
  destruct (Ascii.eqb_spec c old); [contradiction|]. now rewrite (IH Hs).
Qed.

Lemma Split_escapeNewlines (v : string) :
  strings.Split (revision.escapeNewlines v) LF
  = hd "" (strings.Split v LF) :: map (String " "%char) (tl (strings.Split v LF)).
Proof.
  unfold revision.escapeNewlines.
  induction v as [|c v IH]; [reflexivity|].
  simpl strings.ReplaceAll. rewrite (Split_cons c v).
  destruct (Ascii.eqb_spec c LF) as [->|Hc].
  - simpl String.append. rewrite Split_cons, Ascii.eqb_refl.
    rewrite Split_cons. change (Ascii.eqb " " LF) with false. cbv iota.
    rewrite IH. cbn [hd tl map]. now rewrite (Split_hd_tl v LF) at 3.
  - simpl String.append. rewrite Split_cons.
    destruct (Ascii.eqb_spec c LF) as [|_]; [contradiction|].
    rewrite IH. reflexivity.
Qed.

Lemma Join_app_head (a b : string) (rest : list string) (sep : string) :
  strings.Join ((a +:+ b) :: rest) sep = a +:+ strings.Join (b :: rest) sep.
Proof. destruct rest; simpl; [reflexivity|]. now rewrite append_assoc. Qed.

Lemma itoa_plain (z : Z) (c : ascii) :
  c = LF \/ c = CR -> strings.Index (itoa z) c = None.
Proof.
  intros Hc. unfold itoa.
  assert (Hu : forall d, strings.Index (NilEmpty.string_of_uint d) c = None).
  { induction d as [|d IHd|d IHd|d IHd|d IHd|d IHd|d IHd|d IHd|d IHd|d IHd|d IHd];
      [reflexivity|..];
      cbn [NilEmpty.string_of_uint]; apply Index_cons_None;
      (split; [destruct Hc as [-> | ->]; discriminate|exact IHd]). }
  assert (Hz : forall d, strings.Index (NilZero.string_of_uint d) c = None).
  { intros d. unfold NilZero.string_of_uint. destruct d; try apply Hu.
    apply Index_cons_None. split; [destruct Hc as [-> | ->]; discriminate|reflexivity]. }
  destruct (Z.to_int z) as [d|d]; cbn [NilZero.string_of_int]; [apply Hz|].
  apply Index_cons_None. split; [destruct Hc as [-> | ->]; discriminate|apply Hz].
Qed.

Section HeaderBlock.

Variable standardHeaders : list string.

Lemma HasPrefix_word (key rest : string) :
  key <> "" -> strings.Index key " " = None ->
  strings.HasPrefix (key +:+ String " "%char rest) " " = false.
Proof.
  intros Hne Hkey. destruct key as [|c key]; [contradiction|].
  apply Index_cons_None in Hkey as [Hc _]. unfold strings.HasPrefix.
  cbn [String.append String.prefix].
  destruct (ascii_dec " " c) as [E|_]; [now subst c|reflexivity].
Qed.

Lemma word_nonempty (key rest : string) : key +:+ String " "%char rest <> "".
Proof. now destruct key. Qed.

Lemma step_standard (headers : list (string * string)) (line : string) :
  standardLine standardHeaders line -> swhid.parseHeaderLine standardHeaders (headers, true) line = (headers, true).
Proof.
  intros (key & rest & -> & Hne & Hkey & Hin). unfold swhid.parseHeaderLine.
  destruct (String.eqb_spec (key +:+ String " "%char rest) "") as [E|_];
    [now apply word_nonempty in E|].
  simpl negb. cbv iota. rewrite (HasPrefix_word key rest Hne Hkey).
  destruct (cut_at_first key rest " " Hkey) as (-> & -> & _).
  apply existsb_eqb_In in Hin. now rewrite Hin.
Qed.

Lemma fold_standard (headers : list (string * string)) (lines : list string) :
  Forall (standardLine standardHeaders) lines ->
  fold_left (swhid.parseHeaderLine standardHeaders) lines (headers, true) = (headers, true).
Proof.
  induction 1 as [|line lines Hline _ IH]; [reflexivity|].
  cbn [fold_left]. now rewrite step_standard.
Qed.

Lemma fold_message (lines : list string) (headers : list (string * string)) :
  fold_left (swhid.parseHeaderLine standardHeaders) lines (headers, false) = (headers, false).
Proof.
  induction lines as [|line lines IH]; [reflexivity|].
  cbn [fold_left].
  replace (swhid.parseHeaderLine standardHeaders (headers, false) line)
    with (headers, false); [exact IH|].
  unfold swhid.parseHeaderLine. now destruct (String.eqb line "").
Qed.

Lemma appendToLast_snoc (headers : list (string * string)) (key value suffix : string) :
  swhid.appendToLast (headers ++ [(key, value)]) suffix
  = headers ++ [(key, value +:+ suffix)].
Proof.
  induction headers as [|h headers IH]; [reflexivity|].
  simpl. rewrite IH. now destruct (headers ++ [(key, value)]) eqn:E;
    [destruct headers; discriminate E|].
Qed.

Lemma fold_continuation (conts : list string) (headers : list (string * string))
    (key value : string) :
  fold_left (swhid.parseHeaderLine standardHeaders) (map (String " "%char) conts) (headers ++ [(key, value)], true)
  = (headers ++ [(key, strings.Join (value :: conts) (String LF ""))], true).
Proof.
  revert value. induction conts as [|c conts IH]; intros value; [reflexivity|].
  cbn [map fold_left].
  assert (Hstep : swhid.parseHeaderLine standardHeaders
                    (headers ++ [(key, value)], true) (String " " c)
                  = (headers ++ [(key, value +:+ String LF c)], true)).
  { unfold swhid.parseHeaderLine.
    cbn [String.eqb negb]. unfold strings.HasPrefix. cbn [String.prefix].
    destruct (ascii_dec " " " ") as [_|E]; [|contradiction].
    assert (Hp : String.prefix "" c = true) by now destruct c.
    rewrite Hp. rewrite length_app. cbn [length].
    replace (0 <? length headers + 1)%nat with true by (symmetry; apply Nat.ltb_lt; lia).
    rewrite appendToLast_snoc.
    replace (slice_from (String " " c) 1) with c; [reflexivity|].
    unfold slice_from. cbn [String.length substring Nat.sub].
    rewrite Nat.sub_0_r. symmetry. apply substring_all. }
  rewrite Hstep, IH. f_equal. f_equal. f_equal. f_equal.
  rewrite (Join_cons value c conts).
  replace (value +:+ String LF c) with ((value +:+ String LF "") +:+ c)
    by (now rewrite append_assoc).
  now rewrite Join_app_head, append_assoc.
Qed.

Lemma fold_header (headers : list (string * string)) (key value : string) :
  key <> "" -> strings.Index key " " = None -> strings.Index key LF = None ->
  ~ In key standardHeaders ->
  fold_left (swhid.parseHeaderLine standardHeaders) (strings.Split (revision.formatHeaderLine key value) LF) (headers, true)
  = (headers ++ [(key, value)], true).
Proof.
  intros Hne Hsp Hlf Hstd. unfold revision.formatHeaderLine. cbv zeta.
  change (key +:+ " " +:+ revision.escapeNewlines value)
    with (key +:+ String " " (revision.escapeNewlines value)).
  assert (Hsplit : strings.Split (key +:+ String " " (revision.escapeNewlines value)) LF
                   = (key +:+ String " " (hd "" (strings.Split value LF)))
                     :: map (String " "%char) (tl (strings.Split value LF))).
  { replace (key +:+ String " " (revision.escapeNewlines value))
      with ((key +:+ " ") +:+ revision.escapeNewlines value)
      by (now rewrite append_assoc).
    rewrite Split_app_no_sep by (now apply Index_append_None).
    rewrite Split_escapeNewlines. cbn [hd tl]. now rewrite append_assoc. }
  rewrite Hsplit. cbn [fold_left].
  assert (Hfirst : swhid.parseHeaderLine standardHeaders (headers, true) (key +:+ String " " (hd "" (strings.Split value LF)))
                   = (headers ++ [(key, hd "" (strings.Split value LF))], true)).
  { unfold swhid.parseHeaderLine.
    destruct (String.eqb_spec (key +:+ String " " (hd "" (strings.Split value LF))) "")
      as [E|_]; [now apply word_nonempty in E|].
    simpl negb. cbv iota. rewrite (HasPrefix_word key _ Hne Hsp).
    destruct (cut_at_first key (hd "" (strings.Split value LF)) " " Hsp) as (-> & -> & ->).
    destruct (existsb (String.eqb key) standardHeaders) eqn:E; [|reflexivity].
    now apply existsb_eqb_In in E. }
  rewrite Hfirst, fold_continuation. rewrite <- Split_hd_tl. now rewrite Join_Split.
Qed.

End HeaderBlock.

Lemma Join_without (elems : list string) (sep c : ascii) :
  c <> sep -> Forall (fun e => strings.Index e c = None) elems ->
  strings.Index (strings.Join elems (String sep "")) c = None.
Proof.
  intros Hsep. induction 1 as [|e elems He _ IH]; [reflexivity|].
  destruct elems as [|e' elems]; [exact He|].
  rewrite Join_cons. apply Index_append_None; [exact He|].
  cbn [String.append]. apply Index_cons_None. split; [congruence|exact IH].
Qed.

Lemma escapeNewlines_without_CR (v : string) :
  strings.Index v CR = None -> strings.Index (revision.escapeNewlines v) CR = None.
Proof.
  unfold revision.escapeNewlines. induction v as [|c v IH]; [reflexivity|].
  intros [Hc Hv]%Index_cons_None. cbn [strings.ReplaceAll].
  apply Index_append_None; [|now apply IH].
  destruct (Ascii.eqb c LF); [reflexivity|]. apply Index_cons_None. now split.
Qed.

Lemma map_dropCR (lines : list string) :
  Forall (fun line => strings.Index line CR = None) lines ->
  map bufio.dropCR lines = lines.
Proof.
  induction 1 as [|line lines Hline _ IH]; [reflexivity|].
  simpl. now rewrite dropCR_without, IH.
Qed.

Lemma fold_headers (standardHeaders : list string) (headers acc : list (string * string)) :
  readable standardHeaders headers ->
  fold_left (swhid.parseHeaderLine standardHeaders)
    (concat (map (fun h => strings.Split (revision.formatHeaderLine (fst h) (snd h)) LF)
                 headers))
    (acc, true)
  = (acc ++ headers, true).
Proof.
  revert acc. induction headers as [|[k v] headers IH]; intros acc Hr.
  - now rewrite app_nil_r.
  - cbn [map concat fst snd]. rewrite fold_left_app.
    destruct (Hr k v (or_introl eq_refl)) as (Hne & Hsp & [Hlf _] & Hstd & _).
    rewrite (fold_header standardHeaders acc k v Hne Hsp Hlf Hstd).
    rewrite IH; [now rewrite <- app_assoc|].
    intros k' v' Hin. apply Hr. now right.
Qed.

Lemma concat_Split_plain (lines : list string) (sep : ascii) :
  Forall (fun line => strings.Index line sep = None) lines ->
  concat (map (fun line => strings.Split line sep) lines) = lines.
Proof.
  induction 1 as [|line lines Hline _ IH]; [reflexivity|].
  cbn [map concat]. now rewrite (Split_no_sep line sep Hline), IH.
Qed.

(** The extra headers read from a text made of standard header lines, the
    lines of the extra headers, an empty line and a message. *)
Lemma parse_header_block (standardHeaders : list string) (first : string)
    (pre : list string) (headers : list (string * string)) (message : string) :
  Forall (fun line => standardLine standardHeaders line /\ plain line) (first :: pre) ->
  readable standardHeaders headers ->
  linesFit (strings.Join
              ((first :: pre)
               ++ map (fun h => revision.formatHeaderLine (fst h) (snd h)) headers)
              (String LF "")) ->
  swhid.parseExtraHeaders
    (strings.Join
       ((first :: pre) ++ map (fun h => revision.formatHeaderLine (fst h) (snd h)) headers)
       (String LF "")
     +:+ String LF (if String.eqb message "" then "" else String LF message))
    standardHeaders
  = headers.
Proof.
  intros Hpre Hr Hfit.
  set (fmt := fun h : string * string => revision.formatHeaderLine (fst h) (snd h)) in *.
  set (T := strings.Join ((first :: pre) ++ map fmt headers) (String LF "")) in *.
  assert (Hcr : strings.Index T CR = None).
  { apply Join_without; [discriminate|]. apply Forall_app. split.
    - eapply Forall_impl; [exact Hpre|]. now intros line [_ [_ H]].
    - apply Forall_forall. intros line ([k v] & <- & Hin)%list_elem_of_In%in_map_iff.
      destruct (Hr k v Hin) as (_ & _ & [_ Hk] & _ & Hv).
      unfold fmt, revision.formatHeaderLine. cbn [fst snd].
      apply Index_append_None; [exact Hk|]. cbn [String.append].
      apply Index_cons_None. split; [discriminate|]. now apply escapeNewlines_without_CR. }
  assert (Hlines : strings.Split T LF
                   = (first :: pre)
                     ++ concat (map (fun h => strings.Split (fmt h) LF) headers)).
  { unfold T. cbn [app]. rewrite Split_Join. change (first :: pre ++ map fmt headers)
      with ((first :: pre) ++ map fmt headers).
    rewrite map_app, concat_app, map_map.
    rewrite concat_Split_plain; [reflexivity|].
    eapply Forall_impl; [exact Hpre|]. now intros line [_ [H _]]. }
  unfold swhid.parseExtraHeaders, bufio.Lines.
  rewrite Split_app_sep.
  rewrite scan_app; [|exact Hfit|rewrite Split_hd_tl; discriminate].
  rewrite map_dropCR by now apply Split_without.
  rewrite fold_left_app, Hlines, fold_left_app.
  rewrite fold_standard by (eapply Forall_impl; [exact Hpre|]; now intros line [H _]).
  unfold fmt. rewrite (fold_headers standardHeaders headers [] Hr). cbn [app].
  destruct (String.eqb message "").
  - reflexivity.
  - rewrite Split_cons, Ascii.eqb_refl. rewrite (Split_hd_tl message LF).
    cbn [bufio.scan]. change (bufio.fits "") with true. cbv iota.
    cbn [bufio.dropCR fold_left].
    change (swhid.parseHeaderLine standardHeaders (headers, true) "")
      with (headers, false).
    now rewrite fold_message.
Qed.

Lemma revision_text (m : revision.RevisionMetadata) :
  string_of (revision.serializeRevision m)
  = strings.Join (revision.headerLines m) (String LF "")
    +:+ String LF (if String.eqb (revision.Message m) "" then ""
                   else String LF (revision.Message m)).
Proof.
  unfold revision.serializeRevision, string_of, bytes_of.
  rewrite string_of_list_byte_of_string.
  destruct (String.eqb (revision.Message m) ""); simpl.
  - reflexivity.
  - now rewrite append_assoc.
Qed.

Lemma plain_append (a b : string) : plain a -> plain b -> plain (a +:+ b).
Proof. intros [? ?] [? ?]. split; now apply Index_append_None. Qed.

Lemma plain_timezone (tz : string) :
  plain tz -> plain (if String.eqb tz "" then "+0000" else tz).
Proof. intros Htz. destruct (String.eqb tz ""); [now split|exact Htz]. Qed.

Lemma plain_itoa (z : Z) : plain (itoa z).
Proof. split; apply itoa_plain; auto. Qed.

Lemma escapeNewlines_plain (s : string) : plain s -> revision.escapeNewlines s = s.
Proof. intros [Hlf _]. now apply ReplaceAll_without. Qed.

(** The line of a person: [<key> <person> <timestamp> <timezone>]. *)
Lemma person_line (standardHeaders : list string) (key person tz : string) (ts : Z) :
  In key standardHeaders -> key <> "" -> without " " key -> plain key ->
  plain person -> plain tz ->
  standardLine standardHeaders
    (key +:+ " " +:+ revision.escapeNewlines person +:+ " " +:+ itoa ts +:+ " "
     +:+ (if String.eqb tz "" then "+0000" else tz))
  /\ plain (key +:+ " " +:+ revision.escapeNewlines person +:+ " " +:+ itoa ts +:+ " "
            +:+ (if String.eqb tz "" then "+0000" else tz)).
Proof.
  intros Hin Hne Hsp Hkey Hperson Htz. rewrite (escapeNewlines_plain person Hperson).
  split.
  - exists key, (person +:+ " " +:+ itoa ts +:+ " "
                 +:+ (if String.eqb tz "" then "+0000" else tz)).
    now repeat split.
  - repeat apply plain_append; try (now split); auto using plain_itoa, plain_timezone.
Qed.

Lemma word_line (standardHeaders : list string) (key rest : string) :
  In key standardHeaders -> key <> "" -> without " " key -> plain key -> plain rest ->
  standardLine standardHeaders (key +:+ " " +:+ rest) /\ plain (key +:+ " " +:+ rest).
Proof.
  intros Hin Hne Hsp Hkey Hrest. split.
  - exists key, rest. now repeat split.
  - repeat apply plain_append; try (now split); auto.
Qed.

(** X18: reading the text of a revision gives back its extra headers. When
    the standard fields are single lines, every extra header has a key that
    is a non-empty word other than [tree], [parent], [author] and [committer],
    no value has a carriage return and every header line is shorter than the
    buffer of the scanner, [parseExtraHeaders] on the serialized revision
    returns the extra headers as they were, values of several lines
    included, whatever the message is. *)
Theorem revision_headers_read_back (meta : revision.RevisionMetadata) :
  revisionReadable meta ->
  swhid.parseExtraHeaders (string_of (revision.serializeRevision meta))
    swhid.commitStandardHeaders
  = revision.ExtraHeaders meta.
Proof.
  intros (Hdir & Hparents & Hauthor & Hatz & Hcommitter & Hctz & Hr & Hfit).
  rewrite revision_text.
  assert (Hlines : revision.headerLines meta
    = (("tree " +:+ revision.Directory meta)
       :: (map (fun parent => "parent " +:+ parent) (revision.Parents meta)
           ++ ["author " +:+ revision.escapeNewlines (revision.Author meta) +:+ " "
               +:+ itoa (revision.AuthorTimestamp meta) +:+ " "
               +:+ (if String.eqb (revision.AuthorTimezone meta) "" then "+0000"
                    else revision.AuthorTimezone meta);
               "committer " +:+ revision.escapeNewlines (revision.Committer meta) +:+ " "
               +:+ itoa (revision.CommitterTimestamp meta) +:+ " "
               +:+ (if String.eqb (revision.CommitterTimezone meta) "" then "+0000"
                    else revision.CommitterTimezone meta)]))
      ++ map (fun h => revision.formatHeaderLine (fst h) (snd h))
             (revision.ExtraHeaders meta)).
  { unfold revision.headerLines. cbv zeta. rewrite !fold_left_snoc.
    cbn [app]. rewrite <- !app_assoc. reflexivity. }
  rewrite Hlines in *.
  apply parse_header_block; [|exact Hr|exact Hfit].
  constructor; [apply (word_line _ "tree"); simpl; auto; try discriminate; now split|].
  apply Forall_app. split.
  - apply Forall_forall. intros line (parent & <- & Hin)%list_elem_of_In%in_map_iff.
    apply (word_line _ "parent"); simpl; auto; try discriminate; now split.
  - constructor; [|constructor; [|constructor]].
    + apply (person_line _ "author"); simpl; auto; try discriminate; now split.
    + apply (person_line _ "committer"); simpl; auto; try discriminate; now split.
Qed.

Lemma linesFit_check (text : string) :
  forallb bufio.fits (textLines text) = true -> linesFit text.
Proof.
  intros Hall. apply Forall_forall. intros raw Hin%list_elem_of_In.
  rewrite forallb_forall in Hall. now apply Hall.
Qed.

Lemma signedRevision_readable : revisionReadable signedRevision.
Proof.
  unfold revisionReadable, plain, without.
  split; [now split|]. split.
  { intros parent [<-|[]]. now split. }
  do 4 (split; [now split|]). split.
  - intros key value [[= <- <-]|[[= <- <-]|[]]]; repeat split; try discriminate;
      simpl; intuition discriminate.
  - apply linesFit_check. vm_compute. reflexivity.
Qed.

Lemma revision_headers_read_back_witness :
  swhid.parseExtraHeaders (string_of (revision.serializeRevision signedRevision))
    swhid.commitStandardHeaders
  = revision.ExtraHeaders signedRevision.
Proof.
  apply (revision_headers_read_back signedRevision).
  exact signedRevision_readable.
Defined.

Lemma GitType_plain (t : release.ReleaseTarget) : plain (release.GitType t).
Proof.
  unfold release.GitType.
  repeat match goal with
         | |- context [if ?b then _ else _] => destruct b
         end; now split.
Qed.

(** X19: reading the text of a release gives back its extra headers, under
    the same conditions as for a revision, the standard headers being
    [object], [type], [tag] and [tagger]; the tagger line may be absent. *)
Theorem release_headers_read_back (meta : release.ReleaseMetadata) :
  releaseReadable meta ->
  swhid.parseExtraHeaders (string_of (release.serializeRelease meta))
    swhid.tagStandardHeaders
  = release.ExtraHeaders meta.
Proof.
  intros (Hhash & Hname & Hauthor & Htz & Hr & Hfit).
  rewrite release_text.
  assert (Hlines : release.headerLines meta
    = (("object " +:+ release.Hash (release.Target meta))
       :: (["type " +:+ release.GitType (release.Target meta);
            "tag " +:+ revision.escapeNewlines (release.Name meta)]
           ++ (if String.eqb (release.Author meta) "" then []
               else ["tagger " +:+ revision.escapeNewlines (release.Author meta) +:+ " "
                     +:+ itoa (release.AuthorTimestamp meta) +:+ " "
                     +:+ (if String.eqb (release.AuthorTimezone meta) "" then "+0000"
                          else release.AuthorTimezone meta)])))
      ++ map (fun h => revision.formatHeaderLine (fst h) (snd h))
             (release.ExtraHeaders meta)).
  { unfold release.headerLines. cbv zeta. rewrite fold_left_snoc.
    now destruct (String.eqb (release.Author meta) ""). }
  rewrite Hlines in *.
  apply parse_header_block; [|exact Hr|exact Hfit].
  constructor; [apply (word_line _ "object"); simpl; auto; try discriminate; now split|].
  constructor;
    [apply (word_line _ "type"); simpl; auto using GitType_plain; try discriminate;
     now split|].
  constructor.
  { rewrite (escapeNewlines_plain _ Hname).
    apply (word_line _ "tag"); simpl; auto; try discriminate; now split. }
  destruct (String.eqb (release.Author meta) ""); constructor; [|constructor].
  apply (person_line _ "tagger"); simpl; auto; try discriminate; now split.
Qed.

Lemma signedRelease_readable : releaseReadable signedRelease.
Proof.
  unfold releaseReadable, plain, without.
  do 4 (split; [now split|]). split.
  - intros key value [[= <- <-]|[]]; repeat split; try discriminate;
      simpl; intuition discriminate.
  - apply linesFit_check. vm_compute. reflexivity.
Qed.

Lemma release_headers_read_back_witness :
  swhid.parseExtraHeaders (string_of (release.serializeRelease signedRelease))
    swhid.tagStandardHeaders
  = release.ExtraHeaders signedRelease.
Proof.
  apply (release_headers_read_back signedRelease).
  exact signedRelease_readable.
Defined.

(** Without these conditions the headers can be read back differently: a
    carriage return that ends a value is dropped with the end of the line,
    and an extra header named like a standard one is skipped. *)
Example extra_headers_not_read_back :
  swhid.parseExtraHeaders
    ("tree " +:+ emptyTreeHash +:+ String LF ("note done" +:+ String CR (String LF "")))
    swhid.commitStandardHeaders
  = [("note", "done")]
  /\ swhid.parseExtraHeaders
       ("tree " +:+ emptyTreeHash +:+ String LF ("author again" +:+ String LF ""))
       swhid.commitStandardHeaders
     = [].
Proof. split; vm_compute; reflexivity. Qed.

(** ** [parseExtraHeaders] on any text *)

Lemma first_word (line : string) (idx : nat) :
  strings.Index line " " = Some idx ->
  strings.HasPrefix line " " = false ->
  slice_to line idx <> "" /\ strings.Index (slice_to line idx) " " = None.
Proof.
  unfold slice_to, strings.HasPrefix. revert idx.
  induction line as [|c line IH]; intros idx; [discriminate|].
  cbn [strings.Index String.prefix].
  destruct (Ascii.eqb_spec c " "%char) as [->|Hc].
  - destruct (ascii_dec " " " ") as [_|E]; [|contradiction].
    assert (Hp : String.prefix "" line = true) by now destruct line.
    rewrite Hp. discriminate.
  - destruct (strings.Index line " ") as [i|] eqn:Hi; [|discriminate].
    cbn [option_map]. intros [= <-] _. cbn [substring].
    split; [discriminate|]. apply Index_cons_None. split; [exact Hc|].
    clear -Hi. revert i Hi. induction line as [|d line IH]; intros i; [discriminate|].
    cbn [strings.Index]. destruct (Ascii.eqb_spec d " "%char) as [->|Hd].
    + intros [= <-]. reflexivity.
    + destruct (strings.Index line " ") as [j|]; [|discriminate].
      cbn [option_map]. intros [= <-]. cbn [substring].
      apply Index_cons_None. split; [exact Hd|]. now apply IH.
Qed.

Lemma appendToLast_keys (headers : list (string * string)) (suffix : string) :
  map fst (swhid.appendToLast headers suffix) = map fst headers.
Proof.
  induction headers as [|h [|h' headers] IH]; [reflexivity..|].
  cbn [swhid.appendToLast map]. f_equal. exact IH.
Qed.

Lemma parseHeaderLine_keys (standardHeaders : list string)
    (state : list (string * string) * bool) (line key : string) :
  In key (map fst (fst (swhid.parseHeaderLine standardHeaders state line))) ->
  In key (map fst (fst state))
  \/ (key <> "" /\ strings.Index key " " = None /\ ~ In key standardHeaders).
Proof.
  destruct state as [headers inHeaders]. unfold swhid.parseHeaderLine.
  destruct (String.eqb line ""); [now left|].
  destruct inHeaders; cbn [negb]; [|now left].
  destruct (strings.HasPrefix line " ") eqn:Hp.
  - destruct (0 <? length headers)%nat; [|now left].
    cbn [fst]. rewrite appendToLast_keys. now left.
  - destruct (strings.Index line " ") as [idx|] eqn:Hidx; [|now left].
    destruct (existsb (String.eqb (slice_to line idx)) standardHeaders) eqn:Hstd;
      [now left|].
    cbn [fst]. rewrite map_app, in_app_iff. intros [Hin|[<-|[]]]; [now left|].
    right. destruct (first_word line idx Hidx Hp) as [Hne Hsp].
    split; [exact Hne|]. split; [exact Hsp|].
    intros Hin%existsb_eqb_In. cbn [fst] in Hin. congruence.
Qed.

(** X20: whatever the text, every key [parseExtraHeaders] returns is a
    non-empty word without a space that is not one of the standard headers:
    standard headers and lines without a space are never returned, and a
    line that begins with a space never starts a header. *)
Theorem parseExtraHeaders_keys (rawData : string) (standardHeaders : list string)
    (key value : string) :
  In (key, value) (swhid.parseExtraHeaders rawData standardHeaders) ->
  key <> "" /\ without " " key /\ ~ In key standardHeaders.
Proof.
  unfold swhid.parseExtraHeaders, without. intros Hin.
  apply (in_map fst) in Hin. cbn [fst] in Hin. revert Hin.
  assert (H : forall lines state,
             In key (map fst (fst (fold_left (swhid.parseHeaderLine standardHeaders)
                                     lines state))) ->
             In key (map fst (fst state))
             \/ (key <> "" /\ strings.Index key " " = None /\ ~ In key standardHeaders)).
  { induction lines as [|line lines IH]; intros state Hin; [now left|].
    cbn [fold_left] in Hin. apply IH in Hin as [Hin|Hin]; [|now right].
    now apply parseHeaderLine_keys in Hin. }
  intros Hin. apply H in Hin as [[]|Hin]. exact Hin.
Qed.

Lemma parseExtraHeaders_keys_witness :
  "gpgsig" <> "" /\ without " " "gpgsig" /\ ~ In "gpgsig" swhid.commitStandardHeaders.
Proof.
  apply (parseExtraHeaders_keys
           (string_of (revision.serializeRevision signedRevision))
           swhid.commitStandardHeaders "gpgsig"
           ("-----BEGIN PGP SIGNATURE-----" +:+ String LF (String LF
              ("iQEzBAAB" +:+ String LF "-----END PGP SIGNATURE-----")))).
  vm_compute. right. left. reflexivity.
Defined.

Lemma scan_last (init : list string) (last : string) :
  Forall (fun raw => bufio.fits raw = true) (init ++ [last]) ->
  bufio.scan (init ++ [last])
  = map bufio.dropCR init ++ (if String.eqb last "" then [] else [bufio.dropCR last]).
Proof.
  intros [Hinit Hlast]%Forall_app. rewrite scan_app; [|exact Hinit|discriminate].
  apply Forall_inv in Hlast. cbn [bufio.scan]. now rewrite Hlast.
Qed.

(** X21: nothing after the first empty line is read as a header. For a head
    whose lines the scanner can hold, the text made of the head, an empty
    line and any message gives the extra headers of the head alone. *)
Theorem message_never_read (head message : string) (standardHeaders : list string) :
  linesFit head ->
  swhid.parseExtraHeaders (head +:+ String LF (String LF message)) standardHeaders
  = swhid.parseExtraHeaders head standardHeaders.
Proof.
  unfold linesFit, textLines, swhid.parseExtraHeaders, bufio.Lines. intros Hfit.
  rewrite Split_app_sep, Split_cons, Ascii.eqb_refl.
  rewrite scan_app; [|exact Hfit|discriminate].
  assert (Hscan : bufio.scan ("" :: strings.Split message LF)
                  = "" :: bufio.scan (strings.Split message LF)).
  { rewrite (Split_hd_tl message LF). reflexivity. }
  rewrite Hscan. set (more := bufio.scan (strings.Split message LF)).
  destruct (exists_last (l := strings.Split head LF)) as (init & last & Hsplit);
    [rewrite Split_hd_tl; discriminate|].
  rewrite Hsplit in *. rewrite scan_last by exact Hfit.
  rewrite map_app, !fold_left_app. cbn [map fold_left].
  destruct (fold_left (swhid.parseHeaderLine standardHeaders) (map bufio.dropCR init)
              ([], true)) as [headers inHeaders].
  assert (Hblank : forall state,
             fst (fold_left (swhid.parseHeaderLine standardHeaders) more
                    (swhid.parseHeaderLine standardHeaders state ""))
             = fst state).
  { intros [hs b]. change (swhid.parseHeaderLine standardHeaders (hs, b) "")
      with (hs, false). now rewrite fold_message. }
  rewrite Hblank.
  destruct (String.eqb_spec last "") as [->|Hlast]; reflexivity.
Qed.

Lemma message_never_read_witness :
  swhid.parseExtraHeaders
    (("tree " +:+ emptyTreeHash +:+ String LF "encoding latin1")
     +:+ String LF (String LF "note in the message"))
    swhid.commitStandardHeaders
  = swhid.parseExtraHeaders
      ("tree " +:+ emptyTreeHash +:+ String LF "encoding latin1")
      swhid.commitStandardHeaders.
Proof.
  apply (message_never_read
           ("tree " +:+ emptyTreeHash +:+ String LF "encoding latin1")
           "note in the message" swhid.commitStandardHeaders).
  apply linesFit_check. vm_compute. reflexivity.
Defined.

(** ** The command [content] *)

(** X22: the identifier the command [content] prints can be parsed back.
    For the data read and the flags [-q] given, the identifier built by
    [FromContent] and [applyQualifiers] has the digest of the data as its
    hash and the flags as its qualifiers, and [Parse] on what [String] writes
    for it returns it, provided no key of a flag has a semicolon or an equals
    sign and no value has a plus sign. *)
Theorem content_command_parses_back (data : list byte) (flags : gmap string string)
    (visit : list (string * string)) :
  (forall k v, flags !! k = Some v ->
     without ";" k /\ without "=" k /\ without "+" v) ->
  swhid.rangeOrder flags visit ->
  exists id printed,
    swhid.FromContent data = Some id
    /\ printed = main.applyQualifiers flags id
    /\ swhid.ObjectHash printed = ComputeContentHash data
    /\ swhid.Qualifiers printed = flags
    /\ swhid.Parse (swhid.Identifier_String visit printed) = Ok printed.
Proof.
  intros Hflags Hvisit.
  exists (coreIdentifier "cnt" (ComputeContentHash data)).
  exists (main.applyQualifiers flags (coreIdentifier "cnt" (ComputeContentHash data))).
  assert (Hprinted : main.applyQualifiers flags
                       (coreIdentifier "cnt" (ComputeContentHash data))
                     = {| swhid.IdScheme := swhid.Scheme;
                          swhid.Version := swhid.SchemeVersion;
                          swhid.IdObjectType := "cnt";
                          swhid.ObjectHash := ComputeContentHash data;
                          swhid.Qualifiers := flags |}).
  { unfold main.applyQualifiers, coreIdentifier, swhid.WithQualifiers.
    destruct (Nat.eqb_spec (size flags) 0) as [Hsize|_]; [|reflexivity].
    apply map_size_empty_iff in Hsize. now rewrite Hsize. }
  split.
  { unfold swhid.FromContent, ComputeContentHash. cbv zeta.
    now rewrite NewIdentifier_digest. }
  split; [reflexivity|]. rewrite Hprinted. split; [reflexivity|]. split; [reflexivity|].
  apply written_identifier_parses; [reflexivity|apply hashObject_matches| |exact Hvisit].
  exact Hflags.
Qed.

Lemma content_command_parses_back_witness :
  exists id printed,
    swhid.FromContent (bytes_of "hello") = Some id
    /\ printed = main.applyQualifiers twoQualifiers id
    /\ swhid.ObjectHash printed = ComputeContentHash (bytes_of "hello")
    /\ swhid.Qualifiers printed = twoQualifiers
    /\ swhid.Parse
         (swhid.Identifier_String
            [("custom", "1"); ("origin", "https://example.com/a;b%")] printed)
       = Ok printed.
Proof.
  apply (content_command_parses_back (bytes_of "hello") twoQualifiers).
  - intros k v Hk. unfold twoQualifiers in Hk.
    apply lookup_insert_Some in Hk as [[<- <-]|[_ [-> ->]%escapedOrigin_lookup]];
      repeat split.
  - exact twoQualifiers_range.
Defined.

(** A key with a semicolon is written as it is: the flag [-q "a;b=c"] gives
    an identifier whose text parses to the key [b]. *)
Example flag_key_with_semicolon :
  main.Set_ ∅ "a;b=c" = Ok {[ "a;b" := "c" ]}
  /\ swhid.Identifier_String [("a;b", "c")]
       (swhid.WithQualifiers (coreIdentifier "cnt" exampleHash) {[ "a;b" := "c" ]})
     = "swh:1:cnt:94a9ed024d3859793618152ea559a168bbcbb5e2;a;b=c"
  /\ swhid.Parse "swh:1:cnt:94a9ed024d3859793618152ea559a168bbcbb5e2;a;b=c"
     = Ok (swhid.WithQualifiers (coreIdentifier "cnt" exampleHash) {[ "b" := "c" ]}).
Proof. split; [|split]; vm_compute; reflexivity. Qed.
